(** * FuelQ (App.tsx): feed normaliser, site matching, member pricing

    A shallow embedding of the data-handling functions of [src/App.tsx]:
    [isSupermarketBrand], [normalizeString], [matchStationsWithUKFuels],
    [parseStationData], [calculateDistance], [sortStationsByDistance], the
    filter/sort effect and the price computation at the head of
    [StationCard]; then [loadUKFuelsSites], [fetchFuelPrices], [kmToMiles],
    the auto-select effect, the station lists of the dashboard and of the
    map, and the session handlers.

    Conventions of the embedding.
    - JavaScript values are the inductive [JS]: what [JSON.parse] produces,
      plus [undefined].  Numbers are IEEE-754 binary64 ([PrimFloat.float]).
    - Strings are [string].  Of [toUpperCase], [toLowerCase] and [trim]
      the embedding has the ASCII part: the letters a-z and A-Z, the
      white space of code points 9-13 and 32.  It is exact on ASCII text,
      and a property that speaks of upper-cased, lower-cased or trimmed
      text is stated for ASCII text.
    - A thrown exception is the [Throw] outcome of the monad [Res];
      [try]/[catch] blocks are the explicit [try_catch].
    - What ECMAScript leaves to the host (number formatting and parsing,
      [Math.pow], [Math.sin], [Math.cos], [Math.atan2]) is the class [Host];
      the wall clock read by [new Date()] is an explicit argument. *)

From Stdlib Require Import Floats ZArith List String Ascii Bool Lia.
From Stdlib Require Import Permutation Sorted.
From stdpp Require Import gmap strings.

Set Warnings "-inexact-float,-register-all".
Local Open Scope string_scope.

(* ===================================================================== *)
(** * JavaScript values *)
(* ===================================================================== *)

(** [JObj props] lists the own properties of an object in the order
    [for ... in] enumerates them, with distinct keys. *)
Inductive JS : Type :=
| JUndefined
| JNull
| JBool (b : bool)
| JNum (n : float)
| JStr (s : string)
| JArr (items : list JS)
| JObj (props : list (string * JS)).

(** [ToBoolean]: [undefined], [null], [false], [0], [-0], [NaN] and the
    empty string are falsy, everything else is truthy. *)
Definition truthy (v : JS) : bool :=
  match v with
  | JUndefined | JNull => false
  | JBool b => b
  | JNum n => negb (PrimFloat.is_nan n || PrimFloat.eqb n 0)
  | JStr s => negb (String.eqb s "")
  | JArr _ | JObj _ => true
  end.

(** [a || b] on values. *)
Definition jsOr (a b : JS) : JS := if truthy a then a else b.

Definition nullish (v : JS) : bool :=
  match v with JUndefined | JNull => true | _ => false end.

Definition isArray (v : JS) : bool :=
  match v with JArr _ => true | _ => false end.

(** [typeof v === 'number'], [=== 'string'], [=== 'object']. *)
Definition typeof_number (v : JS) : bool :=
  match v with JNum _ => true | _ => false end.
Definition typeof_string (v : JS) : bool :=
  match v with JStr _ => true | _ => false end.
Definition typeof_object (v : JS) : bool :=
  match v with JNull | JArr _ | JObj _ => true | _ => false end.

(** [v === 'text'] and [v === false]. *)
Definition is_str (v : JS) (s : string) : bool :=
  match v with JStr t => String.eqb t s | _ => false end.
Definition is_false (v : JS) : bool :=
  match v with JBool false => true | _ => false end.

(** Own property of an object, in enumeration order; first binding wins. *)
Fixpoint assoc (k : string) (props : list (string * JS)) : JS :=
  match props with
  | [] => JUndefined
  | (k', v) :: rest => if String.eqb k k' then v else assoc k rest
  end.

Fixpoint hasOwn (k : string) (props : list (string * JS)) : bool :=
  match props with
  | [] => false
  | (k', _) :: rest => String.eqb k k' || hasOwn k rest
  end.

(** [v.k] for a [v] that is neither [null] nor [undefined].  None of the
    property names read by the program is defined on [Object.prototype],
    [Array.prototype], [String.prototype], [Number.prototype] or
    [Boolean.prototype], so a read on anything but an object with that own
    key is [undefined]. *)
Definition prop (v : JS) (k : string) : JS :=
  match v with
  | JObj props => assoc k props
  | _ => JUndefined
  end.

(* ===================================================================== *)
(** * Exceptions *)
(* ===================================================================== *)

Inductive Exn : Type := TypeError.

Inductive Res (A : Type) : Type :=
| Ok (a : A)
| Throw (e : Exn).
Arguments Ok {A} a.
Arguments Throw {A} e.

Definition bind {A B : Type} (m : Res A) (k : A → Res B) : Res B :=
  match m with
  | Ok a => k a
  | Throw e => Throw e
  end.

Notation "x <- m ;; k" := (bind m (fun x => k))
  (at level 100, m at next level, right associativity,
   format "'[v' x  <-  m  ;; '/' k ']'").

(** [try { body } catch (e) { handler }]. *)
Definition try_catch {A : Type} (body : Res A) (handler : Exn → Res A) : Res A :=
  match body with
  | Ok a => Ok a
  | Throw e => handler e
  end.

(** [v.k]: throws on [null] and [undefined]. *)
Definition get (v : JS) (k : string) : Res JS :=
  if nullish v then Throw TypeError else Ok (prop v k).

(** [v?.k]. *)
Definition getOpt (v : JS) (k : string) : JS :=
  if nullish v then JUndefined else prop v k.

(* ===================================================================== *)
(** * Strings *)
(* ===================================================================== *)

Definition upper_char (c : ascii) : ascii :=
  let n := nat_of_ascii c in
  if Nat.leb 97 n && Nat.leb n 122 then ascii_of_nat (n - 32) else c.

Definition lower_char (c : ascii) : ascii :=
  let n := nat_of_ascii c in
  if Nat.leb 65 n && Nat.leb n 90 then ascii_of_nat (n + 32) else c.

Fixpoint map_string (f : ascii → ascii) (s : string) : string :=
  match s with
  | EmptyString => EmptyString
  | String c rest => String (f c) (map_string f rest)
  end.

Fixpoint filter_string (p : ascii → bool) (s : string) : string :=
  match s with
  | EmptyString => EmptyString
  | String c rest =>
      if p c then String c (filter_string p rest) else filter_string p rest
  end.

(** [s.toUpperCase()] and [s.toLowerCase()] on ASCII text. *)
Definition toUpperCase : string → string := map_string upper_char.
Definition toLowerCase : string → string := map_string lower_char.

Definition is_white (c : ascii) : bool :=
  let n := nat_of_ascii c in
  Nat.eqb n 32 || (Nat.leb 9 n && Nat.leb n 13).

Fixpoint trimStart (s : string) : string :=
  match s with
  | EmptyString => EmptyString
  | String c rest => if is_white c then trimStart rest else s
  end.

Fixpoint trimEnd (s : string) : string :=
  match s with
  | EmptyString => EmptyString
  | String c rest =>
      match trimEnd rest with
      | EmptyString => if is_white c then EmptyString else String c EmptyString
      | rest' => String c rest'
      end
  end.

(** [s.trim()] on ASCII text. *)
Definition trim (s : string) : string := trimEnd (trimStart s).

(** [s.includes(sub)]. *)
Fixpoint includes (s sub : string) : bool :=
  String.prefix sub s
  || match s with
     | EmptyString => false
     | String _ rest => includes rest sub
     end.

(** The character class [[A-Z0-9]]. *)
Definition is_AZ09 (c : ascii) : bool :=
  let n := nat_of_ascii c in
  (Nat.leb 65 n && Nat.leb n 90) || (Nat.leb 48 n && Nat.leb n 57).

(** [.toUpperCase().trim().replace(/[^A-Z0-9]/g, '').replace(/\s+/g, '')]:
    the chain applied by [normalizeString] once its argument is a string. *)
Definition normalize_text (s : string) : string :=
  filter_string (fun c => negb (is_white c))
    (filter_string is_AZ09 (trim (toUpperCase s))).

(** [array.includes(s)] on an array of strings. *)
Definition includes_str (l : list string) (s : string) : bool :=
  existsb (String.eqb s) l.

(* ===================================================================== *)
(** * Host functions *)
(* ===================================================================== *)

(** [Number_toString] is [Number::toString] (radix 10); [parseFloat_string]
    is [parseFloat] on a string argument.  The [Math] functions below are
    "implementation-approximated" in ECMAScript.  [Math.sqrt] is exact and is
    [PrimFloat.sqrt]. *)
Class Host : Type := {
  Number_toString : float → string;
  parseFloat_string : string → float;
  Math_pow : float → float → float;
  Math_sin : float → float;
  Math_cos : float → float;
  Math_atan2 : float → float → float;
}.

Definition Math_PI : float := 3.141592653589793%float.

Definition float_of_nat (n : nat) : float :=
  PrimFloat.of_uint63 (Uint63.of_Z (Z.of_nat n)).

Section WithHost.
Context `{Host}.

(** [ToString(v)].  For an object, [OrdinaryToPrimitive] ends in
    [Object.prototype.toString] unless the object has an own [toString]
    property; a parsed JSON value is never callable, so in that case a
    TypeError is thrown.  Arrays go through [join], which renders [null] and
    [undefined] elements as the empty string. *)
Fixpoint ToString (v : JS) : Res string :=
  match v with
  | JUndefined => Ok "undefined"
  | JNull => Ok "null"
  | JBool true => Ok "true"
  | JBool false => Ok "false"
  | JNum n => Ok (Number_toString n)
  | JStr s => Ok s
  | JArr items =>
      (fix join (l : list JS) : Res string :=
         match l with
         | [] => Ok ""
         | x :: rest =>
             a <- (if nullish x then Ok "" else ToString x);;
             match rest with
             | [] => Ok a
             | _ => b <- join rest;; Ok (a ++ "," ++ b)
             end
         end) items
  | JObj props =>
      if hasOwn "toString" props then Throw TypeError
      else Ok "[object Object]"
  end.

(** [parseFloat(v)].  On a number the argument is first rendered by
    [Number::toString], whose digits read back as the same number, so the
    result is the number itself; only the sign of a zero is lost ([-0]
    renders as ["0"]). *)
Definition parseFloat (v : JS) : Res float :=
  match v with
  | JNum n => Ok (if PrimFloat.eqb n 0 then 0%float else n)
  | _ => s <- ToString v;; Ok (parseFloat_string s)
  end.

(** [str.toString()] for a truthy receiver: the method of the value's
    prototype, which renders it as [ToString] does. *)
Definition toString_method (v : JS) : Res string := ToString v.

(** [normalizeString] (App.tsx 520-527). *)
Definition normalizeString (str : JS) : Res string :=
  if negb (truthy str) then Ok ""
  else s <- toString_method str;; Ok (normalize_text s).

End WithHost.

(* ===================================================================== *)
(** * Pricing policy *)
(* ===================================================================== *)

Record WeeklyPrices : Type := {
  diesel : float;
  dieselSupermarket : float;
  petrolDiscount : float;
  petrolDiscountSupermarket : float;
  validFrom : string;
  validTo : string;
}.

(** [FUELQ_WEEKLY_PRICES] (App.tsx 51-58): pence per litre. *)
Definition FUELQ_WEEKLY_PRICES : WeeklyPrices := {|
  diesel := 130.6%float;
  dieselSupermarket := 133.6%float;
  petrolDiscount := 3%float;
  petrolDiscountSupermarket := 1%float;
  validFrom := "2024-01-22";
  validTo := "2024-01-28";
|}.

Definition supermarkets : list string :=
  ["ASDA"; "TESCO"; "SAINSBURYS"; "MORRISONS"; "SAINSBURY'S"; "MORRISON'S"].

(** [isSupermarketBrand] (App.tsx 61-64).  [brand?.toUpperCase()] is
    [undefined] for a missing brand and a TypeError for a brand that is
    neither a string nor missing. *)
Definition isSupermarketBrand (brand : JS) : Res bool :=
  match brand with
  | JUndefined | JNull => Ok false
  | JStr s => Ok (includes_str supermarkets (toUpperCase s))
  | _ => Throw TypeError
  end.

(* ===================================================================== *)
(** * Site numbers and the claimed set *)
(* ===================================================================== *)

(** A site number is a JSON primitive; [Set] compares primitives by value
    ([SameValueZero]). *)
Inductive Prim : Type :=
| PUndefined
| PNull
| PBool (b : bool)
| PNum (n : float)
| PStr (s : string).

Definition JS_of_Prim (p : Prim) : JS :=
  match p with
  | PUndefined => JUndefined
  | PNull => JNull
  | PBool b => JBool b
  | PNum n => JNum n
  | PStr s => JStr s
  end.

Definition sameValueZero (a b : Prim) : bool :=
  match a, b with
  | PUndefined, PUndefined => true
  | PNull, PNull => true
  | PBool x, PBool y => Bool.eqb x y
  | PNum x, PNum y =>
      PrimFloat.eqb x y || (PrimFloat.is_nan x && PrimFloat.is_nan y)
  | PStr x, PStr y => String.eqb x y
  | _, _ => false
  end.

(** [new Set()], [set.has(v)], [set.add(v)]; elements in insertion order. *)
Definition set_has (set : list Prim) (v : Prim) : bool :=
  existsb (sameValueZero v) set.

Definition set_add (set : list Prim) (v : Prim) : list Prim :=
  if set_has set v then set else (set ++ [v])%list.

(* ===================================================================== *)
(** * Records *)
(* ===================================================================== *)

(** A station object.  The fields are the properties the program ever puts
    on one: those written by [parseStationData], those added by the merge
    and by the synthesis in [matchStationsWithUKFuels], and [distance].  A
    property an object does not have reads as [JUndefined]. *)
Module Station.
Record t : Type := mk {
  id : string;
  brand : JS;
  name : JS;
  address : JS;
  postcode : JS;
  town : JS;
  latitude : float;
  longitude : float;
  petrol_price : JS;
  diesel_price : JS;
  super_price : JS;
  last_updated : JS;
  is_open : JS;
  facilities : JS;
  ukFuelsSiteNo : JS;
  ukFuelsAltSiteNo : JS;
  hasLivePricing : JS;
  hours24 : JS;
  hgvAccess : JS;
  isUKFuelsSite : JS;
  bands : JS;
  distance : JS;
}.

Definition set_petrol_price (v : JS) (s : t) : t :=
  mk (id s) (brand s) (name s) (address s) (postcode s) (town s)
     (latitude s) (longitude s) v (diesel_price s) (super_price s)
     (last_updated s) (is_open s) (facilities s) (ukFuelsSiteNo s)
     (ukFuelsAltSiteNo s) (hasLivePricing s) (hours24 s) (hgvAccess s)
     (isUKFuelsSite s) (bands s) (distance s).

Definition set_diesel_price (v : JS) (s : t) : t :=
  mk (id s) (brand s) (name s) (address s) (postcode s) (town s)
     (latitude s) (longitude s) (petrol_price s) v (super_price s)
     (last_updated s) (is_open s) (facilities s) (ukFuelsSiteNo s)
     (ukFuelsAltSiteNo s) (hasLivePricing s) (hours24 s) (hgvAccess s)
     (isUKFuelsSite s) (bands s) (distance s).

Definition set_super_price (v : JS) (s : t) : t :=
  mk (id s) (brand s) (name s) (address s) (postcode s) (town s)
     (latitude s) (longitude s) (petrol_price s) (diesel_price s) v
     (last_updated s) (is_open s) (facilities s) (ukFuelsSiteNo s)
     (ukFuelsAltSiteNo s) (hasLivePricing s) (hours24 s) (hgvAccess s)
     (isUKFuelsSite s) (bands s) (distance s).

Definition set_last_updated (v : JS) (s : t) : t :=
  mk (id s) (brand s) (name s) (address s) (postcode s) (town s)
     (latitude s) (longitude s) (petrol_price s) (diesel_price s)
     (super_price s) v (is_open s) (facilities s) (ukFuelsSiteNo s)
     (ukFuelsAltSiteNo s) (hasLivePricing s) (hours24 s) (hgvAccess s)
     (isUKFuelsSite s) (bands s) (distance s).

Definition set_distance (v : JS) (s : t) : t :=
  mk (id s) (brand s) (name s) (address s) (postcode s) (town s)
     (latitude s) (longitude s) (petrol_price s) (diesel_price s)
     (super_price s) (last_updated s) (is_open s) (facilities s)
     (ukFuelsSiteNo s) (ukFuelsAltSiteNo s) (hasLivePricing s) (hours24 s)
     (hgvAccess s) (isUKFuelsSite s) (bands s) v.
End Station.

(** A directory site as [loadUKFuelsSites] builds it (App.tsx 541-556):
    the text fields are strings (upper-cased and trimmed), the coordinates
    are numbers, the remaining fields are whatever the payload held. *)
Module Site.
Record t : Type := mk {
  siteNo : Prim;
  altSiteNo : JS;
  latitude : float;
  longitude : float;
  siteName : string;
  street1 : string;
  town : string;
  postCode : string;
  brand : string;
  hours24 : JS;
  hgvAccess : JS;
  petrol : JS;
  diesel : JS;
  bands : JS;
}.
End Site.

(** The constants computed at the head of [StationCard] (App.tsx
    1203-1210); [None] is [null]. *)
Module Card.
Record t : Type := mk {
  isSupermarket : bool;
  pumpPetrolPPL : option float;
  pumpDieselPPL : option float;
  dieselFuelQPrice : float;
  petrolDiscount : float;
  fuelqPetrolPPL : option float;
}.
End Card.

(** Truthiness of a number-or-null. *)
Definition truthy_num (o : option float) : bool :=
  match o with
  | Some n => truthy (JNum n)
  | None => false
  end.

Section Pricing.
Context `{Host}.

(** [price ? parseFloat(price) * 100 : null]. *)
Definition pumpPPL (price : JS) : Res (option float) :=
  if truthy price then n <- parseFloat price;; Ok (Some (n * 100)%float)
  else Ok None.

Definition StationCard (station : Station.t) : Res Card.t :=
  isSupermarket <- isSupermarketBrand (Station.brand station);;
  pumpPetrolPPL <- pumpPPL (Station.petrol_price station);;
  pumpDieselPPL <- pumpPPL (Station.diesel_price station);;
  let dieselFuelQPrice :=
    if isSupermarket then dieselSupermarket FUELQ_WEEKLY_PRICES
    else diesel FUELQ_WEEKLY_PRICES in
  let petrolDiscount :=
    if isSupermarket then petrolDiscountSupermarket FUELQ_WEEKLY_PRICES
    else petrolDiscount FUELQ_WEEKLY_PRICES in
  let fuelqPetrolPPL :=
    if truthy_num pumpPetrolPPL
    then option_map (fun p => (p - petrolDiscount)%float) pumpPetrolPPL
    else None in
  Ok (Card.mk isSupermarket pumpPetrolPPL pumpDieselPPL dieselFuelQPrice
        petrolDiscount fuelqPetrolPPL).

End Pricing.

(* ===================================================================== *)
(** * Feed normaliser: [parseStationData] (App.tsx 728-885) *)
(* ===================================================================== *)

Infix "|||" := jsOr (at level 50, left associativity).

(** [array.forEach((x, index) => ...)] with the state threaded through the
    callback; the index of the first element is [i]. *)
Fixpoint forEach_from {A St : Type} (cb : St → A → nat → Res St)
    (l : list A) (i : nat) (s : St) : Res St :=
  match l with
  | [] => Ok s
  | x :: rest => s' <- cb s x i;; forEach_from cb rest (S i) s'
  end.

(** [v.forEach(cb)]: only an array has a callable [forEach]. *)
Definition forEach {St : Type} (v : JS) (cb : St → JS → nat → Res St) (s : St)
    : Res St :=
  match v with
  | JArr items => forEach_from cb items 0 s
  | _ => Throw TypeError
  end.

Definition probe_keys : list string :=
  ["stations"; "data"; "results"; "fuel_prices"; "items"; "sites";
   "locations"; "stores"; "forecourts"].

Definition nonEmptyArray (v : JS) : bool :=
  match v with
  | JArr (_ :: _) => true
  | _ => false
  end.

(** The [for (const key in data)] loop (755-760): the value of the first
    own key that holds a non-empty array; [[]] when there is none.  The
    enumerable keys of a string are its indices, whose values are
    one-character strings; numbers and booleans have none. *)
Definition first_array_value (data : JS) : JS :=
  match data with
  | JObj props =>
      match find (fun kv => nonEmptyArray (assoc (fst kv) props)) props with
      | Some (key, _) => assoc key props
      | None => JArr []
      end
  | _ => JArr []
  end.

(** Record-list discovery (732-761). *)
Definition recordList (data : JS) : Res JS :=
  _ <- get data "stations";;
  match find (fun key => truthy (prop data key)) probe_keys with
  | Some key => Ok (prop data key)
  | None => if isArray data then Ok data else Ok (first_array_value data)
  end.

Definition nan_to_zero (x : float) : float :=
  if PrimFloat.is_nan x then 0%float else x.

Section Normalizer.
Context `{Host}.

(** [clock i] is what [new Date().toISOString()] returns when it is
    evaluated while the [i]-th element of a loop is handled. *)
Variable clock : nat → string.
Variable retailerName : string.

(** Coordinate extraction (765-786). *)
Definition coordinates (station : JS) : Res (float * float) :=
  let location := prop station "location" in
  let geo := prop station "geo" in
  let coords := prop station "coords" in
  ll <-
    (if truthy location && typeof_object location then
       latitude <- parseFloat (prop location "latitude" ||| prop location "lat"
                               ||| JNum 0);;
       longitude <- parseFloat (prop location "longitude" ||| prop location "lng"
                                ||| prop location "lon" ||| JNum 0);;
       Ok (latitude, longitude)
     else if truthy (prop station "latitude") && truthy (prop station "longitude") then
       latitude <- parseFloat (prop station "latitude");;
       longitude <- parseFloat (prop station "longitude");;
       Ok (latitude, longitude)
     else if truthy (prop station "lat")
             && truthy (prop station "lng" ||| prop station "lon"
                        ||| prop station "long") then
       latitude <- parseFloat (prop station "lat");;
       longitude <- parseFloat (prop station "lng" ||| prop station "lon"
                                ||| prop station "long");;
       Ok (latitude, longitude)
     else if truthy geo then
       latitude <- parseFloat (prop geo "lat" ||| JNum 0);;
       longitude <- parseFloat (prop geo "lng" ||| prop geo "lon" ||| JNum 0);;
       Ok (latitude, longitude)
     else if truthy coords then
       latitude <- parseFloat (prop coords "latitude" ||| prop coords "lat" ||| JNum 0);;
       longitude <- parseFloat (prop coords "longitude" ||| prop coords "lng" ||| JNum 0);;
       Ok (latitude, longitude)
     else Ok (0%float, 0%float));;
  Ok (nan_to_zero (fst ll), nan_to_zero (snd ll)).

(** The object literal [parsedStation] (788-803). *)
Definition newParsedStation (station : JS) (index : nat)
    (latitude longitude : float) : Res Station.t :=
  idText <- ToString (prop station "id" ||| prop station "site_id"
                      ||| prop station "store_id" ||| prop station "location_id"
                      ||| prop station "number" ||| JNum (float_of_nat index));;
  Ok {|
    Station.id := retailerName ++ "-" ++ idText;
    Station.brand := prop station "brand" ||| prop station "brand_name"
                     ||| JStr retailerName;
    Station.name := prop station "name" ||| prop station "site_name"
                    ||| prop station "store_name" ||| prop station "trading_name"
                    ||| prop station "location_name" ||| JStr (retailerName ++ " Station");
    Station.address := prop station "address" ||| prop station "street"
                       ||| prop station "street_address" ||| prop station "address_line_1"
                       ||| JStr "";
    Station.postcode := prop station "postcode" ||| prop station "post_code"
                        ||| prop station "postal_code" ||| prop station "zip" ||| JStr "";
    Station.town := prop station "town" ||| prop station "city" ||| prop station "locality"
                    ||| JStr "";
    Station.latitude := latitude;
    Station.longitude := longitude;
    Station.petrol_price := JNull;
    Station.diesel_price := JNull;
    Station.super_price := JNull;
    Station.last_updated := prop station "last_updated" ||| prop station "updated_at"
                            ||| JStr (clock index);
    Station.is_open := JBool (negb (is_false (prop station "is_open"))
                              && negb (is_str (prop station "status") "closed"));
    Station.facilities := prop station "facilities" ||| prop station "amenities"
                          ||| prop station "services" ||| JArr [];
    Station.ukFuelsSiteNo := JUndefined;
    Station.ukFuelsAltSiteNo := JUndefined;
    Station.hasLivePricing := JUndefined;
    Station.hours24 := JUndefined;
    Station.hgvAccess := JUndefined;
    Station.isUKFuelsSite := JUndefined;
    Station.bands := JUndefined;
    Station.distance := JUndefined;
  |}.

(** [if (typeof v === 'number' && extra) slot = v / 100]. *)
Definition assign_pence (set : JS → Station.t → Station.t) (v : JS) (extra : bool)
    (p : Station.t) : Station.t :=
  match v with
  | JNum n => if extra then set (JNum (n / 100)%float) p else p
  | _ => p
  end.

(** [if (v) slot = parseFloat(v)]. *)
Definition assign_pounds (set : JS → Station.t → Station.t) (v : JS)
    (p : Station.t) : Res Station.t :=
  if truthy v then n <- parseFloat v;; Ok (set (JNum n) p) else Ok p.

(** [if (v) slot = parseFloat(v) / 100]. *)
Definition assign_parsed_pence (set : JS → Station.t → Station.t) (v : JS)
    (p : Station.t) : Res Station.t :=
  if truthy v then n <- parseFloat v;; Ok (set (JNum (n / 100)%float) p) else Ok p.

(** [station.prices] (805-827). *)
Definition from_prices (station : JS) (p : Station.t) : Res Station.t :=
  let prices := prop station "prices" in
  if truthy prices then
    let p := assign_pence Station.set_petrol_price (prop prices "E10") true p in
    let p := assign_pence Station.set_super_price (prop prices "E5") true p in
    let p := assign_pence Station.set_diesel_price (prop prices "B7") true p in
    let p := assign_pence Station.set_diesel_price (prop prices "SDV")
               (negb (truthy (Station.diesel_price p))) p in
    p <- assign_pounds Station.set_petrol_price (prop prices "unleaded") p;;
    p <- assign_pounds Station.set_diesel_price (prop prices "diesel") p;;
    assign_pounds Station.set_super_price (prop prices "super_unleaded") p
  else Ok p.

(** The callback of [station.fuel_type_services.forEach] (830-838). *)
Definition fuel_type_service (p : Station.t) (fuel : JS) (_ : nat) : Res Station.t :=
  fuel_type <- get fuel "fuel_type";;
  if is_str fuel_type "ULDS" || is_str fuel_type "Unleaded" then
    n <- parseFloat (prop fuel "price");;
    Ok (Station.set_petrol_price (JNum (n / 100)%float) p)
  else if is_str fuel_type "ULSD" || is_str fuel_type "Diesel" then
    n <- parseFloat (prop fuel "price");;
    Ok (Station.set_diesel_price (JNum (n / 100)%float) p)
  else if is_str fuel_type "SUL" || is_str fuel_type "Super Unleaded" then
    n <- parseFloat (prop fuel "price");;
    Ok (Station.set_super_price (JNum (n / 100)%float) p)
  else Ok p.

(** [station.fuel_type_services] (829-839). *)
Definition from_fuel_type_services (station : JS) (p : Station.t) : Res Station.t :=
  let services := prop station "fuel_type_services" in
  if truthy services then forEach services fuel_type_service p else Ok p.

(** [station.fuelPrices] (841-845). *)
Definition from_fuelPrices (station : JS) (p : Station.t) : Res Station.t :=
  let fuelPrices := prop station "fuelPrices" in
  if truthy fuelPrices then
    p <- assign_parsed_pence Station.set_petrol_price (prop fuelPrices "E10") p;;
    p <- assign_parsed_pence Station.set_diesel_price (prop fuelPrices "B7") p;;
    assign_parsed_pence Station.set_super_price (prop fuelPrices "E5") p
  else Ok p.

(** The last resort when neither petrol nor diesel is set (847-860). *)
Definition from_flat_fields (station : JS) (p : Station.t) : Res Station.t :=
  if negb (truthy (Station.petrol_price p)) && negb (truthy (Station.diesel_price p)) then
    p <- assign_parsed_pence Station.set_petrol_price (prop station "unleaded") p;;
    p <- assign_parsed_pence Station.set_diesel_price (prop station "diesel") p;;
    p <- assign_parsed_pence Station.set_super_price (prop station "super_unleaded") p;;
    p <- assign_pounds Station.set_petrol_price (prop station "unleaded_price") p;;
    p <- assign_pounds Station.set_diesel_price (prop station "diesel_price") p;;
    p <- assign_pounds Station.set_super_price (prop station "super_unleaded_price") p;;
    p <- assign_pounds Station.set_petrol_price (prop station "petrol") p;;
    p <- assign_pounds Station.set_petrol_price (prop station "petrol_price") p;;
    p <- assign_pounds Station.set_petrol_price
           (getOpt (prop station "fuel_prices") "unleaded") p;;
    assign_pounds Station.set_diesel_price
      (getOpt (prop station "fuel_prices") "diesel") p
  else Ok p.

(** [if (typeof slot === 'string') slot = parseFloat(slot) || null]
    (862-870). *)
Definition reparse_string (v : JS) : JS :=
  match v with
  | JStr s => JNum (parseFloat_string s) ||| JNull
  | _ => v
  end.

Definition reparse_strings (p : Station.t) : Station.t :=
  let p := Station.set_petrol_price (reparse_string (Station.petrol_price p)) p in
  let p := Station.set_diesel_price (reparse_string (Station.diesel_price p)) p in
  Station.set_super_price (reparse_string (Station.super_price p)) p.

(** Everything the callback does before the retention test (765-870). *)
Definition extractStation (station : JS) (index : nat) : Res Station.t :=
  _ <- get station "location";;
  ll <- coordinates station;;
  p <- newParsedStation station index (fst ll) (snd ll);;
  p <- from_prices station p;;
  p <- from_fuel_type_services station p;;
  p <- from_fuelPrices station p;;
  p <- from_flat_fields station p;;
  Ok (reparse_strings p).

(** The retention test (872). *)
Definition retained (p : Station.t) : bool :=
  truthy (Station.petrol_price p) || truthy (Station.diesel_price p)
  || truthy (Station.super_price p).

(** The callback of [stationArray.forEach] (763-878): the body of the
    [try] ends in the [push]; the [catch] logs and leaves [stations] as it
    was. *)
Definition parseStation (stations : list Station.t) (station : JS) (index : nat)
    : Res (list Station.t) :=
  try_catch
    (parsedStation <- extractStation station index;;
     if retained parsedStation then Ok (stations ++ [parsedStation])%list else Ok stations)
    (fun stationError => Ok stations).

(** [parseStationData] (728-885).  Inside the outer [try] only the record
    discovery and the call of [forEach] itself can throw, both before the
    first [push]; the outer [catch] logs, and [stations] is returned. *)
Definition parseStationData (data : JS) : Res (list Station.t) :=
  let stations := [] in
  stations <-
    try_catch
      (stationArray <- recordList data;;
       forEach stationArray parseStation stations)
      (fun error => Ok stations);;
  Ok stations.

(** What one record adds to [stations], and what a record list adds. *)
Definition contribution (station : JS) (index : nat) : list Station.t :=
  match extractStation station index with
  | Ok p => if retained p then [p] else []
  | Throw _ => []
  end.

Fixpoint contributions (items : list JS) (i : nat) : list Station.t :=
  match items with
  | [] => []
  | station :: rest => (contribution station i ++ contributions rest (S i))%list
  end.

End Normalizer.

(* ===================================================================== *)
(** * Matching engine: [matchStationsWithUKFuels] (App.tsx 571-726) *)
(* ===================================================================== *)

(** The three plain objects used as maps.  Their keys are outputs of
    [normalizeString] (upper-case letters and digits, joined by ["_"] in the
    third), which never name a property of [Object.prototype]. *)
Module Indices.
Record t : Type := mk {
  ukFuelsPostcodeMap : gmap string (list Site.t);
  ukFuelsNameMap : gmap string (list Site.t);
  ukFuelsBrandTownMap : gmap string (list Site.t);
}.
End Indices.

Module MatchState.
Record t : Type := mk {
  matched : list Station.t;
  unmatched : list Station.t;
  matchedUKFuelsSiteIds : list Prim;
}.
End MatchState.

Module MatchResult.
Record t : Type := mk {
  matched : list Station.t;
  unmatched : list Station.t;
  liveCount : nat;
}.
End MatchResult.

Definition nonempty (s : string) : bool := negb (String.eqb s "").

(** Truthiness of [matchedSite]: a site object, or [null] / [undefined]. *)
Definition found (matchedSite : option Site.t) : bool :=
  match matchedSite with Some _ => true | None => false end.

Definition is_true (v : JS) : bool :=
  match v with JBool true => true | _ => false end.

(** [if (!map[key]) map[key] = []; map[key].push(site)]. *)
Definition map_push (key : string) (site : Site.t)
    (m : gmap string (list Site.t)) : gmap string (list Site.t) :=
  <[key := (default [] (m !! key) ++ [site])%list]> m.

(** The callback of the first [ukFuelsSites.forEach] (582-603).  The text
    fields of a site are strings, on which [normalizeString] is
    [normalize_text]. *)
Definition index_site (ix : Indices.t) (site : Site.t) : Indices.t :=
  let normPostcode := normalize_text (Site.postCode site) in
  let normName := normalize_text (Site.siteName site) in
  let normBrand := normalize_text (Site.brand site) in
  let normTown := normalize_text (Site.town site) in
  let brandTownKey := normBrand ++ "_" ++ normTown in
  Indices.mk
    (if nonempty normPostcode
     then map_push normPostcode site (Indices.ukFuelsPostcodeMap ix)
     else Indices.ukFuelsPostcodeMap ix)
    (if nonempty normName
     then map_push normName site (Indices.ukFuelsNameMap ix)
     else Indices.ukFuelsNameMap ix)
    (if nonempty normBrand && nonempty normTown
     then map_push brandTownKey site (Indices.ukFuelsBrandTownMap ix)
     else Indices.ukFuelsBrandTownMap ix).

Definition build_indices (ukFuelsSites : list Site.t) : Indices.t :=
  fold_left index_site ukFuelsSites (Indices.mk ∅ ∅ ∅).

(** The choice among the sites sharing the station's postcode (614-619);
    [candidates[0]] of an empty array is [undefined]. *)
Definition postcode_candidate (candidates : list Site.t) (stationBrand : string)
    : option Site.t :=
  match candidates with
  | [only] => Some only
  | _ =>
      match find (fun c => String.eqb (normalize_text (Site.brand c)) stationBrand)
                 candidates with
      | Some c => Some c
      | None => head candidates
      end
  end.

(** [array.forEach] for a callback that cannot throw. *)
Fixpoint fold_left_i {A St : Type} (cb : St → A → nat → St)
    (l : list A) (i : nat) (s : St) : St :=
  match l with
  | [] => s
  | x :: rest => fold_left_i cb rest (S i) (cb s x i)
  end.

(** [[a && '24 Hours', b && 'HGV Access'].filter(Boolean)]. *)
Definition facilities_of (hours24 hgvAccess : JS) : JS :=
  JArr ((if truthy hours24 then [JStr "24 Hours"] else [])
        ++ (if truthy hgvAccess then [JStr "HGV Access"] else []))%list.

Section Matching.
Context `{Host}.

(** [ToString] of a primitive. *)
Definition Prim_toString (p : Prim) : string :=
  match p with
  | PUndefined => "undefined"
  | PNull => "null"
  | PBool true => "true"
  | PBool false => "false"
  | PNum n => Number_toString n
  | PStr s => s
  end.

(** The distance of 627-630, in degrees. *)
Definition planar_distance (station : Station.t) (ukSite : Site.t) : float :=
  PrimFloat.sqrt
    (Math_pow (Station.latitude station - Site.latitude ukSite) 2
     + Math_pow (Station.longitude station - Site.longitude ukSite) 2)%float.

(** The callback of the proximity scan (626-640); the state is
    [(closestSite, minDistance)]. *)
Definition closer (station : Station.t) (stationBrand : string)
    (acc : option Site.t * float) (ukSite : Site.t) : option Site.t * float :=
  let distance := planar_distance station ukSite in
  if (distance <? snd acc)%float then
    let brandsMatch :=
      includes (normalize_text (Site.brand ukSite)) stationBrand
      || includes stationBrand (normalize_text (Site.brand ukSite)) in
    if (distance <? 0.001)%float || brandsMatch then (Some ukSite, distance) else acc
  else acc.

Definition proximity_match (ukFuelsSites : list Site.t) (station : Station.t)
    (stationBrand : string) : option Site.t :=
  fst (fold_left (closer station stationBrand) ukFuelsSites (None, 0.01%float)).

(** The three strategies applied to one live station (606-652). *)
Definition findSite (ix : Indices.t) (ukFuelsSites : list Site.t)
    (station : Station.t) : Res (option Site.t) :=
  let matchedSite : option Site.t := None in
  stationPostcode <- normalizeString (Station.postcode station);;
  stationName <- normalizeString (Station.name station);;
  stationBrand <- normalizeString (Station.brand station);;
  stationTown <- normalizeString (Station.town station);;
  let matchedSite :=
    if nonempty stationPostcode then
      match Indices.ukFuelsPostcodeMap ix !! stationPostcode with
      | Some candidates => postcode_candidate candidates stationBrand
      | None => matchedSite
      end
    else matchedSite in
  let matchedSite :=
    if negb (found matchedSite)
       && truthy (JNum (Station.latitude station))
       && truthy (JNum (Station.longitude station)) then
      match proximity_match ukFuelsSites station stationBrand with
      | Some closestSite => Some closestSite
      | None => matchedSite
      end
    else matchedSite in
  let matchedSite :=
    if negb (found matchedSite)
       && nonempty stationBrand && nonempty stationTown then
      match Indices.ukFuelsBrandTownMap ix !! (stationBrand ++ "_" ++ stationTown) with
      | Some candidates => head candidates
      | None => matchedSite
      end
    else matchedSite in
  Ok matchedSite.

(** The object literal [mergedStation] (657-680): the live station with
    the identity and location of the site. *)
Definition mergedStation (station : Station.t) (matchedSite : Site.t) : Station.t := {|
  Station.id := "matched-" ++ Prim_toString (Site.siteNo matchedSite)
                ++ "-" ++ Station.id station;
  Station.brand := Station.brand station;
  Station.name := JStr (Site.siteName matchedSite) ||| Station.name station;
  Station.address := JStr (Site.street1 matchedSite) ||| Station.address station;
  Station.postcode := JStr (Site.postCode matchedSite) ||| Station.postcode station;
  Station.town := JStr (Site.town matchedSite) ||| Station.town station;
  Station.latitude := Site.latitude matchedSite;
  Station.longitude := Site.longitude matchedSite;
  Station.petrol_price := Station.petrol_price station;
  Station.diesel_price := Station.diesel_price station;
  Station.super_price := Station.super_price station;
  Station.last_updated := Station.last_updated station;
  Station.is_open := Station.is_open station;
  Station.facilities :=
    facilities_of (Site.hours24 matchedSite) (Site.hgvAccess matchedSite);
  Station.ukFuelsSiteNo := JS_of_Prim (Site.siteNo matchedSite);
  Station.ukFuelsAltSiteNo := Site.altSiteNo matchedSite;
  Station.hasLivePricing := JBool true;
  Station.hours24 := Site.hours24 matchedSite;
  Station.hgvAccess := Site.hgvAccess matchedSite;
  Station.isUKFuelsSite := JBool true;
  Station.bands := Site.bands matchedSite;
  Station.distance := Station.distance station;
|}.

(** The callback of [liveStations.forEach] (605-685). *)
Definition match_live (ix : Indices.t) (ukFuelsSites : list Site.t)
    (st : MatchState.t) (station : Station.t) (_ : nat) : Res MatchState.t :=
  matchedSite <- findSite ix ukFuelsSites station;;
  match matchedSite with
  | Some site =>
      Ok (MatchState.mk
            (MatchState.matched st ++ [mergedStation station site])%list
            (MatchState.unmatched st)
            (set_add (MatchState.matchedUKFuelsSiteIds st) (Site.siteNo site)))
  | None =>
      Ok (MatchState.mk
            (MatchState.matched st)
            (MatchState.unmatched st ++ [station])%list
            (MatchState.matchedUKFuelsSiteIds st))
  end.

Variable clock : nat → string.

(** The object literal [unmatchedUKSite] (689-713). *)
Definition unmatchedUKSite (averagePrices : JS) (ukSite : Site.t) (index : nat)
    : Station.t := {|
  Station.id := "uk-fuels-only-" ++ Prim_toString (Site.siteNo ukSite);
  Station.brand := JStr (Site.brand ukSite);
  Station.name := JStr (Site.siteName ukSite);
  Station.address := JStr (Site.street1 ukSite);
  Station.postcode := JStr (Site.postCode ukSite);
  Station.town := JStr (Site.town ukSite);
  Station.latitude := Site.latitude ukSite;
  Station.longitude := Site.longitude ukSite;
  Station.petrol_price := getOpt averagePrices "petrol" ||| JNull;
  Station.diesel_price := getOpt averagePrices "diesel" ||| JNull;
  Station.super_price := JNull;
  Station.last_updated := JStr (clock index);
  Station.is_open := JUndefined;
  Station.facilities := facilities_of (Site.hours24 ukSite) (Site.hgvAccess ukSite);
  Station.ukFuelsSiteNo := JS_of_Prim (Site.siteNo ukSite);
  Station.ukFuelsAltSiteNo := Site.altSiteNo ukSite;
  Station.hasLivePricing := JBool false;
  Station.hours24 := Site.hours24 ukSite;
  Station.hgvAccess := Site.hgvAccess ukSite;
  Station.isUKFuelsSite := JBool true;
  Station.bands := Site.bands ukSite;
  Station.distance := JUndefined;
|}.

(** The callback of the second [ukFuelsSites.forEach] (687-719). *)
Definition add_unmatched (averagePrices : JS) (matchedUKFuelsSiteIds : list Prim)
    (matched : list Station.t) (ukSite : Site.t) (index : nat) : list Station.t :=
  if negb (set_has matchedUKFuelsSiteIds (Site.siteNo ukSite)) then
    let site := unmatchedUKSite averagePrices ukSite index in
    if truthy (Site.petrol ukSite) || truthy (Site.diesel ukSite)
    then (matched ++ [site])%list
    else matched
  else matched.

Definition matchStationsWithUKFuels (liveStations : list Station.t)
    (ukFuelsSites : list Site.t) (averagePrices : JS) : Res MatchResult.t :=
  let ix := build_indices ukFuelsSites in
  st <- forEach_from (match_live ix ukFuelsSites) liveStations 0
          (MatchState.mk [] [] []);;
  let matched :=
    fold_left_i (add_unmatched averagePrices (MatchState.matchedUKFuelsSiteIds st))
      ukFuelsSites 0 (MatchState.matched st) in
  let liveCount :=
    length (List.filter (fun s => is_true (Station.hasLivePricing s)) matched) in
  Ok (MatchResult.mk matched (MatchState.unmatched st) liveCount).

End Matching.

(* ===================================================================== *)
(** * Distance, sort and the filter effect (App.tsx 1037-1099) *)
(* ===================================================================== *)

Module Location.
Record t : Type := mk {
  latitude : float;
  longitude : float;
}.
End Location.

(** The initial (and only) value of the [userLocation] state (133-136). *)
Definition userLocation_initial : Location.t :=
  Location.mk 51.5105%float (-0.5950)%float.

(** [array.sort(compare)] as a stable insertion sort: an element goes
    behind its neighbour exactly when [compare] is positive; a zero or
    [NaN] result leaves the two in their order.  ECMAScript fixes the
    result of [sort] (the stable sorted arrangement) whenever [compare] is
    a consistent comparator. *)
Fixpoint sort_insert {A : Type} (compare : A → A → float) (x : A) (l : list A)
    : list A :=
  match l with
  | [] => [x]
  | y :: rest =>
      if (0 <? compare x y)%float then y :: sort_insert compare x rest
      else x :: y :: rest
  end.

Definition sort {A : Type} (compare : A → A → float) (l : list A) : list A :=
  fold_right (sort_insert compare) [] l.

(** [a.distance - b.distance]; [distance] holds a number on every element
    the comparator is given, [undefined] converts to [NaN]. *)
Definition ToNumber_distance (v : JS) : float :=
  match v with
  | JNum n => n
  | _ => PrimFloat.nan
  end.

Definition by_distance (a b : Station.t) : float :=
  (ToNumber_distance (Station.distance a) - ToNumber_distance (Station.distance b))%float.

(** [array.filter] with a predicate that may throw. *)
Fixpoint filterM {A : Type} (p : A → Res bool) (l : list A) : Res (list A) :=
  match l with
  | [] => Ok []
  | x :: rest =>
      keep <- p x;;
      kept <- filterM p rest;;
      Ok (if keep then x :: kept else kept)
  end.

Section Display.
Context `{Host}.

(** [calculateDistance] (1070-1081): haversine, in km. *)
Definition calculateDistance (lat1 lon1 lat2 lon2 : float) : float :=
  let R := 6371%float in
  let dLat := ((lat2 - lat1) * Math_PI / 180)%float in
  let dLon := ((lon2 - lon1) * Math_PI / 180)%float in
  let a :=
    (Math_sin (dLat / 2) * Math_sin (dLat / 2)
     + Math_cos (lat1 * Math_PI / 180) * Math_cos (lat2 * Math_PI / 180)
       * Math_sin (dLon / 2) * Math_sin (dLon / 2))%float in
  let c := (2 * Math_atan2 (PrimFloat.sqrt a) (PrimFloat.sqrt (1 - a)))%float in
  let d := (R * c)%float in
  d.

Variable userLocation : Location.t.

(** The callback of [stations.map] in [sortStationsByDistance]. *)
Definition with_distance (station : Station.t) : Station.t :=
  Station.set_distance
    (JNum (calculateDistance
             (Location.latitude userLocation) (Location.longitude userLocation)
             (Station.latitude station) (Station.longitude station)))
    station.

(** [sortStationsByDistance] (1089-1099). *)
Definition sortStationsByDistance (stations : list Station.t) : list Station.t :=
  sort by_distance (map with_distance stations).

(** [field?.toLowerCase().includes(query)]: [undefined] (falsy) for a
    missing field, a TypeError for a field that is not a string. *)
Definition field_includes (field : JS) (query : string) : Res bool :=
  match field with
  | JUndefined | JNull => Ok false
  | JStr s => Ok (includes (toLowerCase s) query)
  | _ => Throw TypeError
  end.

(** [a || b] on conditions, with [b] evaluated only when [a] is falsy. *)
Definition orElse (a b : Res bool) : Res bool :=
  x <- a;; if x then Ok true else b.

(** The predicate of the search filter (1045-1052). *)
Definition matches_query (query : string) (station : Station.t) : Res bool :=
  orElse (field_includes (Station.name station) query)
  (orElse (field_includes (Station.brand station) query)
  (orElse (field_includes (Station.address station) query)
  (orElse (field_includes (Station.postcode station) query)
  (orElse (field_includes (Station.town station) query)
    (if truthy (Station.ukFuelsSiteNo station) then
       s <- toString_method (Station.ukFuelsSiteNo station);;
       Ok (includes s query)
     else Ok false))))).

(** The filter/sort effect (1037-1061): the value it passes to
    [setDisplayedStations]. *)
Definition displayedStations (showOnlyMatched : bool)
    (matchedStations allStations : list Station.t) (searchQuery : string)
    : Res (list Station.t) :=
  let stationsToFilter := if showOnlyMatched then matchedStations else allStations in
  if Nat.ltb 0 (length stationsToFilter) then
    filtered <-
      (if negb (String.eqb searchQuery "") then
         let query := toLowerCase searchQuery in
         filterM (matches_query query) stationsToFilter
       else Ok stationsToFilter);;
    let sortedStations := sortStationsByDistance filtered in
    Ok sortedStations
  else Ok [].

End Display.

(* ===================================================================== *)
(** * A reference host *)
(* ===================================================================== *)

(** A host to run the engine on concrete inputs.  [Number_toString] and
    [parseFloat_string] follow ECMAScript ([Number::toString] with the
    shortest digits that read back as the same double; [parseFloat] with
    correct rounding) by exact integer arithmetic.  The [Math] functions
    are short series, good to a few units in the last place on the
    arguments the engine feeds them. *)
Module RefHost.

Local Open Scope Z_scope.

Fixpoint decimal_from (fuel : nat) (n : Z) (acc : string) : string :=
  match fuel with
  | O => acc
  | S fuel' =>
      let acc' := String (ascii_of_nat (48 + Z.to_nat (n mod 10))) acc in
      if n <? 10 then acc' else decimal_from fuel' (n / 10) acc'
  end.

(** The decimal digits of a natural number. *)
Definition decimal (n : Z) : string :=
  decimal_from (S (Z.to_nat (Z.log2 n))) n "".

Fixpoint zeros (n : nat) : string :=
  match n with
  | O => ""
  | S n' => String "0" (zeros n')
  end.

(** Order of [a1 * 2^x1 * 10^y1] and [a2 * 2^x2 * 10^y2]. *)
Definition compare_scaled (a1 x1 y1 a2 x2 y2 : Z) : comparison :=
  let x := Z.min x1 x2 in
  let y := Z.min y1 y2 in
  (a1 * 2 ^ (x1 - x) * 10 ^ (y1 - y)) ?= (a2 * 2 ^ (x2 - x) * 10 ^ (y2 - y)).

Definition le_scaled a1 x1 y1 a2 x2 y2 : bool :=
  match compare_scaled a1 x1 y1 a2 x2 y2 with Gt => false | _ => true end.
Definition lt_scaled a1 x1 y1 a2 x2 y2 : bool :=
  match compare_scaled a1 x1 y1 a2 x2 y2 with Lt => true | _ => false end.

Section Shortest.
(** The positive double [m * 2^e], [m] its 53-bit (or subnormal) mantissa. *)
Variables m e : Z.

(** Does [s * 10^p] round to the double?  The rounding interval ends
    half-way to the neighbours and is closed when [m] is even. *)
Definition rounds_here (s p : Z) : bool :=
  let closed := Z.even m in
  let low_ok :=
    if (m =? 2 ^ 52) && (-1074 <? e)
    then (if closed then le_scaled (4 * m - 1) (e - 2) 0 s 0 p
          else lt_scaled (4 * m - 1) (e - 2) 0 s 0 p)
    else (if closed then le_scaled (2 * m - 1) (e - 1) 0 s 0 p
          else lt_scaled (2 * m - 1) (e - 1) 0 s 0 p) in
  let high_ok :=
    if closed then le_scaled s 0 p (2 * m + 1) (e - 1) 0
    else lt_scaled s 0 p (2 * m + 1) (e - 1) 0 in
  low_ok && high_ok.

(** The least [n] from [n0] on with [m * 2^e < 10^n]. *)
Fixpoint magnitude (fuel : nat) (n : Z) : Z :=
  match fuel with
  | O => n
  | S fuel' => if lt_scaled m e 0 1 0 n then n else magnitude fuel' (n + 1)
  end.

(** [floor (m * 2^e / 10^p)]. *)
Definition floor_scaled (p : Z) : Z :=
  (m * 2 ^ Z.max e 0 * 10 ^ Z.max (- p) 0) / (2 ^ Z.max (- e) 0 * 10 ^ Z.max p 0).

(** The digits [s] and the exponent [n] of [Number::toString]: the least
    number [k] of digits such that some [s * 10^(n-k)] rounds to the
    double, and among those the [s] closest to it. *)
Fixpoint shortest (fuel : nat) (n k : Z) : Z * Z :=
  let p := n - k in
  let lo := floor_scaled p in
  let hi := lo + 1 in
  let lo_ok := rounds_here lo p in
  let hi_ok := rounds_here hi p in
  let lo_closer := le_scaled (2 * m) e 0 (lo + hi) 0 p in
  let pick := if lo_ok && (negb hi_ok || lo_closer) then Some lo
              else if hi_ok then Some hi else None in
  match pick, fuel with
  | Some s, _ => if s =? 10 ^ k then (1, n + 1) else (s, n)
  | None, S fuel' => shortest fuel' n (k + 1)
  | None, O => (lo, n)
  end.

End Shortest.

Definition head_tail (s : string) : string * string :=
  match s with
  | EmptyString => ("", "")
  | String c rest => (String c "", rest)
  end.

Definition exponent_text (n : Z) : string :=
  (if 0 <=? n - 1 then "e+" else "e-") ++ decimal (Z.abs (n - 1)).

(** The layout of [Number::toString] for digits [s] and exponent [n]. *)
Definition layout (s n : Z) : string :=
  let digits := decimal s in
  let k := Z.of_nat (String.length digits) in
  if (k <=? n) && (n <=? 21) then digits ++ zeros (Z.to_nat (n - k))
  else if (0 <? n) && (n <=? 21) then
    substring 0 (Z.to_nat n) digits ++ "."
    ++ substring (Z.to_nat n) (Z.to_nat (k - n)) digits
  else if (-6 <? n) && (n <=? 0) then "0." ++ zeros (Z.to_nat (- n)) ++ digits
  else if k =? 1 then digits ++ exponent_text n
  else fst (head_tail digits) ++ "." ++ snd (head_tail digits) ++ exponent_text n.

Definition Number_toString (x : float) : string :=
  match Prim2SF x with
  | S754_nan => "NaN"
  | S754_zero _ => "0"
  | S754_infinity false => "Infinity"
  | S754_infinity true => "-Infinity"
  | S754_finite sign m e =>
      let m := Zpos m in
      let n0 := magnitude m e 700 (((Z.log2 m + e) * 30103) / 100000 - 1) in
      let sn := shortest m e 17 n0 1 in
      (if sign then "-" else "") ++ layout (fst sn) (snd sn)
  end.

(** A run of decimal digits: its value, its length, what follows. *)
Fixpoint digits (s : string) (value : Z) (count : Z) : Z * Z * string :=
  match s with
  | String c rest =>
      let d := Z.of_nat (nat_of_ascii c) - 48 in
      if (0 <=? d) && (d <=? 9) then digits rest (10 * value + d) (count + 1)
      else (value, count, s)
  | EmptyString => (value, count, s)
  end.

Definition sign_of (s : string) : bool * string :=
  match s with
  | String "-" rest => (true, rest)
  | String "+" rest => (false, rest)
  | _ => (false, s)
  end.

(** [ExponentPart], read only when it has at least one digit. *)
Definition exponent_of (s : string) : Z :=
  match s with
  | String c rest =>
      if Ascii.eqb c "e" || Ascii.eqb c "E" then
        let '(negative, rest') := sign_of rest in
        let '(value, count, _) := digits rest' 0 0 in
        if 0 <? count then (if negative then - value else value) else 0
      else 0
  | EmptyString => 0
  end.

(** The double nearest to [n * 10^e], ties to even. *)
Definition nearest (negative : bool) (n e : Z) : float :=
  match n with
  | Zpos p =>
      let size := Z.log2 n * 30103 / 100000 + e in
      if 310 <? size then (if negative then PrimFloat.neg_infinity else PrimFloat.infinity)
      else if size <? -330 then (if negative then PrimFloat.neg_zero else PrimFloat.zero)
      else
        SF2Prim (SFdiv prec emax
                   (S754_finite negative (Z.to_pos (n * 10 ^ Z.max e 0)) 0)
                   (S754_finite false (Z.to_pos (10 ^ Z.max (- e) 0)) 0))
  | _ => if negative then PrimFloat.neg_zero else PrimFloat.zero
  end.

(** [parseFloat] on a string: leading white space, a sign, then
    [Infinity] or the longest decimal literal; [NaN] when there is none. *)
Definition parseFloat_string (s : string) : float :=
  let '(negative, s) := sign_of (trimStart s) in
  if String.prefix "Infinity" s
  then (if negative then PrimFloat.neg_infinity else PrimFloat.infinity)
  else
    let '(int_value, int_count, s) := digits s 0 0 in
    let '(frac_value, frac_count, s) :=
      match s with
      | String "." rest => digits rest 0 0
      | _ => (0, 0, s)
      end in
    if int_count + frac_count =? 0 then PrimFloat.nan
    else nearest negative (int_value * 10 ^ frac_count + frac_value)
           (exponent_of s - frac_count).

Local Open Scope float_scope.

(** [Math.pow] for the exponents 0, 1 and 2; the program only squares. *)
Definition Math_pow (x y : float) : float :=
  if y =? 2 then x * x
  else if y =? 1 then x
  else if y =? 0 then 1
  else PrimFloat.nan.

(** [sum_{i < terms} term_i], with [term_{i+1} = term_i * ratio i]. *)
Fixpoint series (terms : nat) (i : float) (term : float)
    (ratio : float → float) : float :=
  match terms with
  | O => 0
  | S terms' => term + series terms' (i + 1) (term * ratio i) ratio
  end.

(** Taylor polynomials of degree 41 and 40 around 0. *)
Definition Math_sin (x : float) : float :=
  series 21 0 x (fun i => - (x * x) / ((2 * i + 2) * (2 * i + 3))).

Definition Math_cos (x : float) : float :=
  series 21 0 1 (fun i => - (x * x) / ((2 * i + 1) * (2 * i + 2))).

(** [atan] on [[0, 1]]: two halvings of the angle, then the series. *)
Definition atan_unit (t : float) : float :=
  let half u := u / (1 + PrimFloat.sqrt (1 + u * u)) in
  let u := half (half t) in
  4 * series 12 0 u (fun i => - (u * u) * (2 * i + 1) / (2 * i + 3)).

(** [atan] on the non-negative numbers. *)
Definition atan_pos (t : float) : float :=
  if t <=? 1 then atan_unit t else Math_PI / 2 - atan_unit (1 / t).

Definition Math_atan2 (y x : float) : float :=
  if PrimFloat.is_nan x || PrimFloat.is_nan y then PrimFloat.nan
  else if 0 <? x then (if 0 <=? y then atan_pos (y / x) else - atan_pos (- y / x))
  else if x <? 0 then
    (if 0 <=? y then Math_PI - atan_pos (y / - x) else atan_pos (y / x) - Math_PI)
  else if 0 <? y then Math_PI / 2
  else if y <? 0 then - (Math_PI / 2)
  else 0.

End RefHost.

Definition refHost : Host := {|
  Number_toString := RefHost.Number_toString;
  parseFloat_string := RefHost.parseFloat_string;
  Math_pow := RefHost.Math_pow;
  Math_sin := RefHost.Math_sin;
  Math_cos := RefHost.Math_cos;
  Math_atan2 := RefHost.Math_atan2;
|}.

(* ===================================================================== *)
(** * Directory loader: [loadUKFuelsSites] (App.tsx 529-569) *)
(* ===================================================================== *)

(** What [await fetch(url)] and [await response.json()] deliver: the
    request fails, or there is a response with its [ok] flag and a body
    that parses as JSON or does not. *)
Inductive Fetched : Type :=
| NetworkError
| Response (ok : bool) (body : option JS).

(** [array.map(f)] for a callback that may throw. *)
Fixpoint mapM {A B : Type} (f : A → Res B) (l : list A) : Res (list B) :=
  match l with
  | [] => Ok []
  | x :: rest => y <- f x;; ys <- mapM f rest;; Ok (y :: ys)
  end.

(** [(v).toUpperCase().trim()] for a [v] that is a string or any other
    value but [null] and [undefined]: only a string has the method. *)
Definition upper_trimmed (v : JS) : Res string :=
  match v with
  | JStr s => Ok (trim (toUpperCase s))
  | _ => Throw TypeError
  end.

Section Loader.
Context `{Host}.

(** The callback of [data.data.map] (541-556): the site object. *)
Definition siteObject (site : JS) : Res JS :=
  siteNo <- get site "siteNo";;
  let altSiteNo := prop site "altSiteNo" ||| JNum 0 in
  latitude <- parseFloat (prop site "lat" ||| prop site "latitude");;
  longitude <- parseFloat (prop site "lng" ||| prop site "longitude");;
  siteName <- upper_trimmed (prop site "name" ||| prop site "siteName" ||| JStr "");;
  street1 <- upper_trimmed (prop site "addr" ||| prop site "street1" ||| JStr "");;
  town <- upper_trimmed (prop site "town" ||| JStr "");;
  postCode <- upper_trimmed (prop site "postcode" ||| prop site "postCode" ||| JStr "");;
  brand <- upper_trimmed (prop site "brand" ||| JStr "");;
  Ok (JObj [("siteNo", siteNo);
            ("altSiteNo", altSiteNo);
            ("latitude", JNum latitude ||| JNum 0);
            ("longitude", JNum longitude ||| JNum 0);
            ("siteName", JStr siteName);
            ("street1", JStr street1);
            ("town", JStr town);
            ("postCode", JStr postCode);
            ("brand", JStr brand);
            ("hours24", prop site "h24" ||| prop site "hours24" ||| JBool false);
            ("hgvAccess", prop site "hgv" ||| prop site "hgvAccess" ||| JBool false);
            ("petrol", prop site "petrol" ||| JBool false);
            ("diesel", prop site "diesel" ||| JBool false);
            ("bands", prop site "bands" ||| JStr "")]).

(** [loadUKFuelsSites] (529-569): the list it returns.  A failed request
    and a body that is not JSON reject inside the [try]; like every
    exception there they end in the [catch], which returns [[]].  On an
    array [data.data] the log line of 540 cannot throw, and only an array
    has a callable [map]. *)
Definition loadUKFuelsSites (response : Fetched) : Res (list JS) :=
  match response with
  | NetworkError => Ok []
  | Response _ None => Ok []
  | Response false (Some _) => Ok []
  | Response true (Some data) =>
      try_catch
        (success <- get data "success";;
         if truthy success && truthy (prop data "data") then
           match prop data "data" with
           | JArr items => mapM siteObject items
           | _ => Throw TypeError
           end
         else Ok [])
        (fun error => Ok [])
  end.

End Loader.

(* ===================================================================== *)
(** * Gathering the feeds: the inner [try] of [fetchFuelPrices]
      (App.tsx 935-962) *)
(* ===================================================================== *)

(** The key of an array index: its decimal digits. *)
Definition index_key (i : nat) : string := RefHost.decimal (Z.of_nat i).

Fixpoint entries_from (items : list JS) (i : nat) : list (string * JS) :=
  match items with
  | [] => []
  | x :: rest => (index_key i, x) :: entries_from rest (S i)
  end.

Fixpoint characters (s : string) : list JS :=
  match s with
  | EmptyString => []
  | String c rest => JStr (String c EmptyString) :: characters rest
  end.

(** [Object.entries(v)]: the own properties of an object, the indexed
    elements of an array or of a string, nothing for a number or a boolean,
    and a TypeError for [null] and [undefined]. *)
Definition Object_entries (v : JS) : Res (list (string * JS)) :=
  match v with
  | JUndefined | JNull => Throw TypeError
  | JObj props => Ok props
  | JArr items => Ok (entries_from items 0)
  | JStr s => Ok (entries_from (characters s) 0)
  | JBool _ | JNum _ => Ok []
  end.

(** [dataSource] of 1008. *)
Definition dataSource (successfulFeeds : nat) : string :=
  if Nat.ltb 0 successfulFeeds then "Live retailer data" else "Demo data".

Section Gather.
Context `{Host}.

(** [clock feed i] is the time read while record [i] of the entry at
    position [feed] is parsed. *)
Variable clock : nat → nat → string.

(** The result of [generateDemoStations()] (887-917), which draws from
    [Math.random]. *)
Variable demoStations : list Station.t.

(** The callback of [Object.entries(allData).forEach] (945-956); the state
    is [(allFetchedStations, successfulFeeds)]. *)
Definition gatherFeed (acc : list Station.t * nat) (entry : string * JS) (index : nat)
    : Res (list Station.t * nat) :=
  let retailerName := fst entry in
  let result := snd entry in
  if String.eqb retailerName "_summary" then Ok acc
  else
    success <- get result "success";;
    if truthy success && truthy (prop result "data") then
      stations <- parseStationData (clock index) retailerName (prop result "data");;
      Ok ((fst acc ++ stations)%list, S (snd acc))
    else Ok acc.

(** [forEach] over the entries: the state when the loop ends, and whether
    it ended by an exception (what was pushed before stays pushed). *)
Fixpoint gatherLoop (entries : list (string * JS)) (index : nat)
    (acc : list Station.t * nat) : (list Station.t * nat) * bool :=
  match entries with
  | [] => (acc, false)
  | entry :: rest =>
      match gatherFeed acc entry index with
      | Ok acc' => gatherLoop rest (S index) acc'
      | Throw _ => (acc, true)
      end
  end.

(** The inner [try]/[catch] of [fetchFuelPrices] (935-962):
    [allFetchedStations] and [successfulFeeds] after it.  A failed request,
    a response that is not [ok] and a body that is not JSON end in the
    [catch], like an exception of the loop. *)
Definition gatherStations (response : Fetched) : list Station.t * nat :=
  let outcome :=
    match response with
    | Response true (Some allData) =>
        match Object_entries allData with
        | Ok entries => gatherLoop entries 0 ([], 0)
        | Throw _ => (([], 0), true)
        end
    | _ => (([], 0), true)
    end in
  let allFetchedStations := fst (fst outcome) in
  let successfulFeeds := snd (fst outcome) in
  (if snd outcome then (allFetchedStations ++ demoStations)%list else allFetchedStations,
   successfulFeeds).

End Gather.

(* ===================================================================== *)
(** * The auto-select effect (App.tsx 1120-1128) *)
(* ===================================================================== *)

(** [s.latitude && s.longitude] as a condition. *)
Definition located (s : Station.t) : bool :=
  truthy (JNum (Station.latitude s)) && truthy (JNum (Station.longitude s)).

Section Selection.
Context `{Host}.
Variable userLocation : Location.t.

(** The value of [selectedStation] once the effect has run; [None] is
    [null]. *)
Definition autoSelect (viewMode : string) (displayedStations : list Station.t)
    (selectedStation : option Station.t) : option Station.t :=
  if String.eqb viewMode "map" && Nat.ltb 0 (length displayedStations)
     && negb (match selectedStation with Some _ => true | None => false end)
  then
    let sortedStations :=
      sortStationsByDistance userLocation (List.filter located displayedStations) in
    if Nat.ltb 0 (length sortedStations) then head sortedStations
    else selectedStation
  else selectedStation.

End Selection.

(* ===================================================================== *)
(** * Session: login, guest access and navigation
      (App.tsx 97-112, 224-263, 404-414, 2344-2437) *)
(* ===================================================================== *)

(** The state that decides what the user may see. *)
Module Session.
Record t : Type := mk {
  isLoggedIn : bool;
  userType : string;
  activeScreen : string;
  email : string;
  password : string;
  loginError : string;
  showRestrictedModal : bool;
  restrictedScreen : string;
}.
End Session.

(** The initial values of the [useState] calls. *)
Definition initialSession : Session.t :=
  Session.mk false "guest" "dashboard" "" "" "" false "".

(** [handleLogin] (224-234). *)
Definition handleLogin (s : Session.t) : Session.t :=
  if String.eqb (toLowerCase (Session.email s)) "killian@fuelq.co.uk"
     && String.eqb (Session.password s) "Password"
  then Session.mk true "member" "dashboard" (Session.email s) (Session.password s) ""
         (Session.showRestrictedModal s) (Session.restrictedScreen s)
  else Session.mk (Session.isLoggedIn s) (Session.userType s) (Session.activeScreen s)
         (Session.email s) (Session.password s) "Invalid email or password"
         (Session.showRestrictedModal s) (Session.restrictedScreen s).

(** [handleGuestAccess] (236-241). *)
Definition handleGuestAccess (s : Session.t) : Session.t :=
  Session.mk true "guest" "map" (Session.email s) (Session.password s)
    (Session.loginError s) (Session.showRestrictedModal s) (Session.restrictedScreen s).

(** The [Sign Out] button of the alert raised by [handleLogout] (251-258). *)
Definition signOut (s : Session.t) : Session.t :=
  Session.mk false "guest" "dashboard" "" "" (Session.loginError s)
    (Session.showRestrictedModal s) (Session.restrictedScreen s).

Definition setActiveScreen (screen : string) (s : Session.t) : Session.t :=
  Session.mk (Session.isLoggedIn s) (Session.userType s) screen (Session.email s)
    (Session.password s) (Session.loginError s) (Session.showRestrictedModal s)
    (Session.restrictedScreen s).

(** [setRestrictedScreen(screen); setShowRestrictedModal(true)] (409-410,
    2361-2362). *)
Definition showRestricted (screen : string) (s : Session.t) : Session.t :=
  Session.mk (Session.isLoggedIn s) (Session.userType s) (Session.activeScreen s)
    (Session.email s) (Session.password s) (Session.loginError s) true screen.

Definition setShowRestrictedModal (shown : bool) (s : Session.t) : Session.t :=
  Session.mk (Session.isLoggedIn s) (Session.userType s) (Session.activeScreen s)
    (Session.email s) (Session.password s) (Session.loginError s) shown
    (Session.restrictedScreen s).

Definition setEmail (text : string) (s : Session.t) : Session.t :=
  Session.mk (Session.isLoggedIn s) (Session.userType s) (Session.activeScreen s)
    text (Session.password s) (Session.loginError s) (Session.showRestrictedModal s)
    (Session.restrictedScreen s).

Definition setPassword (text : string) (s : Session.t) : Session.t :=
  Session.mk (Session.isLoggedIn s) (Session.userType s) (Session.activeScreen s)
    (Session.email s) text (Session.loginError s) (Session.showRestrictedModal s)
    (Session.restrictedScreen s).

(** The [onPress] of an item of [BottomNavigation] (2353-2366). *)
Definition pressNavItem (id : string) (s : Session.t) : Session.t :=
  let isRestricted :=
    String.eqb (Session.userType s) "guest" && negb (String.eqb id "map") in
  if isRestricted then showRestricted id s else setActiveScreen id s.

(** The ids of the items of [BottomNavigation] (2346-2351). *)
Definition navItems : list string := ["dashboard"; "map"; "news"; "offers"; "account"].

(** What [App] renders (2400-2437): the login screen, a members' screen
    under the restricted overlay, or a screen in full. *)
Inductive View : Type :=
| LoginView
| Restricted (screen : option string)
| Full (screen : string).

(** [renderScreen] (2400-2422). *)
Definition renderScreen (s : Session.t) : View :=
  if String.eqb (Session.userType s) "guest"
     && negb (String.eqb (Session.activeScreen s) "map")
  then
    Restricted
      (if includes_str ["dashboard"; "news"; "offers"; "account"] (Session.activeScreen s)
       then Some (Session.activeScreen s) else None)
  else
    Full (if includes_str ["dashboard"; "map"; "news"; "offers"; "account"]
               (Session.activeScreen s)
          then Session.activeScreen s else "dashboard").

Definition render (s : Session.t) : View :=
  if negb (Session.isLoggedIn s) then LoginView else renderScreen s.

(** The presses and inputs that change the session: the two fields and
    the two buttons of the login screen (315-382), the confirmed sign-out,
    an item of the navigation bar, the profile and the see-all buttons of the
    dashboard (1306, 1406, 1421), the restricted overlay, the buttons that
    close the modal. *)
Inductive Event : Type :=
| TypeEmail (text : string)
| TypePassword (text : string)
| PressLogin
| PressGuest
| PressSignOut
| PressNavItem (id : string)
| PressProfile
| PressSeeAll
| PressOverlay
| CloseModal.

Definition step (s : Session.t) (e : Event) : Session.t :=
  match e with
  | TypeEmail text => setEmail text s
  | TypePassword text => setPassword text s
  | PressLogin => handleLogin s
  | PressGuest => handleGuestAccess s
  | PressSignOut => signOut s
  | PressNavItem id => pressNavItem id s
  | PressProfile => setActiveScreen "account" s
  | PressSeeAll => setActiveScreen "map" s
  | PressOverlay => showRestricted (Session.activeScreen s) s
  | CloseModal => setShowRestrictedModal false s
  end.

(** The screen whose components are mounted, with or without the overlay. *)
Definition mounted (v : View) : option string :=
  match v with
  | LoginView => None
  | Restricted screen => screen
  | Full screen => Some screen
  end.

(** An event can happen only on a component that is rendered: the login
    form on the login screen; the navigation bar and the modal once logged
    in; the buttons of a screen while that screen is mounted; the overlay
    in the restricted view. *)
Definition enabled (s : Session.t) (e : Event) : bool :=
  match e with
  | TypeEmail _ | TypePassword _ | PressLogin | PressGuest =>
      match render s with LoginView => true | _ => false end
  | PressNavItem id =>
      match render s with LoginView => false | _ => includes_str navItems id end
  | CloseModal =>
      match render s with LoginView => false | _ => Session.showRestrictedModal s end
  | PressOverlay =>
      match render s with Restricted _ => true | _ => false end
  | PressProfile | PressSeeAll =>
      match mounted (render s) with
      | Some screen => String.eqb screen "dashboard"
      | None => false
      end
  | PressSignOut =>
      match mounted (render s) with
      | Some screen => String.eqb screen "account"
      | None => false
      end
  end.

(** The session after a sequence of events, each enabled when it happens. *)
Fixpoint run (events : list Event) (s : Session.t) : option Session.t :=
  match events with
  | [] => Some s
  | e :: rest => if enabled s e then run rest (step s e) else None
  end.


(* ===================================================================== *)
(** * Numbers in fixed notation: [toFixed] and [kmToMiles]
      (App.tsx 1084-1086) *)
(* ===================================================================== *)

(** The first [n] characters of a string, and the others. *)
Fixpoint take_chars (n : nat) (s : string) : string :=
  match n, s with
  | S n', String c rest => String c (take_chars n' rest)
  | _, _ => EmptyString
  end.

Fixpoint drop_chars (n : nat) (s : string) : string :=
  match n, s with
  | S n', String _ rest => drop_chars n' rest
  | _, _ => s
  end.

(** Steps 11.b and 11.c of [Number.prototype.toFixed]: the digits of [n]
    with the point before the last [f] of them, padded with zeros so that
    one digit stands before the point. *)
Definition fixed_digits (n : Z) (f : nat) : string :=
  let m := RefHost.decimal n in
  if Nat.eqb f 0 then m
  else
    let k := String.length m in
    let m := if Nat.leb k f then RefHost.zeros (f + 1 - k) ++ m else m in
    let k := if Nat.leb k f then f + 1 else k in
    take_chars (k - f) m ++ "." ++ drop_chars (k - f) m.

(** Step 11.a for the positive number [m * 2^e]: the integer [n] for
    which [n / 10^f] is nearest to it, the larger one of two. *)
Definition nearest_scaled (m e : Z) (f : nat) : Z :=
  let numerator := (m * 2 ^ Z.max e 0 * 10 ^ Z.of_nat f)%Z in
  let denominator := (2 ^ Z.max (- e) 0)%Z in
  ((2 * numerator + denominator) / (2 * denominator))%Z.

(** [m * 2^e < 10^21]. *)
Definition below_1e21 (m e : Z) : bool :=
  (m * 2 ^ Z.max e 0 <? 10 ^ 21 * 2 ^ Z.max (- e) 0)%Z.

Section Fixed.
Context `{Host}.

(** [x.toFixed(f)] for [0 <= f <= 100] (the program passes 1, 3 and 4):
    ECMAScript fixes the result by exact arithmetic on the value of [x],
    and falls back on [Number::toString] for [NaN], the infinities and
    magnitudes from [10^21] on. *)
Definition toFixed (x : float) (f : nat) : string :=
  match Prim2SF x with
  | S754_zero _ => fixed_digits 0 f
  | S754_finite sign m e =>
      (if sign then "-" else "")
      ++ (if below_1e21 (Zpos m) e then fixed_digits (nearest_scaled (Zpos m) e f) f
          else Number_toString (PrimFloat.abs x))
  | _ => Number_toString x
  end.

(** [kmToMiles] (App.tsx 1084-1086). *)
Definition kmToMiles (km : float) : string :=
  toFixed (km * 0.621371)%float 1.

End Fixed.

(* ===================================================================== *)
(** * The stations of the dashboard and of the map
      (App.tsx 1411-1421, 1553-1555) *)
(* ===================================================================== *)

Section Lists.
Context `{Host}.

(** The station a card of the dashboard is given (1414-1419).  The two
    flags the literal adds, [diesel] and [petrol], are [true] on every
    station: no station object carries them. *)
Definition card_station (station : Station.t) : Station.t :=
  Station.set_distance
    (if truthy (Station.distance station)
     then JStr (kmToMiles (ToNumber_distance (Station.distance station)) ++ " miles")
     else JUndefined)
    station.

(** The stations of the dashboard's cards,
    [displayedStations.slice(0, 3).map(...)] (1411-1421). *)
Definition dashboardStations (displayedStations : list Station.t) : list Station.t :=
  map card_station (firstn 3 displayedStations).

End Lists.

(** [nearbyStations] of [renderMapView] (1553-1555): the stations the map
    marks. *)
Definition nearbyStations (displayedStations : list Station.t) : list Station.t :=
  firstn 50 (List.filter located displayedStations).

(* ===================================================================== *)
(** * Notions used to state the properties *)
(* ===================================================================== *)

(** Membership in a list of strings, as a boolean. *)
Definition in_list (s : string) (l : list string) : bool :=
  if in_dec string_dec s l then true else false.

(** A payload with no record list: neither it nor any of its properties
    is a non-empty array. *)
Definition no_record_list (data : JS) : Prop :=
  nonEmptyArray data = false ∧ ∀ key, nonEmptyArray (prop data key) = false.

(** A price slot that holds [null] or a zero. *)
Definition zero_or_null (v : JS) : Prop :=
  v = JNull ∨ ∃ z, v = JNum z ∧ PrimFloat.eqb z 0 = true.

(** The directory sites filed under a postcode key. *)
Definition shares_postcode (k : string) (site : Site.t) : bool :=
  String.eqb (normalize_text (Site.postCode site)) k.

(** A value that is not an object or an array; [normalizeString] returns
    on every such value. *)
Definition text_like (v : JS) : bool :=
  match v with
  | JArr _ | JObj _ => false
  | _ => true
  end.

(** The pump price in pence that the claim speaks of, for a price slot
    that holds a number, a text, a boolean or nothing: the number, or the
    number the text reads as, times 100; nothing for [null], [undefined],
    [false], the empty text, [NaN] and 0. *)
Definition pence_of `{Host} (price : JS) : option float :=
  match price with
  | JNum n =>
      if PrimFloat.is_nan n || PrimFloat.eqb n 0 then None else Some (n * 100)%float
  | JStr s =>
      if String.eqb s "" then None else Some (parseFloat_string s * 100)%float
  | JBool true => Some (parseFloat_string "true" * 100)%float
  | _ => None
  end.

(** The member petrol price of the claim: the pence less the discount,
    and nothing when the pence are missing, [NaN] or 0. *)
Definition less_discount (discount : float) (pence : option float) : option float :=
  match pence with
  | Some p =>
      if PrimFloat.is_nan p || PrimFloat.eqb p 0 then None else Some (p - discount)%float
  | None => None
  end.

(** A live station whose four matching keys are text-like. *)
Definition canonical (station : Station.t) : bool :=
  text_like (Station.postcode station) && text_like (Station.name station)
  && text_like (Station.brand station) && text_like (Station.town station).

Section Outcome.
Context `{Host}.

(** The pairs (live station, site found for it), in the order of the
    live list, and the live stations for which no site is found. *)
Fixpoint live_matches (ix : Indices.t) (ukFuelsSites : list Site.t)
    (liveStations : list Station.t) : list (Station.t * Site.t) :=
  match liveStations with
  | [] => []
  | station :: rest =>
      match findSite ix ukFuelsSites station with
      | Ok (Some site) => (station, site) :: live_matches ix ukFuelsSites rest
      | _ => live_matches ix ukFuelsSites rest
      end
  end.

Fixpoint live_misses (ix : Indices.t) (ukFuelsSites : list Site.t)
    (liveStations : list Station.t) : list Station.t :=
  match liveStations with
  | [] => []
  | station :: rest =>
      match findSite ix ukFuelsSites station with
      | Ok None => station :: live_misses ix ukFuelsSites rest
      | _ => live_misses ix ukFuelsSites rest
      end
  end.

Definition merged_of (pair : Station.t * Site.t) : Station.t :=
  mergedStation (fst pair) (snd pair).

Variable clock : nat → string.

(** In the words of the specification: every directory site whose number
    is not in the claimed set is synthesised, and the record is included
    only if the site sells petrol or diesel.  The site at position [i] of
    the directory reads the clock at [i]. *)
Fixpoint synthesized (averagePrices : JS) (claimed : list Prim)
    (ukFuelsSites : list Site.t) (i : nat) : list Station.t :=
  match ukFuelsSites with
  | [] => []
  | ukSite :: rest =>
      ((if negb (set_has claimed (Site.siteNo ukSite))
           && (truthy (Site.petrol ukSite) || truthy (Site.diesel ukSite))
        then [unmatchedUKSite clock averagePrices ukSite i]
        else [])
       ++ synthesized averagePrices claimed rest (S i))%list
  end.

Variable userLocation : Location.t.

(** The distance the sort annotates a station with. *)
Definition distance_from (station : Station.t) : float :=
  calculateDistance
    (Location.latitude userLocation) (Location.longitude userLocation)
    (Station.latitude station) (Station.longitude station).

(** The spherical distance of the specification: the haversine formula
    on a sphere of radius 6371 km, for angles in degrees. *)
Definition radians (degrees : float) : float := (degrees * Math_PI / 180)%float.

Definition haversine_km (lat1 lon1 lat2 lon2 : float) : float :=
  let halfLat := Math_sin (radians (lat2 - lat1) / 2) in
  let halfLon := Math_sin (radians (lon2 - lon1) / 2) in
  let a :=
    (halfLat * halfLat
     + Math_cos (radians lat1) * Math_cos (radians lat2) * halfLon * halfLon)%float in
  (6371 * (2 * Math_atan2 (PrimFloat.sqrt a) (PrimFloat.sqrt (1 - a))))%float.

(** The haversine distance of a station from the reference location. *)
Definition haversine_from (station : Station.t) : float :=
  haversine_km
    (Location.latitude userLocation) (Location.longitude userLocation)
    (Station.latitude station) (Station.longitude station).

End Outcome.

(** Equal but for the time stamp, and equal outright when the record
    carries live prices. *)
Definition same_but_timestamp (a b : Station.t) : Prop :=
  b = Station.set_last_updated (Station.last_updated b) a
  ∧ (Station.hasLivePricing a = JBool true → a = b).

(** Ascending order of the [distance] fields. *)
Definition distance_le (a b : Station.t) : Prop :=
  ∃ da db, Station.distance a = JNum da ∧ Station.distance b = JNum db
           ∧ PrimFloat.leb da db = true.

Definition has_distance (a : Station.t) : Prop :=
  ∃ d, Station.distance a = JNum d ∧ PrimFloat.is_nan d = false.

(** Helpers for the order of doubles. *)
Definition le_cmp (c : option comparison) : bool :=
  match c with Some (Lt | Eq) => true | _ => false end.

Definition signed (s : bool) (x : spec_float) : Prop :=
  match x with
  | S754_finite s' _ _ | S754_infinity s' => s' = s
  | _ => False
  end.

Definition aligned (s : bool) (m : positive) (e ez : Z) : Z :=
  cond_Zopp s (Zpos (fst (shl_align m e ez))).

(** ** Texts *)

Fixpoint all_chars (p : ascii → bool) (s : string) : bool :=
  match s with
  | EmptyString => true
  | String c rest => p c && all_chars p rest
  end.

(** ASCII text, on which the case mappings of the embedding are those of
    JavaScript. *)
Definition is_7bit (c : ascii) : bool := Nat.ltb (nat_of_ascii c) 128.

(** A value that is not a text with a character outside ASCII. *)
Definition ascii_text (v : JS) : bool :=
  match v with
  | JStr s => all_chars is_7bit s
  | _ => true
  end.

(** A character that is neither a letter nor a digit. *)
Definition is_separator (c : ascii) : bool := negb (is_AZ09 (upper_char c)).

(** A character that is the upper-case form of itself. *)
Definition is_upper (c : ascii) : bool := Ascii.eqb (upper_char c) c.

(** A text as [loadUKFuelsSites] stores it: upper case, nothing to trim. *)
Definition upper_and_trimmed (s : string) : Prop :=
  toUpperCase s = s ∧ trim s = s.

(** ** The directory *)

(** A flag as [loadUKFuelsSites] stores it: a truthy value or [false]. *)
Definition flag (v : JS) : Prop := truthy v = true ∨ v = JBool false.

(** An entry of the sites payload whose texts are ASCII. *)
Definition ascii_site (site : JS) : bool :=
  forallb (fun key => ascii_text (prop site key))
    ["name"; "siteName"; "addr"; "street1"; "town"; "postcode"; "postCode"; "brand"].

(** The site number as the claimed set holds it. *)
Definition Prim_of_JS (v : JS) : option Prim :=
  match v with
  | JUndefined => Some PUndefined
  | JNull => Some PNull
  | JBool b => Some (PBool b)
  | JNum n => Some (PNum n)
  | JStr s => Some (PStr s)
  | JArr _ | JObj _ => None
  end.

(** The record the matching engine reads off a site object. *)
Definition Site_of_object (site : JS) : option Site.t :=
  match Prim_of_JS (prop site "siteNo"), prop site "latitude", prop site "longitude",
        prop site "siteName", prop site "street1", prop site "town",
        prop site "postCode", prop site "brand" with
  | Some siteNo, JNum latitude, JNum longitude, JStr siteName, JStr street1,
    JStr town, JStr postCode, JStr brand =>
      Some {|
        Site.siteNo := siteNo;
        Site.altSiteNo := prop site "altSiteNo";
        Site.latitude := latitude;
        Site.longitude := longitude;
        Site.siteName := siteName;
        Site.street1 := street1;
        Site.town := town;
        Site.postCode := postCode;
        Site.brand := brand;
        Site.hours24 := prop site "hours24";
        Site.hgvAccess := prop site "hgvAccess";
        Site.petrol := prop site "petrol";
        Site.diesel := prop site "diesel";
        Site.bands := prop site "bands";
      |}
  | _, _, _, _, _, _, _, _ => None
  end.

(** The directory sites filed under a brand+town key. *)
Definition shares_brand_town (brand town : string) (site : Site.t) : bool :=
  String.eqb (normalize_text (Site.brand site)) brand
  && String.eqb (normalize_text (Site.town site)) town.

Section Scans.
Context `{Host}.

(** [brandsMatch] of 633-634. *)
Definition brandsMatch (stationBrand : string) (ukSite : Site.t) : bool :=
  includes (normalize_text (Site.brand ukSite)) stationBrand
  || includes stationBrand (normalize_text (Site.brand ukSite)).

(** A site the proximity scan may take: closer than 0.01 degrees, and
    closer than 0.001 degrees or of a matching brand. *)
Definition eligible (station : Station.t) (stationBrand : string) (ukSite : Site.t)
    : bool :=
  (planar_distance station ukSite <? 0.01)%float
  && ((planar_distance station ukSite <? 0.001)%float
      || brandsMatch stationBrand ukSite).

(** The three strategies as scans of the directory, without the indices:
    the sites of the station's postcode, then the proximity scan, then the
    first site of the station's brand and town. *)
Definition scanDirectory (ukFuelsSites : list Site.t) (station : Station.t)
    (stationPostcode stationBrand stationTown : string) : option Site.t :=
  let byPostcode :=
    if nonempty stationPostcode then
      match List.filter (shares_postcode stationPostcode) ukFuelsSites with
      | [] => None
      | candidates => postcode_candidate candidates stationBrand
      end
    else None in
  let byProximity :=
    if truthy (JNum (Station.latitude station))
       && truthy (JNum (Station.longitude station))
    then proximity_match ukFuelsSites station stationBrand
    else None in
  let byBrandTown :=
    if nonempty stationBrand && nonempty stationTown
    then head (List.filter (shares_brand_town stationBrand stationTown) ukFuelsSites)
    else None in
  match byPostcode, byProximity with
  | Some site, _ => Some site
  | None, Some site => Some site
  | None, None => byBrandTown
  end.

(** What the proximity scan holds after the sites [seen]: nothing and the
    initial radius, or an eligible site and its distance, which no
    eligible site seen so far undercuts. *)
Definition scan_ok (station : Station.t) (stationBrand : string)
    (seen : list Site.t) (acc : option Site.t * float) : Prop :=
  PrimFloat.leb (snd acc) 0.01 = true
  ∧ match fst acc with
    | Some best => In best seen ∧ snd acc = planar_distance station best
                   ∧ eligible station stationBrand best = true
    | None => snd acc = 0.01%float
    end
  ∧ ∀ s, In s seen → eligible station stationBrand s = true →
         PrimFloat.leb (snd acc) (planar_distance station s) = true.

End Scans.

(** ** Feed records *)

(** A price slot that holds a number or [null]. *)
Definition number_or_null (v : JS) : bool :=
  match v with
  | JNum _ | JNull => true
  | _ => false
  end.

(** [typeof v === 'number' ? v / 100 : null]. *)
Definition pence_to_pounds (v : JS) : JS :=
  match v with
  | JNum n => JNum (n / 100)%float
  | _ => JNull
  end.

(** A record of the shape the retailer feeds use: an id, texts, a
    [location] object and a [prices] object keyed by fuel grade. *)
Definition feed_record (site_id brand address postcode : string)
    (latitude longitude : float) (prices : list (string * JS)) : JS :=
  JObj [("site_id", JStr site_id); ("brand", JStr brand); ("address", JStr address);
        ("postcode", JStr postcode);
        ("location", JObj [("latitude", JNum latitude); ("longitude", JNum longitude)]);
        ("prices", JObj prices)].

(** A feed entry that is read: any name but [_summary], with a truthy
    [success] and a truthy [data]. *)
Definition feed_is_read (entry : string * JS) : bool :=
  negb (String.eqb (fst entry) "_summary")
  && truthy (prop (snd entry) "success") && truthy (prop (snd entry) "data").

(** An entry on which the callback of the gathering loop does not throw. *)
Definition feed_is_safe (entry : string * JS) : bool :=
  String.eqb (fst entry) "_summary" || negb (nullish (snd entry)).

Section FeedStations.
Context `{Host}.
Variable clock : nat → nat → string.

(** The stations of the entries from position [index] on, feed by feed. *)
Fixpoint feed_stations (entries : list (string * JS)) (index : nat) : list Station.t :=
  match entries with
  | [] => []
  | entry :: rest =>
      ((if feed_is_read entry
        then match parseStationData (clock index) (fst entry) (prop (snd entry) "data") with
             | Ok stations => stations
             | Throw _ => []
             end
        else [])
       ++ feed_stations rest (S index))%list
  end.

End FeedStations.

(** ** Search *)

(** A station whose five searched text fields are strings. *)
Definition text_fields (s : Station.t) : bool :=
  typeof_string (Station.name s) && typeof_string (Station.brand s)
  && typeof_string (Station.address s) && typeof_string (Station.postcode s)
  && typeof_string (Station.town s).

(** The text of a field that is a string. *)
Definition text_of (v : JS) : string :=
  match v with JStr s => s | _ => "" end.

(** A station whose five searched text fields are ASCII. *)
Definition ascii_fields (s : Station.t) : bool :=
  forallb ascii_text
    [Station.name s; Station.brand s; Station.address s; Station.postcode s;
     Station.town s].

(** A station that a query can be tried on: the five text fields are
    strings and the site number is a primitive. *)
Definition searchable (s : Station.t) : bool :=
  text_fields s && text_like (Station.ukFuelsSiteNo s).

Section Mentions.
Context `{Host}.

(** The station has the (lower-case) query in one of its five text
    fields, case ignored, or in the text of its site number. *)
Definition mentions (query : string) (s : Station.t) : bool :=
  existsb (fun field => includes (toLowerCase (text_of field)) query)
    [Station.name s; Station.brand s; Station.address s; Station.postcode s;
     Station.town s]
  || (truthy (Station.ukFuelsSiteNo s)
      && match ToString (Station.ukFuelsSiteNo s) with
         | Ok text => includes text query
         | Throw _ => false
         end).

End Mentions.

(** ** Sessions *)

(** What every reachable session satisfies: the user is a guest or a
    member, a member is logged in, a logged-in guest is on the map, and
    the active screen is one of the navigation bar. *)
Definition session_ok (s : Session.t) : Prop :=
  (Session.userType s = "guest" ∨ Session.userType s = "member")
  ∧ (Session.userType s = "member" → Session.isLoggedIn s = true)
  ∧ (Session.isLoggedIn s = true → Session.userType s = "guest" →
     Session.activeScreen s = "map")
  ∧ In (Session.activeScreen s) navItems.

(** An event that types no character outside ASCII into the email field. *)
Definition ascii_event (e : Event) : bool :=
  match e with
  | TypeEmail email => all_chars is_7bit email
  | _ => true
  end.

(** The credentials [handleLogin] accepts. *)
Definition credentials_ok (s : Session.t) : Prop :=
  toLowerCase (Session.email s) = "killian@fuelq.co.uk"
  ∧ Session.password s = "Password".

(** ** Fixed notation *)

Definition is_digit (c : ascii) : bool :=
  Nat.leb 48 (nat_of_ascii c) && Nat.leb (nat_of_ascii c) 57.

(** A double that [toFixed] writes in fixed notation: finite, of a
    magnitude below [10^21]. *)
Definition fixed_range (x : float) : bool :=
  match Prim2SF x with
  | S754_zero _ => true
  | S754_finite _ m e => (Zpos m * 2 ^ Z.max e 0 <? 10 ^ 21 * 2 ^ Z.max (- e) 0)%Z
  | _ => false
  end.

(** The number that a text of decimal digits denotes. *)
Fixpoint digits_value_from (value : Z) (s : string) : Z :=
  match s with
  | EmptyString => value
  | String c rest =>
      digits_value_from (10 * value + Z.of_nat (nat_of_ascii c - 48)) rest
  end.

Definition digits_value (s : string) : Z := digits_value_from 0 s.

(** [n / 10^f] is the multiple of [10^-f] nearest to the positive double
    [m * 2^e], the larger one of two. *)
Definition nearest_multiple (m : positive) (e : Z) (f : nat) (n : Z) : Prop :=
  let numerator := (Zpos m * 2 ^ Z.max e 0 * 10 ^ Z.of_nat f)%Z in
  let denominator := (2 ^ Z.max (- e) 0)%Z in
  (2 * numerator - denominator < 2 * n * denominator <= 2 * numerator + denominator)%Z.

(** The text of [x] in fixed notation with [f] digits after the point:
    a minus sign for a negative [x], digits, the point and [f] digits,
    which denote the nearest multiple of [10^-f]. *)
Definition fixed_notation (x : float) (f : nat) (s : string) : Prop :=
  ∃ whole fraction,
    whole ≠ "" ∧ all_chars is_digit whole = true
    ∧ String.length fraction = f ∧ all_chars is_digit fraction = true
    ∧ match Prim2SF x with
      | S754_finite negative m e =>
          s = (if negative then "-" else "") ++ whole ++ "." ++ fraction
          ∧ nearest_multiple m e f (digits_value (whole ++ fraction))
      | _ => s = whole ++ "." ++ fraction ∧ digits_value (whole ++ fraction) = 0%Z
      end.

(** A card of the dashboard for a station of the list: the station with
    its distance as a text, the miles with one digit after the point, or
    without a distance when that is zero. *)
Definition card_of (station card : Station.t) : Prop :=
  card = Station.set_distance (Station.distance card) station
  ∧ ∃ km,
      Station.distance station = JNum km
      ∧ (truthy (JNum km) = false → Station.distance card = JUndefined)
      ∧ (truthy (JNum km) = true → fixed_range (km * 0.621371) = true →
         ∃ miles, fixed_notation (km * 0.621371) 1 miles
                  ∧ Station.distance card = JStr (miles ++ " miles")).

(* ===================================================================== *)
(** * The refresh: [fetchFuelPrices] (App.tsx 919-1028) *)
(* ===================================================================== *)

(** The states [fetchFuelPrices] sets (119-131); of the [fuelPrices]
    object the two averages, its only properties that are read. *)
Module App.
Record t : Type := mk {
  ukFuelsSites : list JS;
  allStations : list Station.t;
  matchedStations : list Station.t;
  displayedStations : list Station.t;
  liveStationsCount : nat;
  petrolAverage : string;
  dieselAverage : string;
  error : option Exn;
}.

Definition setUkFuelsSites (v : list JS) (s : t) : t :=
  mk v (allStations s) (matchedStations s) (displayedStations s) (liveStationsCount s)
     (petrolAverage s) (dieselAverage s) (error s).
Definition setAllStations (v : list Station.t) (s : t) : t :=
  mk (ukFuelsSites s) v (matchedStations s) (displayedStations s) (liveStationsCount s)
     (petrolAverage s) (dieselAverage s) (error s).
Definition setMatchedStations (v : list Station.t) (s : t) : t :=
  mk (ukFuelsSites s) (allStations s) v (displayedStations s) (liveStationsCount s)
     (petrolAverage s) (dieselAverage s) (error s).
Definition setDisplayedStations (v : list Station.t) (s : t) : t :=
  mk (ukFuelsSites s) (allStations s) (matchedStations s) v (liveStationsCount s)
     (petrolAverage s) (dieselAverage s) (error s).
Definition setLiveStationsCount (v : nat) (s : t) : t :=
  mk (ukFuelsSites s) (allStations s) (matchedStations s) (displayedStations s) v
     (petrolAverage s) (dieselAverage s) (error s).
Definition setFuelPrices (petrol diesel : string) (s : t) : t :=
  mk (ukFuelsSites s) (allStations s) (matchedStations s) (displayedStations s)
     (liveStationsCount s) petrol diesel (error s).
Definition setError (v : option Exn) (s : t) : t :=
  mk (ukFuelsSites s) (allStations s) (matchedStations s) (displayedStations s)
     (liveStationsCount s) (petrolAverage s) (dieselAverage s) v.
End App.

(** The initial states (119-131). *)
Definition initialApp : App.t :=
  App.mk [] [] [] [] 0 "1.452" "1.534" None.

(** The state [showOnlyMatched] (130), which nothing sets. *)
Definition showOnlyMatched : bool := true.

(** The site objects as the matching engine reads them; nothing when one
    of them is not a site object. *)
Fixpoint directory (ukSites : list JS) : option (list Site.t) :=
  match ukSites with
  | [] => Some []
  | site :: rest =>
      match Site_of_object site, directory rest with
      | Some s, Some l => Some (s :: l)
      | _, _ => None
      end
  end.

Section Refresh.
Context `{Host}.

(** [stations.filter(s => s.price).map(s => parseFloat(s.price))]. *)
Definition truthy_prices (price : Station.t → JS) (stations : list Station.t)
    : Res (list float) :=
  mapM (fun s => parseFloat (price s)) (List.filter (fun s => truthy (price s)) stations).

(** [prices.length > 0
      ? (prices.reduce((a, b) => a + b, 0) / prices.length).toFixed(3)
      : fallback]. *)
Definition average (prices : list float) (fallback : string) : string :=
  if Nat.ltb 0 (length prices)
  then toFixed (fold_left PrimFloat.add prices 0 / float_of_nat (length prices))%float 3
  else fallback.

(** The averages of a station list, petrol and diesel (964-977, 987-1006). *)
Definition averages (stations : list Station.t) : Res (string * string) :=
  petrolPrices <- truthy_prices Station.petrol_price stations;;
  dieselPrices <- truthy_prices Station.diesel_price stations;;
  Ok (average petrolPrices "1.452", average dieselPrices "1.534").

(** The time the engine reads at each directory site, the times the
    normaliser reads, and the two results of [generateDemoStations()]
    (887-917), which draws from [Math.random]: that of the inner [catch]
    and that of the outer one. *)
Variable siteClock : nat → string.
Variable feedClock : nat → nat → string.
Variable demoStations fallbackStations : list Station.t.

(** The outer [catch] (1020-1027). *)
Definition failed (err : Exn) (app : App.t) : App.t :=
  App.setDisplayedStations fallbackStations
    (App.setAllStations fallbackStations (App.setError (Some err) app)).

(** [fetchFuelPrices] (919-1028): the states when it ends, given what the
    two requests deliver.  The directory is requested only while the state
    holds none.  The result is [None] when a site object is not one the
    record [Site.t] stands for (its number is an object or an array). *)
Definition fetchFuelPrices (app : App.t) (sitesResponse feedsResponse : Fetched)
    : option App.t :=
  let app := App.setError None app in
  match (if Nat.eqb (length (App.ukFuelsSites app)) 0
         then loadUKFuelsSites sitesResponse
         else Ok (App.ukFuelsSites app)) with
  | Throw err => Some (failed err app)
  | Ok ukSites =>
      let app := App.setUkFuelsSites ukSites app in
      match directory ukSites with
      | None => None
      | Some sites =>
          let gathered := gatherStations feedClock demoStations feedsResponse in
          let allFetchedStations := fst gathered in
          match (averagePrices <- averages allFetchedStations;;
                 matchStationsWithUKFuels siteClock allFetchedStations sites
                   (JObj [("petrol", JStr (fst averagePrices));
                          ("diesel", JStr (snd averagePrices))])) with
          | Throw err => Some (failed err app)
          | Ok result =>
              let matched := MatchResult.matched result in
              let app := App.setMatchedStations matched app in
              let app := App.setLiveStationsCount (MatchResult.liveCount result) app in
              let stationsForAverage :=
                if showOnlyMatched then matched else allFetchedStations in
              match averages stationsForAverage with
              | Throw err => Some (failed err app)
              | Ok shownAverages =>
                  let app :=
                    App.setFuelPrices (fst shownAverages) (snd shownAverages) app in
                  let app := App.setAllStations allFetchedStations app in
                  Some (App.setDisplayedStations
                          (if showOnlyMatched then matched else allFetchedStations) app)
              end
          end
      end
  end.

End Refresh.

(** What one refresh is given. *)
Module Refresh.
Record t : Type := mk {
  siteClock : nat → string;
  feedClock : nat → nat → string;
  demoStations : list Station.t;
  fallbackStations : list Station.t;
  sitesResponse : Fetched;
  feedsResponse : Fetched;
}.
End Refresh.

(** The states after a series of refreshes, each begun when the one
    before has ended. *)
Fixpoint refreshes `{Host} (inputs : list Refresh.t) (app : App.t) : option App.t :=
  match inputs with
  | [] => Some app
  | r :: rest =>
      match fetchFuelPrices (Refresh.siteClock r) (Refresh.feedClock r)
              (Refresh.demoStations r) (Refresh.fallbackStations r) app
              (Refresh.sitesResponse r) (Refresh.feedsResponse r) with
      | Some app' => refreshes rest app'
      | None => None
      end
  end.

(** ** Refreshes *)

(** A record that carries the number of a site object of the directory
    and is marked as a UK Fuels site. *)
Definition names_site_of (ukFuelsSites : list JS) (record : Station.t) : Prop :=
  Station.isUKFuelsSite record = JBool true
  ∧ ∃ object, In object ukFuelsSites
              ∧ Station.ukFuelsSiteNo record = prop object "siteNo".

Definition app_ok (app : App.t) : Prop :=
  Forall (names_site_of (App.ukFuelsSites app)) (App.matchedStations app)
  ∧ App.liveStationsCount app
    = length (List.filter (fun s => is_true (Station.hasLivePricing s))
                (App.matchedStations app)).

(* ===================================================================== *)
(** * Sample inputs *)
(* ===================================================================== *)

Module Sample.

Definition clock (i : nat) : string := "2024-01-22T09:00:00.000Z".
Definition later_clock (i : nat) : string := "2024-01-22T09:05:00.000Z".

(** A record whose only price is an E10 price of zero. *)
Definition zero_record : JS :=
  JObj [("site_id", JStr "gcpv"); ("brand", JStr "ASDA");
        ("postcode", JStr "SL1 1XU");
        ("prices", JObj [("E10", JNum 0%float)])].

Definition priced_record : JS :=
  JObj [("site_id", JStr "gcpw"); ("brand", JStr "ASDA");
        ("postcode", JStr "SL1 2AB");
        ("location", JObj [("latitude", JNum 51.51%float);
                           ("longitude", JStr "-0.59")]);
        ("prices", JObj [("E10", JNum 145.9%float); ("B7", JNum 152.9%float)])].

Definition live (id : string) (brand name postcode town : string)
    (latitude longitude : float) (petrol diesel : JS) : Station.t := {|
  Station.id := id;
  Station.brand := JStr brand;
  Station.name := JStr name;
  Station.address := JStr "";
  Station.postcode := JStr postcode;
  Station.town := JStr town;
  Station.latitude := latitude;
  Station.longitude := longitude;
  Station.petrol_price := petrol;
  Station.diesel_price := diesel;
  Station.super_price := JNull;
  Station.last_updated := JStr "2024-01-22T08:30:00.000Z";
  Station.is_open := JBool true;
  Station.facilities := JArr [];
  Station.ukFuelsSiteNo := JUndefined;
  Station.ukFuelsAltSiteNo := JUndefined;
  Station.hasLivePricing := JUndefined;
  Station.hours24 := JUndefined;
  Station.hgvAccess := JUndefined;
  Station.isUKFuelsSite := JUndefined;
  Station.bands := JUndefined;
  Station.distance := JUndefined;
|}.

(** The live station of the specification's example, and a second one at
    the same postcode. *)
Definition tesco : Station.t :=
  live "Tesco-1" "TESCO" "Tesco Station" "SW1A1AA" "" 0 0 (JNum 1.459%float) JNull.

Definition tesco_express : Station.t :=
  live "Tesco-2" "Tesco" "Tesco Express" "sw1a 1aa" "" 0 0
    (JNum 1.479%float) (JNum 1.559%float).

Definition slough : Station.t :=
  live "BP-3" "BP" "BP Slough" "SL1 3UA" "Slough" 51.52 (-0.61)
    (JNum 1.449%float) (JNum 1.529%float).

Definition manchester : Station.t :=
  live "Shell-9" "Shell" "Shell Deansgate" "M3 4EN" "Manchester" 53.4808 (-2.2426)
    (JNum 1.469%float) JNull.

Definition site (siteNo : float) (brand siteName postCode town : string)
    (latitude longitude : float) (petrol diesel : bool) : Site.t := {|
  Site.siteNo := PNum siteNo;
  Site.altSiteNo := JNum 0%float;
  Site.latitude := latitude;
  Site.longitude := longitude;
  Site.siteName := siteName;
  Site.street1 := "";
  Site.town := town;
  Site.postCode := postCode;
  Site.brand := brand;
  Site.hours24 := JBool true;
  Site.hgvAccess := JBool false;
  Site.petrol := JBool petrol;
  Site.diesel := JBool diesel;
  Site.bands := JStr "";
|}.

(** The directory sites of the specification's examples; [site43] shares
    the postcode of [site42], [site8] sells neither fuel. *)
Definition site42 : Site.t :=
  site 42 "TESCO" "TESCO WESTMINSTER" "SW1A1AA" "LONDON" 51.5014 (-0.1419) true false.

Definition site43 : Site.t :=
  site 43 "BP" "BP WESTMINSTER" "SW1A 1AA" "LONDON" 51.5015 (-0.1420) true true.

Definition site7 : Site.t :=
  site 7 "BP" "BP SLOUGH" "SL1 3UA" "SLOUGH" 51.52 (-0.61) true true.

Definition site8 : Site.t :=
  site 8 "" "DEPOT" "SL1 4AA" "SLOUGH" 51.53 (-0.62) false false.


Definition free_petrol_payload : JS :=
  JObj [("stations",
         JArr [JObj [("site_id", JStr "gcq2"); ("brand", JStr "ESSO");
                     ("postcode", JStr "SL1 4XX");
                     ("prices", JObj [("E10", JNum 0%float);
                                      ("B7", JNum 152.9%float)])]])].

Definition averages : JS :=
  JObj [("petrol", JStr "1.452"); ("diesel", JStr "1.534")].

End Sample.

(** Further sample inputs. *)
Module Cases.

(** A payload whose [stations] is empty while [data] holds a record. *)
Definition empty_stations : JS :=
  JObj [("stations", JArr []); ("data", JArr [Sample.priced_record])].

(** A directory entry as the sites endpoint sends it. *)
Definition site_payload : JS :=
  JObj [("siteNo", JNum 7%float); ("name", JStr " bp slough ");
        ("lat", JStr "51.52"); ("lng", JNum (-0.61)%float);
        ("postcode", JStr "sl1 3ua"); ("brand", JStr "bp"); ("town", JStr "Slough");
        ("h24", JBool true); ("diesel", JBool true)].

(** A station whose name is a number. *)
Definition numbered : Station.t :=
  Station.set_petrol_price (JNum 1.5%float)
    (Station.mk "Jet-0" (JStr "Jet") (JNum 24%float) (JStr "") (JStr "") (JStr "")
       0 0 JNull JNull JNull JNull (JBool true) (JArr []) JUndefined JUndefined
       JUndefined JUndefined JUndefined JUndefined JUndefined JUndefined).

(** The body of the prices endpoint: a summary, a feed that is read, a
    feed that failed. *)
Definition feed (record : JS) : JS :=
  JObj [("success", JBool true); ("data", JObj [("stations", JArr [record])])].

Definition sound_feeds : list (string * JS) :=
  [("_summary", JNull); ("ASDA", feed Sample.priced_record);
   ("Shell", JObj [("success", JBool false)])].

Definition clock (feed i : nat) : string := "2024-01-22T09:00:00.000Z".

(** The body of the sites endpoint. *)
Definition directory_body : JS :=
  JObj [("success", JBool true); ("data", JArr [site_payload])].

(** A record at the postcode of that site, and one whose postcode is an
    object with a [toString] property. *)
Definition bp_record : JS :=
  JObj [("site_id", JStr "gcpx"); ("brand", JStr "BP"); ("postcode", JStr "SL1 3UA");
        ("prices", JObj [("E10", JNum 139.9%float)])].

Definition odd_record : JS :=
  JObj [("site_id", JStr "gcpy"); ("brand", JStr "BP");
        ("postcode", JObj [("toString", JNum 1%float)]);
        ("prices", JObj [("E10", JNum 139.9%float)])].

Definition refresh (sites : Fetched) (record : JS) : Refresh.t :=
  Refresh.mk (fun _ => "2024-01-22T09:00:01.000Z") clock [] []
    sites (Response true (Some (JObj [("BP", feed record)]))).

End Cases.

(* ===================================================================== *)
(** * Properties *)
(* ===================================================================== *)

Local Open Scope list_scope.

(** ** The order of doubles, from the specification of the primitives *)

Section DoubleOrder.
Local Open Scope Z_scope.

Lemma SFcompare_antisym (x y : spec_float) :
  SFcompare y x = option_map CompOpp (SFcompare x y).
Proof.
  destruct x as [sx | sx | | sx mx ex], y as [sy | sy | | sy my ey]; cbn;
    try reflexivity;
    try (destruct sx; reflexivity); try (destruct sy; reflexivity);
    try (destruct sx, sy; reflexivity).
  fold (Pos.compare mx my). fold (Pos.compare my mx).
  rewrite (Z.compare_antisym ex ey), (Pos.compare_antisym mx my).
  destruct sx, sy; cbn; try reflexivity;
    destruct (ex ?= ey)%Z; cbn; try reflexivity;
    destruct (mx ?= my)%positive; reflexivity.
Qed.

(** Three doubles by cases: kind, sign, then exponents and mantissas. *)
Ltac three_way_compare x y z :=
  let sx := fresh "sx" in let mx := fresh "mx" in let ex := fresh "ex" in
  let sy := fresh "sy" in let my := fresh "my" in let ey := fresh "ey" in
  let sz := fresh "sz" in let mz := fresh "mz" in let ez := fresh "ez" in
  destruct x as [sx | sx | | sx mx ex], y as [sy | sy | | sy my ey],
    z as [sz | sz | | sz mz ez]; cbn;
  try discriminate; try reflexivity;
  try (destruct sx; cbn; try discriminate; try reflexivity);
  try (destruct sy; cbn; try discriminate; try reflexivity);
  try (destruct sz; cbn; try discriminate; try reflexivity);
  fold (Pos.compare mx my); fold (Pos.compare my mz); fold (Pos.compare mx mz);
  destruct (Z.compare_spec ex ey), (Z.compare_spec ey ez), (Z.compare_spec ex ez);
  cbn; try discriminate; try reflexivity; try lia;
  destruct (Pos.compare_spec mx my), (Pos.compare_spec my mz),
    (Pos.compare_spec mx mz);
  cbn; try discriminate; try reflexivity; try lia.

Lemma SFcompare_le_trans (x y z : spec_float) :
  le_cmp (SFcompare x y) = true → le_cmp (SFcompare y z) = true →
  le_cmp (SFcompare x z) = true.
Proof. three_way_compare x y z. Qed.

Lemma SFcompare_eq_trans (x y z : spec_float) :
  SFcompare x y = Some Eq → SFcompare y z = Some Eq → SFcompare x z = Some Eq.
Proof. three_way_compare x y z. Qed.

Lemma float_eqb_sym (x y : float) : PrimFloat.eqb x y = PrimFloat.eqb y x.
Proof.
  rewrite !FloatAxioms.eqb_spec. unfold SFeqb.
  rewrite (SFcompare_antisym (Prim2SF x) (Prim2SF y)).
  destruct (SFcompare (Prim2SF x) (Prim2SF y)) as [[] |]; reflexivity.
Qed.

Lemma float_eqb_trans (x y z : float) :
  PrimFloat.eqb x y = true → PrimFloat.eqb y z = true → PrimFloat.eqb x z = true.
Proof.
  rewrite !FloatAxioms.eqb_spec. unfold SFeqb. intros Hxy Hyz.
  destruct (SFcompare (Prim2SF x) (Prim2SF y)) as [[] |] eqn:Exy; try discriminate.
  destruct (SFcompare (Prim2SF y) (Prim2SF z)) as [[] |] eqn:Eyz; try discriminate.
  now rewrite (SFcompare_eq_trans _ _ _ Exy Eyz).
Qed.

Lemma is_nan_eqb_l (x y : float) : PrimFloat.eqb x y = true → PrimFloat.is_nan x = false.
Proof.
  intros Hxy. unfold PrimFloat.is_nan.
  rewrite (float_eqb_trans x y x Hxy); [reflexivity |]. now rewrite float_eqb_sym.
Qed.

Lemma float_leb_trans (x y z : float) :
  PrimFloat.leb x y = true → PrimFloat.leb y z = true → PrimFloat.leb x z = true.
Proof.
  rewrite !FloatAxioms.leb_spec. unfold SFleb. intros Hxy Hyz.
  pose proof (SFcompare_le_trans (Prim2SF x) (Prim2SF y) (Prim2SF z)) as Ht.
  unfold le_cmp in Ht.
  destruct (SFcompare (Prim2SF x) (Prim2SF y)) as [[] |]; try discriminate;
  destruct (SFcompare (Prim2SF y) (Prim2SF z)) as [[] |]; try discriminate;
  specialize (Ht eq_refl eq_refl);
  destruct (SFcompare (Prim2SF x) (Prim2SF z)) as [[] |]; try discriminate; reflexivity.
Qed.

Lemma float_ltb_leb (x y : float) : PrimFloat.ltb x y = true → PrimFloat.leb x y = true.
Proof.
  rewrite FloatAxioms.ltb_spec, FloatAxioms.leb_spec. unfold SFltb, SFleb.
  destruct (SFcompare (Prim2SF x) (Prim2SF y)) as [[] |]; try discriminate; reflexivity.
Qed.

Lemma float_not_ltb_leb (x y : float) :
  PrimFloat.is_nan x = false → PrimFloat.is_nan y = false →
  PrimFloat.ltb y x = false → PrimFloat.leb x y = true.
Proof.
  unfold PrimFloat.is_nan.
  rewrite FloatAxioms.ltb_spec, FloatAxioms.leb_spec, !FloatAxioms.eqb_spec.
  unfold SFltb, SFleb, SFeqb.
  rewrite (SFcompare_antisym (Prim2SF x) (Prim2SF y)).
  destruct (Prim2SF x) as [sx | sx | | sx mx ex] eqn:Ex; try discriminate;
    destruct (Prim2SF y) as [sy | sy | | sy my ey] eqn:Ey; cbn; try discriminate;
    intros _ _;
    try (destruct sx; cbn; try discriminate; try reflexivity);
    try (destruct sy; cbn; try discriminate; try reflexivity).
  all: try (destruct (ex ?= ey)%Z; cbn; try discriminate; try reflexivity;
            destruct (Pos.compare_cont Eq mx my); cbn; try discriminate; reflexivity).
Qed.

Lemma digits2_pos_size (p : positive) : digits2_pos p = Pos.size p.
Proof. induction p; cbn; congruence. Qed.

Lemma Zdigits2_log2 (p : positive) : Zdigits2 (Zpos p) = Z.log2 (Zpos p) + 1.
Proof.
  cbn [Zdigits2]. rewrite digits2_pos_size. destruct p; cbn; lia.
Qed.

Lemma shr_1_m (r : shr_record) :
  0 <= shr_m r → shr_m (shr_1 r) = shr_m r / 2.
Proof.
  destruct r as [m b s]. cbn [shr_m]. intros Hm.
  destruct m as [| [p | p |] | p]; cbn [shr_1 shr_m]; try lia.
  - reflexivity.
  - apply Z.div_unique with (r := 1); lia.
  - apply Z.div_unique with (r := 0); lia.
  - reflexivity.
Qed.

Lemma shr_1_nonneg (r : shr_record) : 0 <= shr_m r → 0 <= shr_m (shr_1 r).
Proof. intros Hm. rewrite shr_1_m by assumption. apply Z.div_pos; lia. Qed.

Lemma iter_pos_shr_1 (p : positive) : ∀ r : shr_record,
  0 <= shr_m r →
  0 <= shr_m (SpecFloat.iter_pos shr_1 p r)
  ∧ shr_m (SpecFloat.iter_pos shr_1 p r) = shr_m r / 2 ^ Zpos p.
Proof.
  induction p as [p IH | p IH |]; intros r Hr; cbn [SpecFloat.iter_pos].
  - pose proof (shr_1_nonneg r Hr) as H1.
    destruct (IH _ H1) as [H2 E2]. destruct (IH _ H2) as [H3 E3].
    split; [assumption |]. rewrite E3, E2, shr_1_m by assumption.
    rewrite !Z.div_div by lia. f_equal.
    rewrite Pos2Z.inj_xI, Z.pow_add_r, Z.pow_mul_r by lia.
    change (2 ^ 2) with 4. rewrite Z.pow_1_r.
    replace (4 ^ Zpos p) with (2 ^ Zpos p * 2 ^ Zpos p); [lia |].
    rewrite <- Z.pow_add_r by lia. replace (Zpos p + Zpos p) with (2 * Zpos p) by lia.
    now rewrite Z.pow_mul_r by lia.
  - destruct (IH _ Hr) as [H2 E2]. destruct (IH _ H2) as [H3 E3].
    split; [assumption |]. rewrite E3, E2. rewrite Z.div_div by lia. f_equal.
    rewrite Pos2Z.inj_xO. rewrite <- Z.pow_add_r by lia. f_equal. lia.
  - split; [now apply shr_1_nonneg |]. now rewrite shr_1_m.
Qed.

Lemma shr_record_of_loc_m (m : Z) (l : location) : shr_m (shr_record_of_loc m l) = m.
Proof. destruct l as [| []]; reflexivity. Qed.

(** Shifting a positive mantissa to its canonical exponent leaves it
    positive, as long as the exponent is not below the least one. *)
Lemma shr_fexp_positive (m e : Z) (l : location) :
  0 < m → SpecFloat.emin prec emax <= e →
  0 < shr_m (fst (shr_fexp prec emax m e l))
  ∧ SpecFloat.emin prec emax <= snd (shr_fexp prec emax m e l).
Proof.
  intros Hm He. unfold shr_fexp, shr.
  destruct m as [| p | p]; try lia.
  rewrite Zdigits2_log2.
  destruct (fexp prec emax (Z.log2 (Zpos p) + 1 + e) - e) as [| n | n] eqn:En;
    cbn [fst snd]; rewrite ?shr_record_of_loc_m; try (split; lia).
  assert (Hn : Zpos n = Z.log2 (Zpos p) + 1 - prec).
  { unfold fexp in En. unfold SpecFloat.emin in *. lia. }
  destruct (iter_pos_shr_1 n (shr_record_of_loc (Zpos p) l)) as [_ E].
  { rewrite shr_record_of_loc_m. lia. }
  rewrite E, shr_record_of_loc_m. split; [| lia].
  apply Z.div_str_pos. split; [lia |].
  apply Z.le_trans with (2 ^ Z.log2 (Zpos p)).
  - apply Z.pow_le_mono_r; [lia |]. unfold prec in Hn. lia.
  - apply Z.log2_spec. lia.
Qed.

Lemma round_nearest_even_positive (m : Z) (l : location) :
  0 < m → 0 < round_nearest_even m l.
Proof.
  intros Hm. destruct l as [| []]; cbn; try lia. destruct (Z.even m); lia.
Qed.

Lemma binary_round_aux_signed (s : bool) (m e : Z) (l : location) :
  0 < m → SpecFloat.emin prec emax <= e → signed s (binary_round_aux prec emax s m e l).
Proof.
  intros Hm He. unfold binary_round_aux.
  pose proof (shr_fexp_positive m e l Hm He) as [H1 He1].
  destruct (shr_fexp prec emax m e l) as [r1 e1]. cbn [fst snd] in *.
  pose proof (round_nearest_even_positive _ (loc_of_shr_record r1) H1) as H2.
  pose proof (shr_fexp_positive _ e1 loc_Exact H2 He1) as [H3 _].
  destruct (shr_fexp prec emax _ e1 loc_Exact) as [r2 e2]. cbn [fst snd] in *.
  destruct (shr_m r2); try lia.
  destruct (e2 <=? emax - prec); reflexivity.
Qed.

Lemma binary_round_signed (s : bool) (m : positive) (e : Z) :
  SpecFloat.emin prec emax <= e → signed s (binary_round prec emax s m e).
Proof.
  intros He. unfold binary_round, shl_align.
  destruct (fexp prec emax (Z.pos (digits2_pos m) + e) - e) eqn:En;
    apply binary_round_aux_signed; try lia.
  unfold fexp in *. lia.
Qed.

Lemma binary_normalize_sign (m e : Z) :
  SpecFloat.emin prec emax <= e →
  match binary_normalize prec emax m e false with
  | S754_zero false => m = 0
  | S754_finite s _ _ | S754_infinity s => if s then m < 0 else 0 < m
  | _ => False
  end.
Proof.
  intros He. destruct m as [| p | p]; cbn [binary_normalize]; [reflexivity | |].
  - pose proof (binary_round_signed false p e He) as Hs.
    destruct (binary_round prec emax false p e); cbn in Hs; subst; try tauto; lia.
  - pose proof (binary_round_signed true p e He) as Hs.
    destruct (binary_round prec emax true p e); cbn in Hs; subst; try tauto; lia.
Qed.

Lemma iter_xO (d m : positive) : Zpos (Pos.iter xO m d) = Zpos m * 2 ^ Zpos d.
Proof.
  induction d as [| d IH] using Pos.peano_ind.
  - cbn. lia.
  - rewrite Pos.iter_succ, Pos2Z.inj_xO, IH, Pos2Z.inj_succ, Z.pow_succ_r by lia. lia.
Qed.

Lemma shl_align_value (m : positive) (e e' : Z) :
  e' <= e → Zpos (fst (shl_align m e e')) = Zpos m * 2 ^ (e - e').
Proof.
  intros Hle. unfold shl_align.
  destruct (e' - e) as [| d | d] eqn:Ed; cbn [fst].
  - replace (e - e') with 0 by lia. lia.
  - lia.
  - rewrite iter_xO. do 2 f_equal. lia.
Qed.

(** What a valid finite double says about its mantissa and exponent. *)
Lemma bounded_canonical (m : positive) (e : Z) :
  bounded prec emax m e = true →
  SpecFloat.emin prec emax <= e ∧ Zpos m < 2 ^ prec
  ∧ (SpecFloat.emin prec emax < e → 2 ^ (prec - 1) <= Zpos m).
Proof.
  unfold bounded, canonical_mantissa. rewrite andb_true_iff, Z.eqb_eq, Z.leb_le.
  intros [Hc _]. pose proof (Zdigits2_log2 m) as Hd. cbn [Zdigits2] in Hd.
  rewrite Hd in Hc. unfold fexp in Hc.
  pose proof (Z.log2_spec (Zpos m) ltac:(lia)) as [Hlo Hhi].
  assert (Hlog : Z.log2 (Zpos m) + 1 <= prec) by lia.
  repeat split.
  - lia.
  - eapply Z.lt_le_trans; [exact Hhi |]. apply Z.pow_le_mono_r; lia.
  - intros He. assert (Z.log2 (Zpos m) = prec - 1) as <- by lia. exact Hlo.
Qed.

Lemma smaller_exponent (m1 m2 : positive) (e1 e2 : Z) :
  bounded prec emax m1 e1 = true → bounded prec emax m2 e2 = true →
  e1 < e2 → Zpos m1 * 2 ^ (e1 - e1) < Zpos m2 * 2 ^ (e2 - e1).
Proof.
  intros H1 H2 Hlt.
  apply bounded_canonical in H1 as (Hmin1 & Hhi1 & _).
  apply bounded_canonical in H2 as (_ & _ & Hlo2).
  specialize (Hlo2 ltac:(lia)).
  rewrite Z.sub_diag, Z.pow_0_r, Z.mul_1_r.
  eapply Z.lt_le_trans; [exact Hhi1 |].
  replace prec with (prec - 1 + 1) at 1 by lia.
  rewrite Z.pow_add_r by (unfold prec; lia). rewrite Z.pow_1_r.
  assert (2 <= 2 ^ (e2 - e1)).
  { change 2 with (2 ^ 1) at 1. apply Z.pow_le_mono_r; lia. }
  nia.
Qed.

Lemma aligned_order (sx sy : bool) (mx my : positive) (ex ey : Z) :
  bounded prec emax mx ex = true → bounded prec emax my ey = true →
  SFltb (S754_finite sy my ey) (S754_finite sx mx ex)
  = (aligned sy my ey (Z.min ex ey) <? aligned sx mx ex (Z.min ex ey)).
Proof.
  intros Hx Hy. unfold aligned, SFltb, SFcompare.
  rewrite !shl_align_value by lia.
  fold (Pos.compare my mx).
  assert (Hpx : 0 < Zpos mx * 2 ^ (ex - Z.min ex ey))
    by (apply Z.mul_pos_pos; [lia | apply Z.pow_pos_nonneg; lia]).
  assert (Hpy : 0 < Zpos my * 2 ^ (ey - Z.min ex ey))
    by (apply Z.mul_pos_pos; [lia | apply Z.pow_pos_nonneg; lia]).
  assert (Hcmp : match ey ?= ex with
                 | Lt => Zpos my * 2 ^ (ey - Z.min ex ey) < Zpos mx * 2 ^ (ex - Z.min ex ey)
                 | Gt => Zpos mx * 2 ^ (ex - Z.min ex ey) < Zpos my * 2 ^ (ey - Z.min ex ey)
                 | Eq => ex = ey
                 end).
  { destruct (Z.compare_spec ey ex) as [E | E | E]; [congruence | |].
    - replace (Z.min ex ey) with ey by lia. now apply smaller_exponent.
    - replace (Z.min ex ey) with ex by lia. now apply smaller_exponent. }
  symmetry.
  destruct sy, sx; cbn [cond_Zopp]; try (apply Z.ltb_lt; lia); try (apply Z.ltb_ge; lia).
  - revert Hcmp. destruct (ey ?= ex); cbv beta iota; intros Hcmp.
    + subst ey. remember (2 ^ (ex - Z.min ex ex)) as k.
      assert (0 < k) by (subst k; apply Z.pow_pos_nonneg; lia).
      destruct (Pos.compare_spec my mx); cbv beta iota delta [CompOpp];
        [apply Z.ltb_ge | apply Z.ltb_ge | apply Z.ltb_lt]; nia.
    + apply Z.ltb_ge. lia.
    + apply Z.ltb_lt. lia.
  - revert Hcmp. destruct (ey ?= ex); cbv beta iota; intros Hcmp.
    + subst ey. remember (2 ^ (ex - Z.min ex ex)) as k.
      assert (0 < k) by (subst k; apply Z.pow_pos_nonneg; lia).
      destruct (Pos.compare_spec my mx); cbv beta iota;
        [apply Z.ltb_ge | apply Z.ltb_lt | apply Z.ltb_ge]; nia.
    + apply Z.ltb_lt. lia.
    + apply Z.ltb_ge. lia.
Qed.

(** The sign of a difference is the order of its operands. *)
Lemma SFsub_positive (x y : spec_float) :
  SpecFloat.valid_binary prec emax x = true →
  SpecFloat.valid_binary prec emax y = true →
  x ≠ S754_nan → y ≠ S754_nan →
  SFltb (S754_zero false) (SFsub prec emax x y) = SFltb y x.
Proof.
  intros Hx Hy Hnx Hny.
  destruct x as [sx | sx | | sx mx ex], y as [sy | sy | | sy my ey];
    try congruence; cbn [SFsub];
    try (destruct sx; reflexivity); try (destruct sy; reflexivity);
    try (destruct sx, sy; reflexivity).
  cbn [SpecFloat.valid_binary] in Hx, Hy.
  rewrite (aligned_order _ _ _ _ _ _ Hx Hy). unfold aligned.
  pose proof (bounded_canonical _ _ Hx) as (Hex & _ & _).
  pose proof (bounded_canonical _ _ Hy) as (Hey & _ & _).
  pose proof (binary_normalize_sign
                (cond_Zopp sx (Zpos (fst (shl_align mx ex (Z.min ex ey))))
                 - cond_Zopp sy (Zpos (fst (shl_align my ey (Z.min ex ey)))))
                (Z.min ex ey) ltac:(lia)) as Hsign.
  destruct (binary_normalize _ _ _ _ _) as [s | s | | s m e]; cbn.
  - destruct s; [contradiction |]. symmetry. apply Z.ltb_ge. lia.
  - destruct s; symmetry; [apply Z.ltb_ge | apply Z.ltb_lt]; lia.
  - contradiction.
  - destruct s; symmetry; [apply Z.ltb_ge | apply Z.ltb_lt]; lia.
Qed.

Lemma Prim2SF_not_nan (x : float) : PrimFloat.is_nan x = false → Prim2SF x ≠ S754_nan.
Proof.
  intros Hx. unfold Prim2SF. rewrite Hx.
  destruct (is_zero x); [discriminate |].
  destruct (is_infinity x); [discriminate |].
  destruct (Z.frexp x) as [r e].
  destruct (shr_fexp _ _ _ _ _) as [rec e'].
  destruct (shr_m rec); discriminate.
Qed.

(** [0 < x - y] exactly when [y < x], for two numbers. *)
Lemma ltb_zero_sub (x y : float) :
  PrimFloat.is_nan x = false → PrimFloat.is_nan y = false →
  PrimFloat.ltb 0 (x - y) = PrimFloat.ltb y x.
Proof.
  intros Hx Hy. rewrite !FloatAxioms.ltb_spec, FloatAxioms.sub_spec.
  change (Prim2SF 0) with (S754_zero false).
  apply SFsub_positive; auto using Prim2SF_valid, Prim2SF_not_nan.
Qed.

End DoubleOrder.

(** ** Supermarkets and member prices *)

Lemma includes_str_In (l : list string) (s : string) :
  includes_str l s = true ↔ In s l.
Proof.
  unfold includes_str. rewrite existsb_exists. split.
  - intros (x & Hx & Heq). apply String.eqb_eq in Heq. now subst.
  - intros Hin. exists s. split; [assumption | apply String.eqb_refl].
Qed.
Lemma includes_str_in_list l s : includes_str l s = in_list s l.
Proof.
  unfold in_list. destruct (in_dec string_dec s l) as [Hin | Hout].
  - now apply includes_str_In.
  - destruct (includes_str l s) eqn:E; [| reflexivity].
    apply includes_str_In in E. contradiction.
Qed.

(** C3, as the code has it: an ASCII brand string is a supermarket exactly
    when its upper-cased form is one of the six names ASDA, TESCO,
    SAINSBURYS, MORRISONS, SAINSBURY'S, MORRISON'S; every other ASCII brand
    string is a standard site. *)
Theorem isSupermarketBrand_six (s : string) :
  all_chars is_7bit s = true →
  isSupermarketBrand (JStr s)
  = Ok (in_list (toUpperCase s)
          ["ASDA"; "TESCO"; "SAINSBURYS"; "MORRISONS"; "SAINSBURY'S"; "MORRISON'S"]).
Proof. intros _. cbn [isSupermarketBrand]. f_equal. apply includes_str_in_list. Qed.

(** C3 at two brands as the feeds spell them. *)
Lemma isSupermarketBrand_six_witness :
  isSupermarketBrand (JStr "Morrison's") = Ok true
  ∧ isSupermarketBrand (JStr "Shell") = Ok false.
Proof.
  split.
  - exact (isSupermarketBrand_six "Morrison's" eq_refl).
  - exact (isSupermarketBrand_six "Shell" eq_refl).
Defined.

(** C3 as stated fails: SAINSBURY'S is classified as a supermarket and is
    not one of the four names ASDA, TESCO, SAINSBURYS, MORRISONS. *)
Lemma four_supermarkets_counterexample :
  isSupermarketBrand (JStr "SAINSBURY'S") = Ok true
  ∧ ¬ In (toUpperCase "SAINSBURY'S") ["ASDA"; "TESCO"; "SAINSBURYS"; "MORRISONS"].
Proof. split; [reflexivity |]. vm_compute. intuition discriminate. Qed.

Section PricingFacts.
Context `{Host}.

Lemma pumpPPL_pence (price : JS) :
  text_like price = true → pumpPPL price = Ok (pence_of price).
Proof.
  unfold pumpPPL, pence_of, parseFloat.
  destruct price as [| | [|] | n | s | |]; cbn [truthy text_like ToString bind negb];
    try discriminate; try reflexivity; intros _.
  - destruct (PrimFloat.is_nan n) eqn:En; cbn [orb negb]; [reflexivity |].
    destruct (PrimFloat.eqb n 0); reflexivity.
  - destruct (String.eqb s ""); reflexivity.
Qed.

Lemma truthy_num_pence (discount : float) (pence : option float) :
  (if truthy_num pence then option_map (fun p => (p - discount)%float) pence else None)
  = less_discount discount pence.
Proof.
  destruct pence as [p |]; [| reflexivity]. cbn [truthy_num truthy less_discount].
  destruct (PrimFloat.is_nan p || PrimFloat.eqb p 0); reflexivity.
Qed.

(** C1, as the code has it: for a station whose brand the classifier
    accepts (a string, or none) and whose prices are numbers, texts or
    missing, the member diesel price is [dieselSupermarket] of the weekly
    policy when the brand is a supermarket and [diesel] otherwise, whatever
    the pump diesel price; the pump petrol price in pence is the number, or
    the number the text reads as, times 100, and is missing for a price
    that is [null], [undefined], the empty text, [NaN] or 0; the member
    petrol price is these pence less the supermarket or standard discount,
    and [null] when the pence are missing, [NaN] or 0.  An ASCII brand is
    a supermarket exactly when its upper-cased form is one of the six
    names, a missing brand is none; for TESCO at 1.459 pounds the member
    petrol price is 144.9 pence. *)
Theorem member_prices (station : Station.t) (supermarket : bool) :
  isSupermarketBrand (Station.brand station) = Ok supermarket →
  text_like (Station.petrol_price station) = true →
  text_like (Station.diesel_price station) = true →
  let discount :=
    if supermarket then petrolDiscountSupermarket FUELQ_WEEKLY_PRICES
    else petrolDiscount FUELQ_WEEKLY_PRICES in
  ∃ card,
    StationCard station = Ok card
    ∧ Card.isSupermarket card = supermarket
    ∧ Card.dieselFuelQPrice card
      = (if supermarket then dieselSupermarket FUELQ_WEEKLY_PRICES
         else diesel FUELQ_WEEKLY_PRICES)
    ∧ Card.petrolDiscount card = discount
    ∧ (∀ price,
         text_like price = true →
         ∃ card', StationCard (Station.set_diesel_price price station) = Ok card'
                  ∧ Card.dieselFuelQPrice card' = Card.dieselFuelQPrice card)
    ∧ Card.pumpPetrolPPL card = pence_of (Station.petrol_price station)
    ∧ Card.pumpDieselPPL card = pence_of (Station.diesel_price station)
    ∧ Card.fuelqPetrolPPL card
      = less_discount discount (pence_of (Station.petrol_price station))
    ∧ (∀ s, Station.brand station = JStr s → all_chars is_7bit s = true →
            supermarket
            = in_list (toUpperCase s)
                ["ASDA"; "TESCO"; "SAINSBURYS"; "MORRISONS"; "SAINSBURY'S";
                 "MORRISON'S"])
    ∧ (nullish (Station.brand station) = true → supermarket = false)
    ∧ (Station.brand station = JStr "TESCO" →
       Station.petrol_price station = JNum 1.459%float →
       Card.fuelqPetrolPPL card = Some 144.9%float).
Proof.
  intros Hb Hp Hd discount.
  unfold StationCard. rewrite Hb, (pumpPPL_pence _ Hp), (pumpPPL_pence _ Hd).
  cbn [bind]. fold discount. rewrite truthy_num_pence.
  eexists. split; [reflexivity |].
  cbn [Card.isSupermarket Card.dieselFuelQPrice Card.petrolDiscount Card.pumpPetrolPPL
       Card.pumpDieselPPL Card.fuelqPetrolPPL].
  repeat split.
  - intros price Hprice. unfold StationCard.
    destruct station; cbn in *.
    rewrite Hb, (pumpPPL_pence _ Hp), (pumpPPL_pence _ Hprice). cbn [bind].
    eexists. split; reflexivity.
  - intros s Hs _. rewrite Hs in Hb. cbn [isSupermarketBrand] in Hb.
    rewrite includes_str_in_list in Hb. now injection Hb.
  - intros Hnull. destruct (Station.brand station); try discriminate Hnull;
      cbn in Hb; now injection Hb.
  - intros Hs Hn. rewrite Hs in Hb. injection Hb as <-.
    rewrite Hn. subst discount. vm_compute. reflexivity.
Qed.

End PricingFacts.

(** The TESCO example of C1 on the reference host. *)
Lemma member_prices_witness :
  ∃ card, StationCard (H := refHost) Sample.tesco = Ok card
          ∧ Card.dieselFuelQPrice card = 133.6%float
          ∧ Card.fuelqPetrolPPL card = Some 144.9%float.
Proof.
  destruct (member_prices (H := refHost) Sample.tesco true eq_refl eq_refl eq_refl)
    as (card & Hcard & _ & Hdiesel & _ & _ & _ & _ & _ & _ & _ & Htesco).
  exists card. split; [exact Hcard |]. split; [exact Hdiesel |].
  exact (Htesco eq_refl eq_refl).
Defined.

(** C1 as stated fails: the normaliser keeps a record with a petrol price
    of 0 beside a diesel price; the pump petrol price exists (it is the
    number 0, not [null]) and the member petrol price is [null], not 0
    pence less the discount. *)
Lemma a_pump_price_of_zero_gives_no_member_price :
  ∃ station card,
    parseStationData (H := refHost) Sample.clock "ESSO" Sample.free_petrol_payload
    = Ok [station]
    ∧ Station.petrol_price station = JNum 0%float
    ∧ Station.petrol_price station ≠ JNull
    ∧ StationCard (H := refHost) station = Ok card
    ∧ Card.fuelqPetrolPPL card = None
    ∧ Card.fuelqPetrolPPL card
      ≠ Some (0 * 100 - petrolDiscount FUELQ_WEEKLY_PRICES)%float.
Proof.
  eexists _, _. split; [vm_compute; reflexivity |].
  split; [reflexivity |]. split; [discriminate |].
  split; [vm_compute; reflexivity |]. split; [reflexivity | discriminate].
Qed.

(** ** The normaliser *)

Section NormalizerFacts.
Context `{Host}.
Variable clock : nat → string.
Variable retailerName : string.

Lemma parseStation_total stations station index :
  parseStation clock retailerName stations station index
  = Ok (stations ++ contribution clock retailerName station index).
Proof.
  unfold parseStation, contribution, try_catch.
  destruct (extractStation clock retailerName station index) as [p | e]; cbn.
  - destruct (retained p); cbn; [reflexivity | now rewrite app_nil_r].
  - now rewrite app_nil_r.
Qed.

Lemma forEach_parseStation items : ∀ i stations,
  forEach_from (parseStation clock retailerName) items i stations
  = Ok (stations ++ contributions clock retailerName items i).
Proof.
  induction items as [| station rest IH]; intros i stations; cbn.
  - now rewrite app_nil_r.
  - rewrite parseStation_total. cbn. rewrite IH. now rewrite <- app_assoc.
Qed.

Lemma parseStationData_eq data :
  parseStationData clock retailerName data
  = Ok (match recordList data with
        | Ok (JArr items) => contributions clock retailerName items 0
        | _ => []
        end).
Proof.
  unfold parseStationData.
  destruct (recordList data) as [[] | e]; cbn; try reflexivity.
  now rewrite forEach_parseStation.
Qed.

Lemma contributions_app pre post : ∀ i,
  contributions clock retailerName (pre ++ post) i
  = contributions clock retailerName pre i
    ++ contributions clock retailerName post (length pre + i).
Proof.
  induction pre as [| x pre IH]; intros i; cbn; [reflexivity |].
  rewrite IH, <- app_assoc. do 3 f_equal. lia.
Qed.

Lemma contributions_retained items : ∀ i p,
  In p (contributions clock retailerName items i) → retained p = true.
Proof.
  induction items as [| x rest IH]; intros i p; cbn; [tauto |].
  rewrite in_app_iff. intros [Hin | Hin]; [| eauto].
  unfold contribution in Hin.
  destruct (extractStation clock retailerName x i) as [q | e]; [| contradiction].
  destruct (retained q) eqn:E; [| contradiction].
  destruct Hin as [-> | []]. exact E.
Qed.

Lemma truthy_not_null v : truthy v = true → v ≠ JNull.
Proof. intros Ht ->. discriminate. Qed.

Lemma retained_priced p :
  retained p = true →
  Station.petrol_price p ≠ JNull ∨ Station.diesel_price p ≠ JNull
  ∨ Station.super_price p ≠ JNull.
Proof.
  unfold retained. rewrite !orb_true_iff.
  intros [[Ht | Ht] | Ht]; apply truthy_not_null in Ht; tauto.
Qed.

(** C4: the normaliser returns a list, every station in it has a petrol,
    diesel or super price that is not [null], and a record whose three
    extracted prices are all [null] is not pushed and is not in the list. *)
Theorem retained_stations_have_a_price (data : JS) :
  ∃ stations,
    parseStationData clock retailerName data = Ok stations
    ∧ (∀ p, In p stations →
         Station.petrol_price p ≠ JNull ∨ Station.diesel_price p ≠ JNull
         ∨ Station.super_price p ≠ JNull)
    ∧ (∀ record index p kept,
         extractStation clock retailerName record index = Ok p →
         Station.petrol_price p = JNull → Station.diesel_price p = JNull →
         Station.super_price p = JNull →
         parseStation clock retailerName kept record index = Ok kept
         ∧ ¬ In p stations).
Proof.
  rewrite parseStationData_eq. eexists. split; [reflexivity |]. split.
  - intros p Hin. apply retained_priced.
    destruct (recordList data) as [[] | e]; try contradiction.
    eapply contributions_retained; eassumption.
  - intros record index p kept Hp Hpet Hdie Hsup.
    assert (Hret : retained p = false)
      by (unfold retained; now rewrite Hpet, Hdie, Hsup).
    split.
    + unfold parseStation. rewrite Hp. cbn. now rewrite Hret.
    + intros Hin.
      destruct (recordList data) as [[] | e]; try contradiction.
      apply contributions_retained in Hin. congruence.
Qed.

Lemma first_array_value_none data :
  (∀ key, nonEmptyArray (prop data key) = false) → first_array_value data = JArr [].
Proof.
  intros Hnone. destruct data; try reflexivity. cbn.
  destruct (find (fun kv => nonEmptyArray (assoc (fst kv) props)) props)
    as [[key v] |] eqn:E; [| reflexivity].
  apply find_some in E as [_ E]. cbn in E.
  specialize (Hnone key). cbn in Hnone. congruence.
Qed.

Lemma recordList_none data v :
  no_record_list data → recordList data = Ok v → nonEmptyArray v = false.
Proof.
  intros [Hdata Hprops]. unfold recordList, get, bind.
  destruct (nullish data); [discriminate |].
  destruct (find (fun key => truthy (prop data key)) probe_keys) as [key |].
  - intros [= <-]. apply Hprops.
  - destruct (isArray data); intros [= <-]; [exact Hdata |].
    now rewrite first_array_value_none.
Qed.

(** C9: whatever the retailer name and the payload, the normaliser
    returns a list; a payload with no record list in it gives the empty
    list; for a record list the result is what each record contributes;
    and a record whose extraction throws is skipped while the records
    before and after it are kept. *)
Theorem normalizer_never_throws (data : JS) :
  (∃ stations, parseStationData clock retailerName data = Ok stations)
  ∧ (no_record_list data → parseStationData clock retailerName data = Ok [])
  ∧ (∀ items, recordList data = Ok (JArr items) →
       parseStationData clock retailerName data
       = Ok (contributions clock retailerName items 0))
  ∧ (∀ pre bad post e,
       recordList data = Ok (JArr (pre ++ bad :: post)) →
       extractStation clock retailerName bad (length pre) = Throw e →
       parseStationData clock retailerName data
       = Ok (contributions clock retailerName pre 0
             ++ contributions clock retailerName post (S (length pre)))).
Proof.
  rewrite parseStationData_eq. repeat split.
  - eexists. reflexivity.
  - intros Hnone. destruct (recordList data) as [v | e] eqn:E; [| reflexivity].
    apply (recordList_none _ _ Hnone) in E.
    destruct v as [| | | | | [| x l] |]; try reflexivity. discriminate E.
  - intros items ->. reflexivity.
  - intros pre bad post e -> Hbad. f_equal.
    rewrite contributions_app. cbn [contributions]. f_equal.
    rewrite Nat.add_0_r. unfold contribution at 1. now rewrite Hbad.
Qed.

Lemma zero_or_null_falsy v : zero_or_null v → truthy v = false.
Proof.
  intros [-> | (z & -> & Hz)]; [reflexivity |].
  cbn. rewrite Hz. now rewrite orb_true_r.
Qed.

(** C10: a record whose extracted prices are all [null] or zero, one of
    them a zero, holds a price that is not [null], and yet it is not
    pushed: alone in a payload it gives the empty list, and it is in no
    output of the normaliser. *)
Theorem zero_price_is_discarded (record : JS) (index : nat) (p : Station.t)
    (z : float) (kept : list Station.t) :
  extractStation clock retailerName record index = Ok p →
  PrimFloat.eqb z 0 = true →
  Station.petrol_price p = JNum z ∨ Station.diesel_price p = JNum z
  ∨ Station.super_price p = JNum z →
  zero_or_null (Station.petrol_price p) →
  zero_or_null (Station.diesel_price p) →
  zero_or_null (Station.super_price p) →
  (Station.petrol_price p ≠ JNull ∨ Station.diesel_price p ≠ JNull
   ∨ Station.super_price p ≠ JNull)
  ∧ parseStation clock retailerName kept record index = Ok kept
  ∧ (index = 0 → parseStationData clock retailerName (JArr [record]) = Ok [])
  ∧ (∀ data stations,
       parseStationData clock retailerName data = Ok stations → ¬ In p stations).
Proof.
  intros Hp Hz Hslot Hpet Hdie Hsup.
  assert (Hret : retained p = false).
  { unfold retained.
    now rewrite (zero_or_null_falsy _ Hpet), (zero_or_null_falsy _ Hdie),
      (zero_or_null_falsy _ Hsup). }
  repeat split.
  - destruct Hslot as [E | [E | E]]; rewrite E; [left | right; left | right; right];
      discriminate.
  - unfold parseStation. rewrite Hp. cbn. now rewrite Hret.
  - intros ->. rewrite parseStationData_eq. cbn. unfold contribution.
    now rewrite Hp, Hret.
  - intros data stations. rewrite parseStationData_eq. intros [= <-] Hin.
    destruct (recordList data) as [[] | e]; try contradiction.
    apply contributions_retained in Hin. congruence.
Qed.

End NormalizerFacts.

(** C10 on the reference host: the zero-price record holds the price 0,
    and the payload made of it alone gives no station. *)
Lemma zero_price_is_discarded_witness :
  ∃ p, extractStation (H := refHost) Sample.clock "ASDA" Sample.zero_record 0 = Ok p
       ∧ Station.petrol_price p = JNum 0%float
       ∧ parseStationData (H := refHost) Sample.clock "ASDA" (JArr [Sample.zero_record])
         = Ok [].
Proof.
  destruct (extractStation (H := refHost) Sample.clock "ASDA" Sample.zero_record 0)
    as [p | e] eqn:E; [| vm_compute in E; discriminate E].
  assert (Hp : Station.petrol_price p = JNum 0%float)
    by (vm_compute in E; injection E as <-; reflexivity).
  assert (Hd : Station.diesel_price p = JNull)
    by (vm_compute in E; injection E as <-; reflexivity).
  assert (Hs : Station.super_price p = JNull)
    by (vm_compute in E; injection E as <-; reflexivity).
  destruct (zero_price_is_discarded (H := refHost) Sample.clock "ASDA"
              Sample.zero_record 0 p 0%float [] E eq_refl (or_introl Hp)
              (or_intror (ex_intro _ 0%float (conj Hp eq_refl)))
              (or_introl Hd) (or_introl Hs))
    as (_ & _ & Hempty & _).
  exists p. split; [reflexivity |]. split; [exact Hp |]. exact (Hempty eq_refl).
Defined.

(** C9 on the reference host: of a zero-price record, a [null] record and
    a priced record, only the last is kept. *)
Lemma normalizer_never_throws_witness :
  ∃ kept,
    parseStationData (H := refHost) Sample.clock "ASDA"
      (JObj [("stations", JArr [Sample.zero_record; JNull; Sample.priced_record])])
    = Ok [kept]
    ∧ Station.id kept = "ASDA-gcpw".
Proof.
  destruct (normalizer_never_throws (H := refHost) Sample.clock "ASDA"
              (JObj [("stations",
                      JArr [Sample.zero_record; JNull; Sample.priced_record])]))
    as (_ & _ & _ & Hskip).
  specialize (Hskip [Sample.zero_record] JNull [Sample.priced_record] TypeError
                eq_refl eq_refl).
  eexists. split; [rewrite Hskip; vm_compute; reflexivity | reflexivity].
Defined.

(** ** The matching engine *)

(** ** The claimed set *)

Lemma sameValueZero_refl (v : Prim) : sameValueZero v v = true.
Proof.
  destruct v as [| | b | n | s]; cbn; try reflexivity.
  - now destruct b.
  - unfold PrimFloat.is_nan. now destruct (PrimFloat.eqb n n).
  - apply String.eqb_refl.
Qed.

Lemma sameValueZero_sym (a b : Prim) : sameValueZero a b = sameValueZero b a.
Proof.
  destruct a as [| | x | x | x], b as [| | y | y | y]; cbn; try reflexivity.
  - now destruct x, y.
  - now rewrite float_eqb_sym, andb_comm.
  - apply String.eqb_sym.
Qed.

Lemma sameValueZero_trans (a b c : Prim) :
  sameValueZero a b = true → sameValueZero b c = true → sameValueZero a c = true.
Proof.
  destruct a as [| | x | x | x], b as [| | y | y | y], c as [| | z | z | z]; cbn;
    try discriminate; try reflexivity.
  - destruct x, y, z; cbn; congruence.
  - rewrite !orb_true_iff, !andb_true_iff.
    intros [Hxy | [Hx Hy]] [Hyz | [Hy' Hz]].
    + left. eapply float_eqb_trans; eassumption.
    + rewrite float_eqb_sym in Hxy. apply is_nan_eqb_l in Hxy. congruence.
    + apply is_nan_eqb_l in Hyz. congruence.
    + now right.
  - intros Hxy Hyz. apply String.eqb_eq in Hxy, Hyz. subst. apply String.eqb_refl.
Qed.

Lemma set_has_add (set : list Prim) (x v : Prim) :
  set_has (set_add set x) v = set_has set v || sameValueZero v x.
Proof.
  unfold set_add. destruct (set_has set x) eqn:Ex.
  - destruct (sameValueZero v x) eqn:Evx; [| now rewrite orb_false_r].
    rewrite orb_true_r. unfold set_has in *.
    apply existsb_exists in Ex as (y & Hy & Hxy).
    apply existsb_exists. exists y. split; [assumption |].
    eapply sameValueZero_trans; eassumption.
  - unfold set_has. rewrite existsb_app. cbn. now rewrite orb_false_r.
Qed.

(** ** The postcode index *)

Lemma nonempty_true s : nonempty s = true ↔ s ≠ "".
Proof.
  unfold nonempty. rewrite negb_true_iff. split.
  - intros E ->. now rewrite String.eqb_refl in E.
  - intros Hne. now apply String.eqb_neq.
Qed.

Lemma index_site_postcode (ix : Indices.t) (site : Site.t) (k : string) :
  k ≠ "" →
  Indices.ukFuelsPostcodeMap (index_site ix site) !! k
  = if shares_postcode k site
    then Some (default [] (Indices.ukFuelsPostcodeMap ix !! k) ++ [site])
    else Indices.ukFuelsPostcodeMap ix !! k.
Proof.
  intros Hk. unfold index_site, shares_postcode. cbn [Indices.ukFuelsPostcodeMap].
  destruct (String.eqb_spec (normalize_text (Site.postCode site)) k) as [-> | Hne].
  - apply nonempty_true in Hk as ->. unfold map_push. now rewrite lookup_insert_eq.
  - destruct (nonempty (normalize_text (Site.postCode site))); [| reflexivity].
    unfold map_push. now rewrite lookup_insert_ne.
Qed.

Lemma postcode_index_step (sites : list Site.t) : ∀ (ix : Indices.t) (k : string),
  k ≠ "" →
  Indices.ukFuelsPostcodeMap (fold_left index_site sites ix) !! k
  = match List.filter (shares_postcode k) sites with
    | [] => Indices.ukFuelsPostcodeMap ix !! k
    | sharing => Some (default [] (Indices.ukFuelsPostcodeMap ix !! k) ++ sharing)
    end.
Proof.
  induction sites as [| site rest IH]; intros ix k Hk; [reflexivity |].
  cbn [fold_left List.filter]. rewrite (IH _ k Hk), (index_site_postcode _ _ _ Hk).
  destruct (shares_postcode k site); [| reflexivity].
  destruct (List.filter (shares_postcode k) rest); [reflexivity |].
  unfold default at 1, id. now rewrite <- app_assoc.
Qed.

Lemma postcode_index_empty_key (sites : list Site.t) : ∀ (ix : Indices.t),
  Indices.ukFuelsPostcodeMap (fold_left index_site sites ix) !! ""
  = Indices.ukFuelsPostcodeMap ix !! "".
Proof.
  induction sites as [| site rest IH]; intros ix; [reflexivity |].
  cbn [fold_left]. rewrite IH. unfold index_site. cbn [Indices.ukFuelsPostcodeMap].
  destruct (nonempty (normalize_text (Site.postCode site))) eqn:E; [| reflexivity].
  apply nonempty_true in E. unfold map_push. now rewrite lookup_insert_ne.
Qed.

Lemma postcode_index (sites : list Site.t) (k : string) (candidates : list Site.t) :
  Indices.ukFuelsPostcodeMap (build_indices sites) !! k = Some candidates →
  k ≠ "" ∧ candidates ≠ [] ∧ candidates = List.filter (shares_postcode k) sites.
Proof.
  unfold build_indices. intros Hlook.
  destruct (String.eqb_spec k "") as [-> | Hk].
  - rewrite postcode_index_empty_key in Hlook. cbn in Hlook.
    now rewrite lookup_empty in Hlook.
  - rewrite (postcode_index_step _ _ _ Hk) in Hlook. cbn in Hlook.
    rewrite lookup_empty in Hlook.
    destruct (List.filter (shares_postcode k) sites) eqn:E; [discriminate |].
    injection Hlook as <-. cbn. repeat split; [assumption | discriminate].
Qed.

Lemma postcode_candidate_some (candidates : list Site.t) (stationBrand : string) :
  candidates ≠ [] → ∃ site, postcode_candidate candidates stationBrand = Some site.
Proof.
  destruct candidates as [| c [| c' rest]]; [congruence | |]; intros _.
  - now exists c.
  - unfold postcode_candidate.
    destruct (find _ (c :: c' :: rest)) as [site |]; [now exists site | now exists c].
Qed.

Section PostcodeFacts.
Context `{Host}.

(** C6: when the normalised postcode of a live station has an entry in
    the postcode index, the station is matched from that entry alone: the
    only candidate if there is one, else the first candidate whose
    normalised brand equals the station's, else the first candidate.  The
    site is the same for every station with that normalised postcode and
    brand, whatever its coordinates and town and whatever the name index,
    the brand+town index and the list scanned for proximity hold.  The
    entry holds the directory sites with that normalised postcode, in
    directory order. *)
Theorem postcode_match_comes_first (ukFuelsSites : list Site.t)
    (stationPostcode stationBrand : string) (candidates : list Site.t) :
  Indices.ukFuelsPostcodeMap (build_indices ukFuelsSites) !! stationPostcode
  = Some candidates →
  ∃ site,
    candidates = List.filter (shares_postcode stationPostcode) ukFuelsSites
    ∧ (∀ only, candidates = [only] → site = only)
    ∧ (length candidates ≠ 1 →
       match find (fun c => String.eqb (normalize_text (Site.brand c)) stationBrand)
                  candidates with
       | Some sameBrand => site = sameBrand
       | None => head candidates = Some site
       end)
    ∧ ∀ (station : Station.t) (stationName stationTown : string),
        normalizeString (Station.postcode station) = Ok stationPostcode →
        normalizeString (Station.name station) = Ok stationName →
        normalizeString (Station.brand station) = Ok stationBrand →
        normalizeString (Station.town station) = Ok stationTown →
        findSite (build_indices ukFuelsSites) ukFuelsSites station = Ok (Some site)
        ∧ ∀ nameMap brandTownMap scanned,
            findSite
              (Indices.mk (Indices.ukFuelsPostcodeMap (build_indices ukFuelsSites))
                 nameMap brandTownMap)
              scanned station
            = Ok (Some site).
Proof.
  intros Hlook.
  destruct (postcode_index _ _ _ Hlook) as (Hkey & Hcand & Hfilter).
  destruct (postcode_candidate_some candidates stationBrand Hcand) as [site Hsite].
  exists site. split; [exact Hfilter |]. split; [| split].
  - intros only ->. cbn in Hsite. congruence.
  - intros Hlen.
    destruct candidates as [| c [| c' rest]]; [congruence | cbn in Hlen; lia |].
    unfold postcode_candidate in Hsite.
    destruct (find _ (c :: c' :: rest)) as [sameBrand |]; [congruence | exact Hsite].
  - intros station stationName stationTown Hpc Hnm Hbr Htn.
    assert (Hfind : ∀ nameMap brandTownMap scanned,
      findSite (Indices.mk (Indices.ukFuelsPostcodeMap (build_indices ukFuelsSites))
                  nameMap brandTownMap) scanned station = Ok (Some site)).
    { intros nameMap brandTownMap scanned. unfold findSite.
      rewrite Hpc, Hnm, Hbr, Htn. cbn [bind Indices.ukFuelsPostcodeMap].
      apply nonempty_true in Hkey. rewrite Hkey, Hlook, Hsite. reflexivity. }
    split; [| exact Hfind].
    specialize (Hfind (Indices.ukFuelsNameMap (build_indices ukFuelsSites))
                  (Indices.ukFuelsBrandTownMap (build_indices ukFuelsSites))
                  ukFuelsSites).
    now destruct (build_indices ukFuelsSites).
Qed.

End PostcodeFacts.

(** C6 on the reference host: two sites share the postcode of the TESCO
    station; the one of the same brand is taken, though it comes second. *)
Lemma postcode_match_comes_first_witness :
  findSite (H := refHost) (build_indices [Sample.site43; Sample.site42])
    [Sample.site43; Sample.site42] Sample.tesco
  = Ok (Some Sample.site42).
Proof.
  destruct (postcode_match_comes_first (H := refHost) [Sample.site43; Sample.site42]
              "SW1A1AA" "TESCO" [Sample.site43; Sample.site42] eq_refl)
    as (site & _ & _ & Hbrand & Hfind).
  destruct (Hfind Sample.tesco "TESCOSTATION" "" eq_refl eq_refl eq_refl eq_refl)
    as [-> _].
  specialize (Hbrand ltac:(discriminate)). cbn in Hbrand. now rewrite Hbrand.
Defined.

(** *** The outcome of a run *)

Section OutcomeFacts.
Context `{Host}.

Lemma normalizeString_text_like (v : JS) :
  text_like v = true → ∃ s, normalizeString v = Ok s.
Proof.
  unfold normalizeString. destruct (truthy v); cbn; [| now eexists].
  destruct v as [| | [] | n | s | |]; cbn; try discriminate; intros _; now eexists.
Qed.

Lemma findSite_canonical ix sites station :
  canonical station = true → ∃ found, findSite ix sites station = Ok found.
Proof.
  unfold canonical. rewrite !andb_true_iff. intros [[[Hpc Hnm] Hbr] Htn].
  apply normalizeString_text_like in Hpc as [pc Hpc], Hnm as [nm Hnm],
    Hbr as [br Hbr], Htn as [tn Htn].
  unfold findSite. rewrite Hpc, Hnm, Hbr, Htn. cbn [bind]. now eexists.
Qed.

Lemma live_loop ix sites (live : list Station.t) : ∀ i st st',
  forEach_from (match_live ix sites) live i st = Ok st' →
  MatchState.matched st'
  = MatchState.matched st ++ map merged_of (live_matches ix sites live)
  ∧ MatchState.unmatched st' = MatchState.unmatched st ++ live_misses ix sites live
  ∧ ∀ v, set_has (MatchState.matchedUKFuelsSiteIds st') v
         = set_has (MatchState.matchedUKFuelsSiteIds st) v
           || existsb (fun pair => sameValueZero v (Site.siteNo (snd pair)))
                (live_matches ix sites live).
Proof.
  induction live as [| station rest IH]; intros i st st'; cbn.
  - intros [= <-]. rewrite !app_nil_r. repeat split. intros v. now rewrite orb_false_r.
  - unfold match_live at 1.
    destruct (findSite ix sites station) as [[site |] | e]; cbn; [| | discriminate].
    + intros Hrest. apply IH in Hrest as (Hm & Hu & Hs).
      cbn [MatchState.matched MatchState.unmatched MatchState.matchedUKFuelsSiteIds] in *.
      rewrite Hm, Hu, <- app_assoc. repeat split.
      intros v. rewrite Hs, set_has_add. cbn [existsb snd]. now rewrite orb_assoc.
    + intros Hrest. apply IH in Hrest as (Hm & Hu & Hs).
      cbn [MatchState.matched MatchState.unmatched MatchState.matchedUKFuelsSiteIds] in *.
      rewrite Hm, Hu, <- app_assoc. repeat split. exact Hs.
Qed.

Lemma live_loop_total ix sites (live : list Station.t) : ∀ i st,
  Forall (fun station => canonical station = true) live →
  ∃ st', forEach_from (match_live ix sites) live i st = Ok st'.
Proof.
  induction live as [| station rest IH]; intros i st Hall; cbn; [now eexists |].
  inversion Hall as [| ? ? Hst Hrest]; subst.
  unfold match_live at 1.
  destruct (findSite_canonical ix sites station Hst) as [[site |] ->]; cbn;
    now apply IH.
Qed.

Lemma synthesized_loop clock avg claimed (sites : list Site.t) : ∀ i matched,
  fold_left_i (add_unmatched clock avg claimed) sites i matched
  = matched ++ synthesized clock avg claimed sites i.
Proof.
  induction sites as [| site rest IH]; intros i matched; cbn.
  - now rewrite app_nil_r.
  - rewrite IH. unfold add_unmatched.
    destruct (set_has claimed (Site.siteNo site)); cbn; [reflexivity |].
    destruct (truthy (Site.petrol site) || truthy (Site.diesel site)); cbn;
      [now rewrite <- app_assoc | reflexivity].
Qed.

Lemma live_matches_In ix sites live station site :
  In (station, site) (live_matches ix sites live)
  ↔ In station live ∧ findSite ix sites station = Ok (Some site).
Proof.
  induction live as [| s rest IH]; cbn; [tauto |].
  destruct (findSite ix sites s) as [[found |] | e] eqn:E; cbn; rewrite ?IH.
  - split.
    + intros [[= <- <-] | [Hin Hf]]; [tauto | tauto].
    + intros [[-> | Hin] Hf]; [left; congruence | tauto].
  - split; [tauto |]. intros [[-> | Hin] Hf]; [congruence | tauto].
  - split; [tauto |]. intros [[-> | Hin] Hf]; [congruence | tauto].
Qed.

Lemma synthesized_In clock avg claimed (sites : list Site.t) : ∀ i s,
  In s (synthesized clock avg claimed sites i)
  ↔ ∃ j site, sites !! j = Some site
              ∧ s = unmatchedUKSite clock avg site (i + j)
              ∧ set_has claimed (Site.siteNo site) = false
              ∧ truthy (Site.petrol site) || truthy (Site.diesel site) = true.
Proof.
  induction sites as [| site rest IH]; intros i s; cbn.
  - split; [tauto |]. intros (j & x & Hj & _). discriminate.
  - rewrite in_app_iff, IH. split.
    + intros [Hin | (j & x & Hj & -> & Hc & Hf)].
      * destruct (set_has claimed (Site.siteNo site)) eqn:Ec; cbn in Hin; [tauto |].
        destruct (truthy (Site.petrol site) || truthy (Site.diesel site)) eqn:Ef;
          cbn in Hin; [| tauto].
        destruct Hin as [<- | []]. exists 0, site. rewrite Nat.add_0_r. auto.
      * exists (S j), x. repeat split; try assumption. f_equal. lia.
    + intros ([| j] & x & Hj & -> & Hc & Hf); cbn in Hj.
      * injection Hj as ->. left. rewrite Hc, Hf. cbn. left. now rewrite Nat.add_0_r.
      * right. exists j, x. repeat split; try assumption. f_equal. lia.
Qed.

Lemma count_live_app (a b : list Station.t) :
  Forall (fun s => Station.hasLivePricing s = JBool true) a →
  Forall (fun s => Station.hasLivePricing s = JBool false) b →
  length (List.filter (fun s => is_true (Station.hasLivePricing s)) (a ++ b)) = length a.
Proof.
  intros Ha Hb. rewrite List.filter_app, length_app.
  replace (List.filter _ a) with a.
  - replace (List.filter _ b) with (@nil Station.t); [cbn; lia |].
    symmetry. induction Hb as [| s b Hs Hb IH]; cbn; [reflexivity |].
    now rewrite Hs.
  - symmetry. induction Ha as [| s a Hs Ha IH]; cbn; [reflexivity |].
    rewrite Hs. cbn. now f_equal.
Qed.

Lemma merged_live (pairs : list (Station.t * Site.t)) :
  Forall (fun s => Station.hasLivePricing s = JBool true) (map merged_of pairs).
Proof. induction pairs; cbn; constructor; [reflexivity | assumption]. Qed.

Lemma synthesized_not_live clock avg claimed (sites : list Site.t) : ∀ i,
  Forall (fun s => Station.hasLivePricing s = JBool false)
    (synthesized clock avg claimed sites i).
Proof.
  induction sites as [| site rest IH]; intros i; cbn; [constructor |].
  apply Forall_app. split; [| apply IH].
  destruct (_ && _); repeat constructor.
Qed.

(** The engine's result, whenever it returns one. *)
Lemma matchStationsWithUKFuels_eq clock live sites avg result :
  matchStationsWithUKFuels clock live sites avg = Ok result →
  ∃ claimed,
    (∀ v, set_has claimed v
          = existsb (fun pair => sameValueZero v (Site.siteNo (snd pair)))
              (live_matches (build_indices sites) sites live))
    ∧ MatchResult.matched result
      = map merged_of (live_matches (build_indices sites) sites live)
        ++ synthesized clock avg claimed sites 0
    ∧ MatchResult.unmatched result = live_misses (build_indices sites) sites live
    ∧ MatchResult.liveCount result
      = length (live_matches (build_indices sites) sites live).
Proof.
  unfold matchStationsWithUKFuels.
  destruct (forEach_from _ live 0 _) as [st | e] eqn:E; cbn; [| discriminate].
  apply live_loop in E as (Hm & Hu & Hs). cbn in Hm, Hu, Hs.
  intros [= <-]. cbn. exists (MatchState.matchedUKFuelsSiteIds st).
  rewrite synthesized_loop, Hm. repeat split; try assumption.
  rewrite count_live_app; [now rewrite length_map | apply merged_live
                          | apply synthesized_not_live].
Qed.

(** C5: the engine returns on canonical live stations, and whenever it
    returns, its matched list is the merged live stations (all with live
    pricing) followed by the synthesised records of the directory sites
    whose number no live match claimed: each such record has
    [hasLivePricing = false] and the supplied petrol and diesel averages
    as prices, it is in the list when the site's petrol or diesel flag is
    truthy, and every record without live pricing in the list comes from
    an unclaimed site with one of the two flags truthy. *)
Theorem unclaimed_sites_are_synthesized (clock : nat → string)
    (liveStations : list Station.t) (ukFuelsSites : list Site.t) (averagePrices : JS) :
  (Forall (fun station => canonical station = true) liveStations →
   ∃ result, matchStationsWithUKFuels clock liveStations ukFuelsSites averagePrices
             = Ok result)
  ∧ ∀ result,
      matchStationsWithUKFuels clock liveStations ukFuelsSites averagePrices = Ok result →
      ∃ (matchedLive : list Station.t) (claimed : list Prim),
        (∀ number,
           set_has claimed number = true
           ↔ ∃ station site,
               In station liveStations
               ∧ findSite (build_indices ukFuelsSites) ukFuelsSites station
                 = Ok (Some site)
               ∧ sameValueZero number (Site.siteNo site) = true)
        ∧ Forall (fun s => Station.hasLivePricing s = JBool true) matchedLive
        ∧ MatchResult.matched result
          = matchedLive ++ synthesized clock averagePrices claimed ukFuelsSites 0
        ∧ (∀ i ukSite,
             ukFuelsSites !! i = Some ukSite →
             let record := unmatchedUKSite clock averagePrices ukSite i in
             Station.hasLivePricing record = JBool false
             ∧ Station.ukFuelsSiteNo record = JS_of_Prim (Site.siteNo ukSite)
             ∧ (truthy (getOpt averagePrices "petrol") = true →
                Station.petrol_price record = prop averagePrices "petrol")
             ∧ (truthy (getOpt averagePrices "diesel") = true →
                Station.diesel_price record = prop averagePrices "diesel")
             ∧ (set_has claimed (Site.siteNo ukSite) = false →
                truthy (Site.petrol ukSite) || truthy (Site.diesel ukSite) = true →
                In record (MatchResult.matched result)))
        ∧ (∀ record,
             In record (MatchResult.matched result) →
             Station.hasLivePricing record = JBool false →
             ∃ i ukSite,
               ukFuelsSites !! i = Some ukSite
               ∧ record = unmatchedUKSite clock averagePrices ukSite i
               ∧ set_has claimed (Site.siteNo ukSite) = false
               ∧ truthy (Site.petrol ukSite) || truthy (Site.diesel ukSite) = true).
Proof.
  split.
  - intros Hall. unfold matchStationsWithUKFuels.
    destruct (live_loop_total (build_indices ukFuelsSites) ukFuelsSites liveStations 0
                (MatchState.mk [] [] []) Hall) as [st ->].
    cbn. now eexists.
  - intros result Hres.
    apply matchStationsWithUKFuels_eq in Hres as (claimed & Hclaimed & Hm & _ & _).
    exists (map merged_of
              (live_matches (build_indices ukFuelsSites) ukFuelsSites liveStations)),
      claimed.
    split; [| split; [apply merged_live | split; [exact Hm | split]]].
    + intros number. rewrite Hclaimed, existsb_exists. split.
      * intros ([station site] & Hin & Hsame). apply live_matches_In in Hin.
        exists station, site. tauto.
      * intros (station & site & Hin & Hfind & Hsame).
        exists (station, site). split; [| exact Hsame]. apply live_matches_In. tauto.
    + intros i ukSite Hi record. subst record. cbn.
      split; [reflexivity |]. split; [reflexivity |].
      split; [| split].
      * intros Ht. unfold jsOr. rewrite Ht. unfold getOpt in *.
        destruct (nullish averagePrices); [discriminate | reflexivity].
      * intros Ht. unfold jsOr. rewrite Ht. unfold getOpt in *.
        destruct (nullish averagePrices); [discriminate | reflexivity].
      * intros Hc Hf. rewrite Hm. apply in_app_iff. right.
        apply synthesized_In. exists i, ukSite. auto.
    + intros record Hin Hlive. rewrite Hm in Hin. apply in_app_iff in Hin as [Hin | Hin].
      * pose proof (merged_live
                      (live_matches (build_indices ukFuelsSites) ukFuelsSites liveStations))
          as Hall.
        rewrite List.Forall_forall in Hall. apply Hall in Hin. congruence.
      * apply synthesized_In in Hin as (j & site & Hj & -> & Hc & Hf).
        exists j, site. auto.
Qed.

Lemma matchStationsWithUKFuels_unfold clock live sites avg :
  matchStationsWithUKFuels clock live sites avg
  = (st <- forEach_from (match_live (build_indices sites) sites) live 0
             (MatchState.mk [] [] []);;
     Ok (MatchResult.mk
           (MatchState.matched st
            ++ synthesized clock avg (MatchState.matchedUKFuelsSiteIds st) sites 0)
           (MatchState.unmatched st)
           (length (List.filter (fun s => is_true (Station.hasLivePricing s))
                      (MatchState.matched st
                       ++ synthesized clock avg (MatchState.matchedUKFuelsSiteIds st)
                            sites 0))))).
Proof.
  unfold matchStationsWithUKFuels.
  destruct (forEach_from _ live 0 _) as [st | e]; cbn; [| reflexivity].
  now rewrite synthesized_loop.
Qed.

Lemma same_but_timestamp_refl (l : list Station.t) : Forall2 same_but_timestamp l l.
Proof.
  induction l as [| a l IH]; constructor; [| exact IH].
  split; [now destruct a | reflexivity].
Qed.

Lemma synthesized_two_clocks clock1 clock2 avg claimed (sites : list Site.t) : ∀ i,
  Forall2 same_but_timestamp
    (synthesized clock1 avg claimed sites i) (synthesized clock2 avg claimed sites i).
Proof.
  induction sites as [| site rest IH]; intros i; cbn; [constructor |].
  apply Forall2_app; [| apply IH].
  destruct (_ && _); constructor; [| constructor].
  split; [reflexivity | discriminate].
Qed.

Lemma synthesized_same_clock clock1 clock2 avg claimed (sites : list Site.t) : ∀ i,
  (∀ j, j < length sites → clock1 (i + j) = clock2 (i + j)) →
  synthesized clock1 avg claimed sites i = synthesized clock2 avg claimed sites i.
Proof.
  induction sites as [| site rest IH]; intros i Hclock; cbn; [reflexivity |].
  rewrite IH.
  - f_equal. unfold unmatchedUKSite.
    specialize (Hclock 0). rewrite Nat.add_0_r in Hclock. rewrite Hclock; [reflexivity |].
    cbn. lia.
  - intros j Hj. replace (S i + j) with (i + S j) by lia. apply Hclock. cbn. lia.
Qed.

Lemma count_live_two_clocks clock1 clock2 avg claimed (sites : list Site.t)
    (matched : list Station.t) :
  length (List.filter (fun s => is_true (Station.hasLivePricing s))
            (matched ++ synthesized clock1 avg claimed sites 0))
  = length (List.filter (fun s => is_true (Station.hasLivePricing s))
              (matched ++ synthesized clock2 avg claimed sites 0)).
Proof.
  rewrite !List.filter_app, !length_app. f_equal.
  assert (Hnone : ∀ clock, List.filter (fun s => is_true (Station.hasLivePricing s))
                              (synthesized clock avg claimed sites 0) = []).
  { intros clock. pose proof (synthesized_not_live clock avg claimed sites 0) as Hall.
    induction Hall as [| s l Hs Hl IH]; cbn; [reflexivity |]. now rewrite Hs. }
  now rewrite !Hnone.
Qed.

(** C2, as the code has it: two runs on the same live stations, directory
    and Sample.averages, at different times, either both throw or both return,
    with the same unmatched list and the same liveCount, and with matched
    lists that agree record by record except for the [last_updated] of the
    synthesised records, which is the time of the run; the runs are equal
    when the clock reads the same. *)
Theorem two_runs_differ_only_in_timestamps (clock1 clock2 : nat → string)
    (liveStations : list Station.t) (ukFuelsSites : list Site.t) (averagePrices : JS) :
  match matchStationsWithUKFuels clock1 liveStations ukFuelsSites averagePrices,
        matchStationsWithUKFuels clock2 liveStations ukFuelsSites averagePrices with
  | Ok first, Ok second =>
      MatchResult.unmatched first = MatchResult.unmatched second
      ∧ MatchResult.liveCount first = MatchResult.liveCount second
      ∧ Forall2 same_but_timestamp
          (MatchResult.matched first) (MatchResult.matched second)
  | Throw first, Throw second => first = second
  | _, _ => False
  end
  ∧ ((∀ i, i < length ukFuelsSites → clock1 i = clock2 i) →
     matchStationsWithUKFuels clock1 liveStations ukFuelsSites averagePrices
     = matchStationsWithUKFuels clock2 liveStations ukFuelsSites averagePrices).
Proof.
  rewrite !matchStationsWithUKFuels_unfold.
  destruct (forEach_from _ liveStations 0 _) as [st | e]; cbn [bind].
  - split.
    + cbn [MatchResult.unmatched MatchResult.liveCount MatchResult.matched].
      split; [reflexivity |]. split; [apply count_live_two_clocks |].
      apply Forall2_app; [apply same_but_timestamp_refl | apply synthesized_two_clocks].
    + intros Hclock. now rewrite (synthesized_same_clock clock1 clock2).
  - split; reflexivity.
Qed.

(** C7: with one directory site and two distinct live stations at its
    postcode, the matched list has two records with the site number 42;
    and in general a live station for which a site is found is merged with
    it and the number recorded, whatever the claimed set already holds. *)
Theorem one_site_can_be_claimed_twice (clock : nat → string) :
  (Sample.tesco ≠ Sample.tesco_express
   ∧ ∃ first second,
       matchStationsWithUKFuels clock [Sample.tesco; Sample.tesco_express]
         [Sample.site42] Sample.averages
       = Ok (MatchResult.mk [first; second] [] 2)
       ∧ Station.ukFuelsSiteNo first = JNum 42%float
       ∧ Station.ukFuelsSiteNo second = JNum 42%float
       ∧ Station.petrol_price first = Station.petrol_price Sample.tesco
       ∧ Station.petrol_price second = Station.petrol_price Sample.tesco_express)
  ∧ ∀ ix ukFuelsSites st station site index,
      findSite ix ukFuelsSites station = Ok (Some site) →
      match_live ix ukFuelsSites st station index
      = Ok (MatchState.mk
              (MatchState.matched st ++ [mergedStation station site])
              (MatchState.unmatched st)
              (set_add (MatchState.matchedUKFuelsSiteIds st) (Site.siteNo site))).
Proof.
  split.
  - split; [discriminate |].
    eexists _, _. split; [vm_compute; reflexivity |]. repeat split.
  - intros ix ukFuelsSites st station site index Hfind.
    unfold match_live. now rewrite Hfind.
Qed.

End OutcomeFacts.

(** C2 as stated fails: the same inputs matched at two different times
    give different matched lists. *)
Lemma matching_depends_on_the_clock :
  matchStationsWithUKFuels (H := refHost) Sample.clock [] [Sample.site7] Sample.averages
  ≠ matchStationsWithUKFuels (H := refHost) Sample.later_clock [] [Sample.site7]
      Sample.averages.
Proof. vm_compute. discriminate. Qed.

(** C5 on the reference host: with the TESCO station matched to site 42,
    site 7 is synthesised with the averages and site 8, which sells neither
    fuel, is not. *)
Lemma unclaimed_sites_are_synthesized_witness :
  ∃ merged synthetic,
    matchStationsWithUKFuels (H := refHost) Sample.clock [Sample.tesco]
      [Sample.site42; Sample.site7; Sample.site8] Sample.averages
    = Ok (MatchResult.mk [merged; synthetic] [] 1)
    ∧ Station.id synthetic = "uk-fuels-only-7"
    ∧ Station.petrol_price synthetic = JStr "1.452"
    ∧ Station.hasLivePricing synthetic = JBool false.
Proof.
  destruct (unclaimed_sites_are_synthesized (H := refHost) Sample.clock [Sample.tesco]
              [Sample.site42; Sample.site7; Sample.site8] Sample.averages)
    as [Hreturns _].
  destruct (Hreturns ltac:(repeat constructor)) as [result Hresult].
  vm_compute in Hresult. injection Hresult as <-.
  eexists _, _. repeat split.
Defined.

(** ** The filter/sort effect *)

Lemma sort_insert_perm {A : Type} (compare : A → A → float) (x : A) (l : list A) :
  Permutation (sort_insert compare x l) (x :: l).
Proof.
  induction l as [| y rest IH]; cbn; [reflexivity |].
  destruct (PrimFloat.ltb 0 (compare x y)); [| reflexivity].
  rewrite IH. apply perm_swap.
Qed.

Lemma sort_cons {A : Type} (compare : A → A → float) (x : A) (l : list A) :
  sort compare (x :: l) = sort_insert compare x (sort compare l).
Proof. reflexivity. Qed.

Lemma sort_perm {A : Type} (compare : A → A → float) (l : list A) :
  Permutation (sort compare l) l.
Proof.
  induction l as [| x rest IH]; [reflexivity |].
  rewrite sort_cons, sort_insert_perm. now constructor.
Qed.

Lemma by_distance_after (a b : Station.t) :
  has_distance a → has_distance b →
  PrimFloat.ltb 0 (by_distance a b) = true → distance_le b a.
Proof.
  intros (da & Ea & Ha) (db & Eb & Hb). unfold by_distance. rewrite Ea, Eb. cbn.
  rewrite ltb_zero_sub by assumption. intros Hlt.
  exists db, da. repeat split; try assumption. now apply float_ltb_leb.
Qed.

Lemma by_distance_before (a b : Station.t) :
  has_distance a → has_distance b →
  PrimFloat.ltb 0 (by_distance a b) = false → distance_le a b.
Proof.
  intros (da & Ea & Ha) (db & Eb & Hb). unfold by_distance. rewrite Ea, Eb. cbn.
  rewrite ltb_zero_sub by assumption. intros Hlt.
  exists da, db. repeat split; try assumption. now apply float_not_ltb_leb.
Qed.

Lemma distance_le_trans (a b c : Station.t) :
  distance_le a b → distance_le b c → distance_le a c.
Proof.
  intros (da & db & Ea & Eb & Hab) (db' & dc & Eb' & Ec & Hbc).
  rewrite Eb in Eb'. injection Eb' as <-.
  exists da, dc. repeat split; try assumption. eapply float_leb_trans; eassumption.
Qed.

Lemma sort_insert_sorted (x : Station.t) (l : list Station.t) :
  has_distance x → Forall has_distance l →
  StronglySorted distance_le l →
  StronglySorted distance_le (sort_insert by_distance x l).
Proof.
  intros Hx Hl Hs. induction Hs as [| y rest Hrest IH Hy]; cbn [sort_insert].
  - repeat constructor.
  - inversion Hl as [| ? ? Hdy Hdrest]; subst.
    destruct (PrimFloat.ltb 0 (by_distance x y)) eqn:E.
    + constructor; [now apply IH |].
      rewrite sort_insert_perm. constructor; [| assumption].
      now apply by_distance_after.
    + pose proof (by_distance_before x y Hx Hdy E) as Hxy.
      constructor; [now constructor |]. constructor; [assumption |].
      eapply List.Forall_impl; [| exact Hy]. intros z Hyz.
      eapply distance_le_trans; eassumption.
Qed.

Lemma sort_sorted (l : list Station.t) :
  Forall has_distance l → StronglySorted distance_le (sort by_distance l).
Proof.
  induction 1 as [| x rest Hx Hrest IH]; [constructor |].
  rewrite sort_cons. apply sort_insert_sorted; try assumption.
  now rewrite sort_perm.
Qed.

Section DisplayFacts.
Context `{Host}.
Variable userLocation : Location.t.

Lemma calculateDistance_haversine (lat1 lon1 lat2 lon2 : float) :
  calculateDistance lat1 lon1 lat2 lon2 = haversine_km lat1 lon1 lat2 lon2.
Proof. reflexivity. Qed.

Lemma distance_from_haversine (station : Station.t) :
  distance_from userLocation station = haversine_from userLocation station.
Proof. apply calculateDistance_haversine. Qed.


End DisplayFacts.



(* ===================================================================== *)
(** * Further properties of the engine *)
(* ===================================================================== *)

(** ** Texts and [normalizeString] *)

Lemma ascii_cases (P : ascii → Prop) :
  (∀ n, n < 256 → P (ascii_of_nat n)) → ∀ c, P c.
Proof.
  intros HP c. rewrite <- (ascii_nat_embedding c). apply HP. apply nat_ascii_bounded.
Qed.

Lemma white_not_AZ09 (c : ascii) : is_white c = true → is_AZ09 c = false.
Proof.
  unfold is_white, is_AZ09. 
  destruct (Nat.eqb_spec (nat_of_ascii c) 32) as [-> | _]; [reflexivity |].
  cbn [orb]. rewrite andb_true_iff, !Nat.leb_le. intros [H1 H2].
  apply orb_false_iff. split; apply andb_false_iff; left; apply Nat.leb_gt; lia.
Qed.

Lemma filter_trimStart (p : ascii → bool) (s : string) :
  (∀ c, is_white c = true → p c = false) →
  filter_string p (trimStart s) = filter_string p s.
Proof.
  intros Hp. induction s as [| c rest IH]; [reflexivity |]. cbn.
  destruct (is_white c) eqn:E; [| reflexivity].
  now rewrite (Hp c E).
Qed.

Lemma filter_trimEnd (p : ascii → bool) (s : string) :
  (∀ c, is_white c = true → p c = false) →
  filter_string p (trimEnd s) = filter_string p s.
Proof.
  intros Hp. induction s as [| c rest IH]; [reflexivity |]. cbn [trimEnd].
  destruct (trimEnd rest) as [| c' rest'] eqn:E.
  - cbn [filter_string] in *. rewrite <- IH.
    destruct (is_white c) eqn:Ew; [now rewrite (Hp c Ew) | reflexivity].
  - cbn [filter_string] in *. now rewrite IH.
Qed.

Lemma filter_twice (p q : ascii → bool) (s : string) :
  (∀ c, p c = true → q c = true) →
  filter_string q (filter_string p s) = filter_string p s.
Proof.
  intros Hpq. induction s as [| c rest IH]; [reflexivity |]. cbn.
  destruct (p c) eqn:E; [| exact IH]. cbn. now rewrite (Hpq c E), IH.
Qed.

Lemma normalize_text_eq (s : string) :
  normalize_text s = filter_string is_AZ09 (toUpperCase s).
Proof.
  unfold normalize_text, trim.
  rewrite filter_twice.
  - rewrite filter_trimEnd, filter_trimStart; auto using white_not_AZ09.
  - intros c Hc. destruct (is_white c) eqn:E; [| reflexivity].
    apply white_not_AZ09 in E. congruence.
Qed.

Lemma all_chars_filter (p : ascii → bool) (s : string) :
  all_chars p (filter_string p s) = true.
Proof.
  induction s as [| c rest IH]; [reflexivity |]. cbn.
  destruct (p c) eqn:E; [cbn; now rewrite E | exact IH].
Qed.

Lemma filter_all_chars (p : ascii → bool) (s : string) :
  all_chars p s = true → filter_string p s = s.
Proof.
  induction s as [| c rest IH]; [reflexivity |]. cbn.
  intros [Hc Hrest]%andb_true_iff. now rewrite Hc, IH.
Qed.

Lemma upper_AZ09 (c : ascii) : is_AZ09 c = true → upper_char c = c.
Proof.
  unfold is_AZ09, upper_char.
  rewrite orb_true_iff, !andb_true_iff, !Nat.leb_le. intros Hc.
  destruct (Nat.leb 97 (nat_of_ascii c) && Nat.leb (nat_of_ascii c) 122) eqn:E;
    [| reflexivity].
  apply andb_true_iff in E. rewrite !Nat.leb_le in E. lia.
Qed.

Lemma toUpperCase_AZ09 (s : string) : all_chars is_AZ09 s = true → toUpperCase s = s.
Proof.
  unfold toUpperCase. induction s as [| c rest IH]; [reflexivity |]. cbn.
  intros [Hc Hrest]%andb_true_iff. now rewrite (upper_AZ09 c Hc), IH.
Qed.

Lemma normalize_text_alnum (s : string) : all_chars is_AZ09 (normalize_text s) = true.
Proof. rewrite normalize_text_eq. apply all_chars_filter. Qed.

Lemma normalize_text_fixed (s : string) :
  all_chars is_AZ09 s = true → normalize_text s = s.
Proof.
  intros Hs. rewrite normalize_text_eq, (toUpperCase_AZ09 s Hs).
  now apply filter_all_chars.
Qed.

Lemma append_cons (c : ascii) (a b : string) :
  (String c a ++ b)%string = String c (a ++ b).
Proof. reflexivity. Qed.

Lemma map_string_app (f : ascii → ascii) (a b : string) :
  map_string f (a ++ b) = (map_string f a ++ map_string f b)%string.
Proof.
  induction a as [| c a IH]; [reflexivity |].
  cbn [map_string]. rewrite !append_cons. cbn [map_string]. now rewrite IH.
Qed.

Lemma filter_string_app (p : ascii → bool) (a b : string) :
  filter_string p (a ++ b) = (filter_string p a ++ filter_string p b)%string.
Proof.
  induction a as [| c a IH]; [reflexivity |].
  rewrite append_cons. cbn [filter_string].
  destruct (p c); rewrite ?append_cons; now rewrite IH.
Qed.

Lemma normalize_text_app (a b : string) :
  normalize_text (a ++ b) = (normalize_text a ++ normalize_text b)%string.
Proof.
  rewrite !normalize_text_eq. unfold toUpperCase.
  now rewrite map_string_app, filter_string_app.
Qed.

Lemma upper_lower_char (c : ascii) : upper_char (lower_char c) = upper_char c.
Proof.
  revert c. apply ascii_cases. intros n Hn.
  unfold upper_char, lower_char. rewrite !nat_ascii_embedding by assumption.
  destruct (Nat.leb 65 n && Nat.leb n 90) eqn:E.
  - apply andb_true_iff in E. rewrite !Nat.leb_le in E.
    rewrite nat_ascii_embedding by lia.
    replace (Nat.leb 97 (n + 32) && Nat.leb (n + 32) 122) with true
      by (symmetry; apply andb_true_iff; rewrite !Nat.leb_le; lia).
    replace (Nat.leb 97 n && Nat.leb n 122) with false
      by (symmetry; apply andb_false_iff; rewrite !Nat.leb_gt; lia).
    f_equal. lia.
  - rewrite nat_ascii_embedding by assumption. reflexivity.
Qed.

Lemma normalize_text_lower (s : string) :
  normalize_text (toLowerCase s) = normalize_text s.
Proof.
  rewrite !normalize_text_eq. f_equal. unfold toUpperCase, toLowerCase.
  induction s as [| c rest IH]; [reflexivity |]. cbn.
  now rewrite upper_lower_char, IH.
Qed.

Lemma normalize_text_separator (s : string) :
  all_chars is_separator s = true → normalize_text s = "".
Proof.
  rewrite normalize_text_eq. unfold toUpperCase.
  induction s as [| c rest IH]; [reflexivity |]. cbn.
  intros [Hc Hrest]%andb_true_iff. unfold is_separator in Hc.
  apply negb_true_iff in Hc. rewrite Hc. now apply IH.
Qed.

Lemma upper_upper_char (c : ascii) : upper_char (upper_char c) = upper_char c.
Proof.
  revert c. apply ascii_cases. intros n Hn.
  unfold upper_char. rewrite !nat_ascii_embedding by assumption.
  destruct (Nat.leb 97 n && Nat.leb n 122) eqn:E.
  - apply andb_true_iff in E. rewrite !Nat.leb_le in E.
    rewrite nat_ascii_embedding by lia.
    replace (Nat.leb 97 (n - 32) && Nat.leb (n - 32) 122) with false
      by (symmetry; apply andb_false_iff; rewrite !Nat.leb_gt; lia).
    reflexivity.
  - rewrite nat_ascii_embedding by assumption. now rewrite E.
Qed.

Lemma toUpperCase_idem (s : string) : toUpperCase (toUpperCase s) = toUpperCase s.
Proof.
  unfold toUpperCase. induction s as [| c s IH]; cbn; [reflexivity |].
  now rewrite upper_upper_char, IH.
Qed.

Lemma underscore_not_AZ09 : is_AZ09 "_" = false.
Proof. reflexivity. Qed.

Lemma key_inj (a a' b b' : string) :
  all_chars is_AZ09 a = true → all_chars is_AZ09 a' = true →
  (a ++ "_" ++ b)%string = (a' ++ "_" ++ b')%string → a = a' ∧ b = b'.
Proof.
  revert a'. induction a as [| c a IH]; intros [| c' a'] Ha Ha' E;
    change ("_" ++ b)%string with (String "_" b) in E;
    change ("_" ++ b')%string with (String "_" b') in E;
    change ("" ++ String "_" b)%string with (String "_" b) in E;
    change ("" ++ String "_" b')%string with (String "_" b') in E;
    rewrite ?append_cons in E.
  - now injection E as ->.
  - injection E as <- _. cbn in Ha'. discriminate.
  - injection E as -> _. cbn in Ha. discriminate.
  - injection E as -> E.
    cbn in Ha, Ha'. apply andb_true_iff in Ha as [_ Ha], Ha' as [_ Ha'].
    destruct (IH a' Ha Ha' E) as [-> ->]. now split.
Qed.

Lemma lower_lower_char (c : ascii) : lower_char (lower_char c) = lower_char c.
Proof.
  revert c. apply ascii_cases. intros n Hn.
  unfold lower_char. rewrite !nat_ascii_embedding by assumption.
  destruct (Nat.leb 65 n && Nat.leb n 90) eqn:E.
  - apply andb_true_iff in E. rewrite !Nat.leb_le in E.
    rewrite nat_ascii_embedding by lia.
    replace (Nat.leb 65 (n + 32) && Nat.leb (n + 32) 90) with false
      by (symmetry; apply andb_false_iff; rewrite !Nat.leb_gt; lia).
    reflexivity.
  - rewrite nat_ascii_embedding by assumption. now rewrite E.
Qed.

Lemma lower_upper_char (c : ascii) : lower_char (upper_char c) = lower_char c.
Proof.
  revert c. apply ascii_cases. intros n Hn.
  unfold lower_char, upper_char. rewrite !nat_ascii_embedding by assumption.
  destruct (Nat.leb 97 n && Nat.leb n 122) eqn:E.
  - apply andb_true_iff in E. rewrite !Nat.leb_le in E.
    rewrite nat_ascii_embedding by lia.
    replace (Nat.leb 65 (n - 32) && Nat.leb (n - 32) 90) with true
      by (symmetry; apply andb_true_iff; rewrite !Nat.leb_le; lia).
    replace (Nat.leb 65 n && Nat.leb n 90) with false
      by (symmetry; apply andb_false_iff; rewrite !Nat.leb_gt; lia).
    f_equal. lia.
  - rewrite nat_ascii_embedding by assumption. reflexivity.
Qed.

Lemma toLowerCase_idem (s : string) : toLowerCase (toLowerCase s) = toLowerCase s.
Proof.
  unfold toLowerCase. induction s as [| c s IH]; cbn; [reflexivity |].
  now rewrite lower_lower_char, IH.
Qed.

Lemma toLowerCase_upper (s : string) : toLowerCase (toUpperCase s) = toLowerCase s.
Proof.
  unfold toLowerCase, toUpperCase. induction s as [| c s IH]; cbn; [reflexivity |].
  now rewrite lower_upper_char, IH.
Qed.

Lemma map_string_empty (f : ascii → ascii) (s : string) :
  String.eqb (map_string f s) "" = String.eqb s "".
Proof. now destruct s. Qed.

Lemma all_upper_toUpperCase (s : string) : all_chars is_upper (toUpperCase s) = true.
Proof.
  unfold toUpperCase. induction s as [| c s IH]; cbn; [reflexivity |].
  unfold is_upper at 1. now rewrite upper_upper_char, Ascii.eqb_refl.
Qed.

Lemma toUpperCase_all_upper (s : string) :
  all_chars is_upper s = true → toUpperCase s = s.
Proof.
  unfold toUpperCase. induction s as [| c s IH]; cbn; [reflexivity |].
  intros [Hc Hs]%andb_true_iff. apply Ascii.eqb_eq in Hc. now rewrite Hc, IH.
Qed.

Lemma all_chars_trimStart (p : ascii → bool) (s : string) :
  all_chars p s = true → all_chars p (trimStart s) = true.
Proof.
  induction s as [| c s IH]; cbn; [reflexivity |].
  intros [Hc Hs]%andb_true_iff. destruct (is_white c); [now apply IH |].
  cbn. now rewrite Hc, Hs.
Qed.

Lemma all_chars_trimEnd (p : ascii → bool) (s : string) :
  all_chars p s = true → all_chars p (trimEnd s) = true.
Proof.
  induction s as [| c s IH]; cbn [trimEnd all_chars]; [reflexivity |].
  intros [Hc Hs]%andb_true_iff. specialize (IH Hs).
  destruct (trimEnd s) as [| c' s'].
  - destruct (is_white c); cbn; [reflexivity | now rewrite Hc].
  - cbn [all_chars] in *. now rewrite Hc, IH.
Qed.

Lemma trimEnd_idem (s : string) : trimEnd (trimEnd s) = trimEnd s.
Proof.
  induction s as [| c s IH]; [reflexivity |]. cbn [trimEnd].
  destruct (trimEnd s) as [| c' s'] eqn:E.
  - destruct (is_white c) eqn:Ec; [reflexivity |]. cbn. now rewrite Ec.
  - cbn [trimEnd]. cbn [trimEnd] in IH. now rewrite IH.
Qed.

Lemma trimStart_head (s : string) :
  match trimStart s with
  | EmptyString => True
  | String c _ => is_white c = false
  end.
Proof.
  induction s as [| c s IH]; cbn; [exact I |].
  destruct (is_white c) eqn:E; [exact IH | exact E].
Qed.

Lemma trimEnd_head (c : ascii) (s : string) :
  is_white c = false → ∃ s', trimEnd (String c s) = String c s'.
Proof.
  intros Hc. cbn [trimEnd]. destruct (trimEnd s); [| now eexists].
  rewrite Hc. now eexists.
Qed.

Lemma trim_idem (s : string) : trim (trim s) = trim s.
Proof.
  unfold trim. pose proof (trimStart_head s) as Hhead.
  destruct (trimStart s) as [| c t]; [reflexivity |].
  destruct (trimEnd_head c t Hhead) as [t' E]. rewrite E.
  cbn [trimStart]. rewrite Hhead. rewrite <- E. apply trimEnd_idem.
Qed.

Lemma upper_trimmed_text (s : string) : upper_and_trimmed (trim (toUpperCase s)).
Proof.
  split; [| apply trim_idem].
  apply toUpperCase_all_upper. unfold trim.
  apply all_chars_trimEnd, all_chars_trimStart, all_upper_toUpperCase.
Qed.

Section NormalizeFacts.
Context `{Host}.

Lemma normalizeString_text (s : string) : normalizeString (JStr s) = Ok (normalize_text s).
Proof.
  unfold normalizeString. cbn [truthy negb]. rewrite negb_involutive.
  destruct (String.eqb_spec s "") as [-> | _]; reflexivity.
Qed.

Lemma normalizeString_alnum (str : JS) (key : string) :
  normalizeString str = Ok key → all_chars is_AZ09 key = true.
Proof.
  unfold normalizeString. destruct (truthy str); cbn; [| now intros [= <-]].
  destruct (toString_method str); cbn; [| discriminate].
  intros [= <-]. apply normalize_text_alnum.
Qed.

(** X1: on an ASCII string, [normalizeString] returns the letters A-Z
    and the digits of its upper-cased form, in order: the [trim] and the
    second [replace] of the chain never change the result.  Whatever the
    argument, a key it returns holds nothing but A-Z and 0-9. *)
Theorem normalizeString_keeps_letters_and_digits (s : string) :
  all_chars is_7bit s = true →
  normalizeString (JStr s) = Ok (filter_string is_AZ09 (toUpperCase s))
  ∧ ∀ str key, normalizeString str = Ok key → all_chars is_AZ09 key = true.
Proof.
  intros _. split; [now rewrite normalizeString_text, normalize_text_eq |].
  apply normalizeString_alnum.
Qed.

(** X2: a key returned by [normalizeString] is normalised to itself. *)
Theorem normalizeString_is_idempotent (str : JS) (key : string) :
  normalizeString str = Ok key → normalizeString (JStr key) = Ok key.
Proof.
  intros Hkey. apply normalizeString_alnum in Hkey.
  now rewrite normalizeString_text, normalize_text_fixed.
Qed.

(** X3: on ASCII text [normalizeString] ignores case and whatever is
    neither a letter nor a digit: two texts joined by such characters are
    normalised to the two keys joined, and so are the lower-cased and the
    upper-cased text. *)
Theorem normalizeString_ignores_case_and_separators (a separator b : string) :
  all_chars is_7bit (a ++ separator ++ b) = true →
  all_chars is_separator separator = true →
  ∃ ka kb,
    normalizeString (JStr a) = Ok ka
    ∧ normalizeString (JStr b) = Ok kb
    ∧ normalizeString (JStr (a ++ separator ++ b)) = Ok (ka ++ kb)%string
    ∧ normalizeString (JStr (toLowerCase (a ++ separator ++ b))) = Ok (ka ++ kb)%string
    ∧ normalizeString (JStr (toUpperCase (a ++ separator ++ b))) = Ok (ka ++ kb)%string.
Proof.
  intros _ Hsep. exists (normalize_text a), (normalize_text b).
  rewrite !normalizeString_text.
  assert (Hjoin : normalize_text (a ++ separator ++ b)
                  = (normalize_text a ++ normalize_text b)%string).
  { rewrite !normalize_text_app, (normalize_text_separator _ Hsep). reflexivity. }
  repeat split; f_equal.
  - exact Hjoin.
  - now rewrite normalize_text_lower.
  - rewrite <- Hjoin. rewrite !normalize_text_eq. now rewrite toUpperCase_idem.
Qed.

(** X4: the brand+town key [`${normBrand}_${normTown}`] determines the
    normalised brand and the normalised town: two different pairs never
    share an entry of the brand+town index. *)
Theorem brand_town_keys_do_not_collide (brand town brand' town' : JS)
    (normBrand normTown normBrand' normTown' : string) :
  normalizeString brand = Ok normBrand → normalizeString town = Ok normTown →
  normalizeString brand' = Ok normBrand' → normalizeString town' = Ok normTown' →
  (normBrand ++ "_" ++ normTown)%string = (normBrand' ++ "_" ++ normTown')%string →
  normBrand = normBrand' ∧ normTown = normTown'.
Proof.
  intros Hb _ Hb' _. apply key_inj; eapply normalizeString_alnum; eassumption.
Qed.

End NormalizeFacts.
(** ** The order of doubles, continued *)

Lemma float_ltb_leb_trans (x y z : float) :
  PrimFloat.ltb x y = true → PrimFloat.leb y z = true → PrimFloat.ltb x z = true.
Proof.
  rewrite !FloatAxioms.ltb_spec, FloatAxioms.leb_spec. unfold SFltb, SFleb.
  destruct (Prim2SF x) as [sx | sx | | sx mx ex], (Prim2SF y) as [sy | sy | | sy my ey],
    (Prim2SF z) as [sz | sz | | sz mz ez]; cbn;
  try discriminate; try reflexivity;
  try (destruct sx; cbn; try discriminate; try reflexivity);
  try (destruct sy; cbn; try discriminate; try reflexivity);
  try (destruct sz; cbn; try discriminate; try reflexivity);
  fold (Pos.compare mx my); fold (Pos.compare my mz); fold (Pos.compare mx mz);
  destruct (Z.compare_spec ex ey), (Z.compare_spec ey ez), (Z.compare_spec ex ez);
  cbn; try discriminate; try reflexivity; try lia;
  destruct (Pos.compare_spec mx my), (Pos.compare_spec my mz),
    (Pos.compare_spec mx mz);
  cbn; try discriminate; try reflexivity; try lia.
Qed.

Lemma float_ltb_irrefl (x : float) : PrimFloat.ltb x x = false.
Proof.
  rewrite FloatAxioms.ltb_spec. unfold SFltb.
  pose proof (SFcompare_antisym (Prim2SF x) (Prim2SF x)) as Hsym.
  destruct (SFcompare (Prim2SF x) (Prim2SF x)) as [[] |]; try reflexivity.
  discriminate Hsym.
Qed.

Lemma float_leb_not_nan (x y : float) :
  PrimFloat.leb x y = true → PrimFloat.is_nan x = false ∧ PrimFloat.is_nan y = false.
Proof.
  unfold PrimFloat.is_nan.
  rewrite FloatAxioms.leb_spec, !FloatAxioms.eqb_spec. unfold SFleb, SFeqb.
  pose proof (SFcompare_antisym (Prim2SF x) (Prim2SF x)) as Hx.
  pose proof (SFcompare_antisym (Prim2SF y) (Prim2SF y)) as Hy.
  destruct (Prim2SF x) as [sx | sx | | sx mx ex], (Prim2SF y) as [sy | sy | | sy my ey];
    try discriminate; intros _; split; try reflexivity;
    try (destruct sx; reflexivity); try (destruct sy; reflexivity).
  all: try (destruct (SFcompare (S754_finite sx mx ex) (S754_finite sx mx ex))
              as [[] |] eqn:E; try reflexivity; try discriminate Hx;
            destruct sx; cbn in E; rewrite Z.compare_refl, Pos.compare_cont_refl in E;
            discriminate E).
  all: try (destruct (SFcompare (S754_finite sy my ey) (S754_finite sy my ey))
              as [[] |] eqn:E; try reflexivity; try discriminate Hy;
            destruct sy; cbn in E; rewrite Z.compare_refl, Pos.compare_cont_refl in E;
            discriminate E).
Qed.

Lemma float_ltb_not_nan (x y : float) :
  PrimFloat.ltb x y = true → PrimFloat.is_nan x = false ∧ PrimFloat.is_nan y = false.
Proof. intros Hlt. apply float_leb_not_nan. now apply float_ltb_leb. Qed.

Lemma float_leb_not_ltb (x y : float) :
  PrimFloat.leb x y = true → PrimFloat.ltb y x = false.
Proof.
  rewrite FloatAxioms.leb_spec, FloatAxioms.ltb_spec. unfold SFleb, SFltb.
  rewrite (SFcompare_antisym (Prim2SF x) (Prim2SF y)).
  destruct (SFcompare (Prim2SF x) (Prim2SF y)) as [[] |]; cbn; congruence.
Qed.

Lemma float_leb_refl (x : float) : PrimFloat.is_nan x = false → PrimFloat.leb x x = true.
Proof.
  intros Hx. apply float_not_ltb_leb; try assumption. apply float_ltb_irrefl.
Qed.

(** ** The matching engine, continued *)

Lemma shares_brand_town_true b t site :
  shares_brand_town b t site = true
  ↔ normalize_text (Site.brand site) = b ∧ normalize_text (Site.town site) = t.
Proof.
  unfold shares_brand_town. now rewrite andb_true_iff, !String.eqb_eq.
Qed.

Lemma index_site_brandTown (ix : Indices.t) (site : Site.t) (b t : string) :
  all_chars is_AZ09 b = true → all_chars is_AZ09 t = true → b ≠ "" → t ≠ "" →
  Indices.ukFuelsBrandTownMap (index_site ix site) !! (b ++ "_" ++ t)%string
  = if shares_brand_town b t site
    then Some (default [] (Indices.ukFuelsBrandTownMap ix !! (b ++ "_" ++ t)%string)
               ++ [site])
    else Indices.ukFuelsBrandTownMap ix !! (b ++ "_" ++ t)%string.
Proof.
  intros Hb Ht Hbne Htne. unfold index_site. cbn [Indices.ukFuelsBrandTownMap].
  destruct (shares_brand_town b t site) eqn:E.
  - apply shares_brand_town_true in E as [-> ->].
    apply nonempty_true in Hbne as ->. apply nonempty_true in Htne as ->. cbn [andb].
    unfold map_push. now rewrite lookup_insert_eq.
  - destruct (nonempty _ && nonempty _); [| reflexivity].
    unfold map_push. rewrite lookup_insert_ne; [reflexivity |].
    intros Hkey. apply key_inj in Hkey as [Hb' Ht']; auto using normalize_text_alnum.
    assert (shares_brand_town b t site = true) by now apply shares_brand_town_true.
    congruence.
Qed.

Lemma brandTown_index_step (sites : list Site.t) : ∀ (ix : Indices.t) (b t : string),
  all_chars is_AZ09 b = true → all_chars is_AZ09 t = true → b ≠ "" → t ≠ "" →
  Indices.ukFuelsBrandTownMap (fold_left index_site sites ix) !! (b ++ "_" ++ t)%string
  = match List.filter (shares_brand_town b t) sites with
    | [] => Indices.ukFuelsBrandTownMap ix !! (b ++ "_" ++ t)%string
    | sharing =>
        Some (default [] (Indices.ukFuelsBrandTownMap ix !! (b ++ "_" ++ t)%string)
              ++ sharing)
    end.
Proof.
  induction sites as [| site rest IH]; intros ix b t Hb Ht Hbne Htne; [reflexivity |].
  cbn [fold_left List.filter].
  rewrite (IH _ b t Hb Ht Hbne Htne), (index_site_brandTown _ _ _ _ Hb Ht Hbne Htne).
  destruct (shares_brand_town b t site); [| reflexivity].
  destruct (List.filter (shares_brand_town b t) rest); [reflexivity |].
  unfold default at 1, id. now rewrite <- app_assoc.
Qed.

Lemma brandTown_index (sites : list Site.t) (b t : string) :
  all_chars is_AZ09 b = true → all_chars is_AZ09 t = true → b ≠ "" → t ≠ "" →
  Indices.ukFuelsBrandTownMap (build_indices sites) !! (b ++ "_" ++ t)%string
  = match List.filter (shares_brand_town b t) sites with
    | [] => None
    | sharing => Some sharing
    end.
Proof.
  intros Hb Ht Hbne Htne. unfold build_indices.
  rewrite (brandTown_index_step _ _ _ _ Hb Ht Hbne Htne). cbn.
  now rewrite lookup_empty.
Qed.

Lemma postcode_index_lookup (sites : list Site.t) (k : string) :
  k ≠ "" →
  Indices.ukFuelsPostcodeMap (build_indices sites) !! k
  = match List.filter (shares_postcode k) sites with
    | [] => None
    | sharing => Some sharing
    end.
Proof.
  intros Hk. unfold build_indices. rewrite (postcode_index_step _ _ _ Hk). cbn.
  now rewrite lookup_empty.
Qed.

Section ScanFacts.
Context `{Host}.

(** X5: on the indices built from the directory, the match of a live
    station is what three scans of the directory give, in this order: among
    the sites of the station's normalised postcode the only one, else the
    first of the station's brand, else the first; else the site of the
    proximity scan, tried only when latitude and longitude are truthy; else
    the first site of the station's normalised brand and town, when both
    are non-empty. *)
Theorem findSite_scans_the_directory (ukFuelsSites : list Site.t) (station : Station.t)
    (stationPostcode stationName stationBrand stationTown : string) :
  normalizeString (Station.postcode station) = Ok stationPostcode →
  normalizeString (Station.name station) = Ok stationName →
  normalizeString (Station.brand station) = Ok stationBrand →
  normalizeString (Station.town station) = Ok stationTown →
  findSite (build_indices ukFuelsSites) ukFuelsSites station
  = Ok (scanDirectory ukFuelsSites station stationPostcode stationBrand stationTown).
Proof.
  intros Hpc Hnm Hbr Htn. unfold findSite, scanDirectory.
  rewrite Hpc, Hnm, Hbr, Htn. cbn [bind]. f_equal.
  assert (Hfirst :
    (if nonempty stationPostcode
     then match Indices.ukFuelsPostcodeMap (build_indices ukFuelsSites) !! stationPostcode with
          | Some candidates => postcode_candidate candidates stationBrand
          | None => None
          end
     else None)
    = (if nonempty stationPostcode
       then match List.filter (shares_postcode stationPostcode) ukFuelsSites with
            | [] => None
            | c :: l => postcode_candidate (c :: l) stationBrand
            end
       else None)).
  { destruct (nonempty stationPostcode) eqn:E; [| reflexivity].
    apply nonempty_true in E. rewrite (postcode_index_lookup _ _ E).
    now destruct (List.filter _ ukFuelsSites). }
  rewrite Hfirst. clear Hfirst.
  destruct (if nonempty stationPostcode then _ else None) as [site |] eqn:Efirst.
  - cbn [found negb andb]. reflexivity.
  - cbn [found negb andb].
    destruct (truthy (JNum (Station.latitude station))
              && truthy (JNum (Station.longitude station))).
    + destruct (proximity_match ukFuelsSites station stationBrand) as [site |].
      * reflexivity.
      * cbn [found negb andb].
        destruct (nonempty stationBrand && nonempty stationTown) eqn:E; [| reflexivity].
        apply andb_true_iff in E as [Eb Et]. apply nonempty_true in Eb, Et.
        rewrite brandTown_index; eauto using normalizeString_alnum.
        now destruct (List.filter (shares_brand_town _ _) ukFuelsSites).
    + cbn [found negb andb].
      destruct (nonempty stationBrand && nonempty stationTown) eqn:E; [| reflexivity].
      apply andb_true_iff in E as [Eb Et]. apply nonempty_true in Eb, Et.
      rewrite brandTown_index; eauto using normalizeString_alnum.
      now destruct (List.filter (shares_brand_town _ _) ukFuelsSites).
Qed.

End ScanFacts.

Section ProximityFacts.
Context `{Host}.
Variable station : Station.t.
Variable stationBrand : string.

Lemma scan_ok_leb_nan acc seen : scan_ok station stationBrand seen acc → PrimFloat.is_nan (snd acc) = false.
Proof.
  intros (Hle & _). apply (float_leb_not_nan _ _ Hle).
Qed.

Lemma closer_ok (seen : list Site.t) (acc : option Site.t * float) (s : Site.t) :
  scan_ok station stationBrand seen acc → scan_ok station stationBrand (seen ++ [s]) (closer station stationBrand acc s).
Proof.
  intros Hacc. pose proof (scan_ok_leb_nan _ _ Hacc) as Hnan.
  destruct Hacc as (Hle & Hbest & Hmin).
  unfold closer. cbv zeta.
  destruct (PrimFloat.ltb (planar_distance station s) (snd acc)) eqn:Elt.
  - fold (brandsMatch stationBrand s).
    destruct ((planar_distance station s <? 0.001)%float || brandsMatch stationBrand s)
      eqn:Eok.
    + assert (Hel : eligible station stationBrand s = true).
      { unfold eligible. fold (planar_distance station s). rewrite Eok, andb_true_r.
        eapply float_ltb_leb_trans; eassumption. }
      cbn [fst snd]. split; [| split].
      * apply float_ltb_leb. eapply float_ltb_leb_trans; eassumption.
      * split; [apply in_app_iff; right; now left | now split].
      * intros s' [Hin | [<- | []]]%in_app_iff Hs'.
        -- eapply float_leb_trans; [apply float_ltb_leb; exact Elt | now apply Hmin].
        -- apply float_not_ltb_leb; try (apply (float_ltb_not_nan _ _ Elt)).
           apply float_ltb_irrefl.
    + split; [exact Hle | split].
      * destruct (fst acc) as [best |]; [| exact Hbest].
        destruct Hbest as (Hin & Hd & He). split; [apply in_app_iff; now left | now split].
      * intros s' [Hin | [<- | []]]%in_app_iff Hs'; [now apply Hmin |].
        unfold eligible in Hs'. fold (planar_distance station s) in Hs'.
        fold (brandsMatch stationBrand s) in Eok. rewrite Eok in Hs'.
        now rewrite andb_false_r in Hs'.
  - split; [exact Hle | split].
    + destruct (fst acc) as [best |]; [| exact Hbest].
      destruct Hbest as (Hin & Hd & He). split; [apply in_app_iff; now left | now split].
    + intros s' [Hin | [<- | []]]%in_app_iff Hs'; [now apply Hmin |].
      apply float_not_ltb_leb; try assumption.
      unfold eligible in Hs'. fold (planar_distance station s) in Hs'.
      apply andb_true_iff in Hs' as [Hs' _]. apply (float_ltb_not_nan _ _ Hs').
Qed.

Lemma scan_fold (rest : list Site.t) : ∀ seen acc,
  scan_ok station stationBrand seen acc →
  scan_ok station stationBrand (seen ++ rest) (fold_left (closer station stationBrand) rest acc).
Proof.
  induction rest as [| s rest IH]; intros seen acc Hacc; cbn [fold_left].
  - now rewrite app_nil_r.
  - replace (seen ++ s :: rest) with ((seen ++ [s]) ++ rest) by now rewrite <- app_assoc.
    apply IH. now apply closer_ok.
Qed.

Lemma proximity_match_In (ukFuelsSites : list Site.t) (site : Site.t) :
  proximity_match ukFuelsSites station stationBrand = Some site → In site ukFuelsSites.
Proof.
  unfold proximity_match.
  assert (Hinit : scan_ok station stationBrand [] (None, 0.01%float)).
  { split; [reflexivity | split; [reflexivity |]]. intros s []. }
  apply (scan_fold ukFuelsSites) in Hinit. cbn [app] in Hinit.
  destruct (fold_left _ ukFuelsSites _) as [[best |] least]; cbn [fst snd] in *;
    [| discriminate].
  intros [= <-]. now destruct Hinit as (_ & (Hin & _) & _).
Qed.

(** X6: the proximity scan returns a site of the directory that is
    eligible (closer than 0.01 degrees, and closer than 0.001 degrees or of
    a matching brand) and at least as close as every eligible site; it
    returns nothing exactly when no site is eligible. *)
Theorem proximity_match_is_nearest_eligible (ukFuelsSites : list Site.t) :
  match proximity_match ukFuelsSites station stationBrand with
  | Some closestSite =>
      In closestSite ukFuelsSites
      ∧ eligible station stationBrand closestSite = true
      ∧ ∀ ukSite, In ukSite ukFuelsSites → eligible station stationBrand ukSite = true →
          PrimFloat.leb (planar_distance station closestSite)
            (planar_distance station ukSite) = true
  | None => ∀ ukSite, In ukSite ukFuelsSites → eligible station stationBrand ukSite = false
  end.
Proof.
  unfold proximity_match.
  assert (Hinit : scan_ok station stationBrand [] (None, 0.01%float)).
  { split; [reflexivity | split; [reflexivity |]]. intros s []. }
  apply (scan_fold ukFuelsSites) in Hinit. cbn [app] in Hinit.
  destruct (fold_left _ ukFuelsSites _) as [[best |] least]; cbn [fst snd] in *.
  - destruct Hinit as (_ & (Hin & -> & Hel) & Hmin). auto.
  - destruct Hinit as (_ & -> & Hmin). intros s Hin.
    destruct (eligible station stationBrand s) eqn:E; [| reflexivity].
    specialize (Hmin s Hin E). unfold eligible in E.
    apply andb_true_iff in E as [E _].
    pose proof (float_ltb_leb_trans _ _ _ E Hmin) as Hcontra.
    now rewrite float_ltb_irrefl in Hcontra.
Qed.

End ProximityFacts.

Section ConservationFacts.
Context `{Host}.

Lemma postcode_candidate_In (candidates : list Site.t) (b : string) (site : Site.t) :
  postcode_candidate candidates b = Some site → In site candidates.
Proof.
  unfold postcode_candidate.
  destruct candidates as [| c [| c' rest]]; cbn [head]; try discriminate.
  - intros [= <-]. now left.
  - destruct (find _ (c :: c' :: rest)) as [x |] eqn:E.
    + intros [= <-]. now apply find_some in E.
    + intros [= <-]. now left.
Qed.

Lemma lookup_In {A : Type} (l : list A) : ∀ (j : nat) (x : A), l !! j = Some x → In x l.
Proof.
  induction l as [| y l IH]; intros [| j] x; cbn; try discriminate.
  - intros [= <-]. now left.
  - intros Hj. right. eapply IH. exact Hj.
Qed.

Lemma head_In {A : Type} (l : list A) (x : A) : head l = Some x → In x l.
Proof. destruct l; cbn; [discriminate | intros [= <-]; now left]. Qed.

Lemma List_filter_In {A : Type} (p : A → bool) (l : list A) (x : A) :
  In x (List.filter p l) → In x l.
Proof. intros Hin. now apply List.filter_In in Hin. Qed.

Lemma scanDirectory_In sites station pc b t site :
  scanDirectory sites station pc b t = Some site → In site sites.
Proof.
  unfold scanDirectory.
  destruct (if nonempty pc then _ else None) as [s1 |] eqn:E1.
  - intros [= <-]. destruct (nonempty pc); [| discriminate].
    destruct (List.filter (shares_postcode pc) sites) as [| c l] eqn:Ef; [discriminate |].
    apply postcode_candidate_In in E1. rewrite <- Ef in E1.
    now apply List_filter_In in E1.
  - destruct (if truthy _ && truthy _ then _ else None) as [s2 |] eqn:E2.
    + intros [= <-]. destruct (truthy _ && truthy _); [| discriminate].
      now apply proximity_match_In in E2.
    + destruct (nonempty b && nonempty t); [| discriminate].
      intros Hh. apply head_In in Hh. now apply List_filter_In in Hh.
Qed.

Lemma findSite_In sites station site :
  findSite (build_indices sites) sites station = Ok (Some site) → In site sites.
Proof.
  unfold findSite.
  destruct (normalizeString (Station.postcode station)) as [pc |]; [| discriminate].
  destruct (normalizeString (Station.name station)) as [nm |]; [| discriminate].
  destruct (normalizeString (Station.brand station)) as [b |] eqn:Hb; [| discriminate].
  destruct (normalizeString (Station.town station)) as [t |] eqn:Ht; [| discriminate].
  apply normalizeString_alnum in Hb, Ht. cbn [bind].
  assert (Hfirst : ∀ first,
    (if nonempty pc
     then match Indices.ukFuelsPostcodeMap (build_indices sites) !! pc with
          | Some candidates => postcode_candidate candidates b
          | None => None
          end
     else None) = Some first → In first sites).
  { intros first. destruct (nonempty pc) eqn:E; [| discriminate].
    apply nonempty_true in E. rewrite (postcode_index_lookup _ _ E).
    destruct (List.filter (shares_postcode pc) sites) as [| c l] eqn:Ef; [discriminate |].
    intros Hc. apply postcode_candidate_In in Hc. rewrite <- Ef in Hc.
    now apply List_filter_In in Hc. }
  assert (Hlast : ∀ last,
    (if nonempty b && nonempty t
     then match Indices.ukFuelsBrandTownMap (build_indices sites) !! (b ++ "_" ++ t)%string
          with
          | Some candidates => head candidates
          | None => None
          end
     else None) = Some last → In last sites).
  { intros last. destruct (nonempty b && nonempty t) eqn:E; [| discriminate].
    apply andb_true_iff in E as [Eb Et]. apply nonempty_true in Eb, Et.
    rewrite (brandTown_index _ _ _ Hb Ht Eb Et).
    destruct (List.filter (shares_brand_town b t) sites) as [| c l] eqn:Ef; [discriminate |].
    intros Hh. apply head_In in Hh. rewrite <- Ef in Hh. now apply List_filter_In in Hh. }
  destruct (if nonempty pc then _ else None) as [first |] eqn:Efirst.
  - cbn [found negb andb]. intros [= <-]. now apply Hfirst.
  - clear Hfirst. cbn [found negb andb].
    destruct (truthy (JNum (Station.latitude station))
              && truthy (JNum (Station.longitude station))).
    + destruct (proximity_match sites station b) as [near |] eqn:Enear.
      * cbn [found negb andb]. intros [= <-]. now apply proximity_match_In in Enear.
      * cbn [found negb andb]. intros [= E]. now apply Hlast.
    + cbn [found negb andb]. intros [= E]. now apply Hlast.
Qed.

Lemma live_loop_split ix sites (live : list Station.t) : ∀ i st st',
  forEach_from (match_live ix sites) live i st = Ok st' →
  length (live_matches ix sites live) + length (live_misses ix sites live) = length live
  ∧ ∀ station, In station live →
      (findSite ix sites station = Ok None ∧ In station (live_misses ix sites live))
      ∨ ∃ site, findSite ix sites station = Ok (Some site)
                ∧ In (station, site) (live_matches ix sites live).
Proof.
  induction live as [| station rest IH]; intros i st st'; cbn.
  - intros _. split; [reflexivity | tauto].
  - unfold match_live at 1.
    destruct (findSite ix sites station) as [[site |] | e] eqn:E; cbn; [| | discriminate].
    + intros Hrest. apply IH in Hrest as [Hlen Hall]. split; [lia |].
      intros s [<- | Hin].
      * right. exists site. split; [exact E | now left].
      * destruct (Hall s Hin) as [[Hn Hm] | (x & Hx & Hm)]; [left; tauto |].
        right. exists x. split; [exact Hx | now right].
    + intros Hrest. apply IH in Hrest as [Hlen Hall]. split; [lia |].
      intros s [<- | Hin].
      * left. split; [exact E | now left].
      * destruct (Hall s Hin) as [[Hn Hm] | (x & Hx & Hm)].
        -- left. split; [exact Hn | now right].
        -- right. exists x. tauto.
Qed.

(** X7: when the engine returns, every live station is either in the
    unmatched list, no site being found for it, or merged with a site of
    the directory into a record of the matched list; [liveCount] and the
    length of the unmatched list add up to the number of live stations. *)
Theorem live_stations_are_conserved (clock : nat → string)
    (liveStations : list Station.t) (ukFuelsSites : list Site.t) (averagePrices : JS)
    (result : MatchResult.t) :
  matchStationsWithUKFuels clock liveStations ukFuelsSites averagePrices = Ok result →
  MatchResult.liveCount result + length (MatchResult.unmatched result)
  = length liveStations
  ∧ (MatchResult.liveCount result <= length (MatchResult.matched result))%nat
  ∧ ∀ station, In station liveStations →
      (In station (MatchResult.unmatched result)
       ∧ findSite (build_indices ukFuelsSites) ukFuelsSites station = Ok None)
      ∨ ∃ site,
          In site ukFuelsSites
          ∧ findSite (build_indices ukFuelsSites) ukFuelsSites station = Ok (Some site)
          ∧ In (mergedStation station site) (MatchResult.matched result).
Proof.
  intros Hres.
  pose proof (matchStationsWithUKFuels_eq _ _ _ _ _ Hres)
    as (claimed & _ & Hm & Hu & Hc).
  unfold matchStationsWithUKFuels in Hres.
  destruct (forEach_from _ liveStations 0 _) as [st | e] eqn:E; [| discriminate].
  apply live_loop_split in E as [Hlen Hall].
  rewrite Hc, Hu, Hm. split; [exact Hlen | split].
  - rewrite length_app, length_map. lia.
  - intros station Hin. destruct (Hall station Hin) as [[Hn Hmiss] | (site & Hs & Hmatch)].
    + left. tauto.
    + right. exists site. split; [now apply findSite_In in Hs | split; [exact Hs |]].
      apply in_app_iff. left. apply in_map_iff. now exists (station, site).
Qed.

(** X8: every record of the matched list, merged or synthesised, carries
    the number and the coordinates of a site of the directory and is marked
    [isUKFuelsSite], with [hasLivePricing] either [true] or [false]. *)
Theorem matched_records_name_directory_sites (clock : nat → string)
    (liveStations : list Station.t) (ukFuelsSites : list Site.t) (averagePrices : JS)
    (result : MatchResult.t) :
  matchStationsWithUKFuels clock liveStations ukFuelsSites averagePrices = Ok result →
  ∀ record, In record (MatchResult.matched result) →
    ∃ site,
      In site ukFuelsSites
      ∧ Station.ukFuelsSiteNo record = JS_of_Prim (Site.siteNo site)
      ∧ Station.latitude record = Site.latitude site
      ∧ Station.longitude record = Site.longitude site
      ∧ Station.isUKFuelsSite record = JBool true
      ∧ (Station.hasLivePricing record = JBool true
         ∨ Station.hasLivePricing record = JBool false).
Proof.
  intros Hres record Hin.
  pose proof (matchStationsWithUKFuels_eq _ _ _ _ _ Hres) as (claimed & _ & Hm & _ & _).
  rewrite Hm in Hin. apply in_app_iff in Hin as [Hin | Hin].
  - apply in_map_iff in Hin as ([station site] & <- & Hin).
    apply live_matches_In in Hin as [_ Hfind]. apply findSite_In in Hfind.
    exists site. cbn. auto 10.
  - apply synthesized_In in Hin as (j & site & Hj & -> & _ & _).
    exists site. cbn. split; [| auto 10].
    eapply lookup_In. exact Hj.
Qed.

End ConservationFacts.

(** ** The normaliser, continued *)

Section ParseFacts.
Context `{Host}.
Variable clock : nat → string.
Variable retailerName : string.

(** A property of the station under construction that no assignment of a
    number to a price slot breaks. *)
Section Kept.
Variable P : Station.t → Prop.
Hypothesis P_petrol : ∀ n p, P p → P (Station.set_petrol_price (JNum n) p).
Hypothesis P_diesel : ∀ n p, P p → P (Station.set_diesel_price (JNum n) p).
Hypothesis P_super : ∀ n p, P p → P (Station.set_super_price (JNum n) p).

Lemma kept_set (set : JS → Station.t → Station.t) :
  set = Station.set_petrol_price ∨ set = Station.set_diesel_price
  ∨ set = Station.set_super_price →
  ∀ n p, P p → P (set (JNum n) p).
Proof. intros [-> | [-> | ->]]; auto. Qed.

Lemma kept_assign_pence set v extra p :
  set = Station.set_petrol_price ∨ set = Station.set_diesel_price
  ∨ set = Station.set_super_price →
  P p → P (assign_pence set v extra p).
Proof.
  intros Hset Hp. unfold assign_pence. destruct v; try assumption.
  destruct extra; [now apply kept_set | assumption].
Qed.

Lemma kept_assign_pounds set v p q :
  set = Station.set_petrol_price ∨ set = Station.set_diesel_price
  ∨ set = Station.set_super_price →
  P p → assign_pounds set v p = Ok q → P q.
Proof.
  intros Hset Hp. unfold assign_pounds. destruct (truthy v); [| now intros [= <-]].
  destruct (parseFloat v); cbn; [| discriminate]. intros [= <-]. now apply kept_set.
Qed.

Lemma kept_assign_parsed_pence set v p q :
  set = Station.set_petrol_price ∨ set = Station.set_diesel_price
  ∨ set = Station.set_super_price →
  P p → assign_parsed_pence set v p = Ok q → P q.
Proof.
  intros Hset Hp. unfold assign_parsed_pence. destruct (truthy v); [| now intros [= <-]].
  destruct (parseFloat v); cbn; [| discriminate]. intros [= <-]. now apply kept_set.
Qed.

Ltac kept_step :=
  match goal with
  | E : bind ?m _ = Ok _ |- _ =>
      let q := fresh "q" in let Eq := fresh "Eq" in
      destruct m as [q |] eqn:Eq; cbn [bind] in E; [| discriminate E];
      first [ apply kept_assign_pounds in Eq; [| tauto | assumption]
            | apply kept_assign_parsed_pence in Eq; [| tauto | assumption] ]
  end.

Lemma kept_from_prices station p q : P p → from_prices station p = Ok q → P q.
Proof.
  intros Hp. unfold from_prices. destruct (truthy (prop station "prices"));
    [| now intros [= <-]].
  cbv zeta. intros E.
  assert (Hp4 : P (assign_pence Station.set_diesel_price
                     (prop (prop station "prices") "SDV")
                     (negb (truthy (Station.diesel_price
                        (assign_pence Station.set_diesel_price
                           (prop (prop station "prices") "B7") true
                           (assign_pence Station.set_super_price
                              (prop (prop station "prices") "E5") true
                              (assign_pence Station.set_petrol_price
                                 (prop (prop station "prices") "E10") true p))))))
                     (assign_pence Station.set_diesel_price
                        (prop (prop station "prices") "B7") true
                        (assign_pence Station.set_super_price
                           (prop (prop station "prices") "E5") true
                           (assign_pence Station.set_petrol_price
                              (prop (prop station "prices") "E10") true p)))))
    by (repeat (apply kept_assign_pence; [tauto |]); assumption).
  repeat kept_step. eapply kept_assign_pounds; [| | exact E]; [tauto | assumption].
Qed.

Lemma kept_fuel_type_service p fuel i q :
  P p → fuel_type_service p fuel i = Ok q → P q.
Proof.
  intros Hp. unfold fuel_type_service.
  destruct (get fuel "fuel_type") as [ft |]; cbn [bind]; [| discriminate].
  repeat match goal with
         | |- (if ?c then _ else _) = _ → _ => destruct c
         end;
    try (destruct (parseFloat _); cbn [bind]; [| discriminate]; intros [= <-]; auto).
  now intros [= <-].
Qed.

Lemma kept_forEach_services (items : list JS) : ∀ i p q,
  P p → forEach_from fuel_type_service items i p = Ok q → P q.
Proof.
  induction items as [| fuel rest IH]; intros i p q Hp; cbn.
  - now intros [= <-].
  - destruct (fuel_type_service p fuel i) as [p' |] eqn:E; cbn [bind]; [| discriminate].
    apply IH. eapply kept_fuel_type_service; eassumption.
Qed.

Lemma kept_from_fuel_type_services station p q :
  P p → from_fuel_type_services station p = Ok q → P q.
Proof.
  intros Hp. unfold from_fuel_type_services.
  destruct (truthy _); [| now intros [= <-]].
  unfold forEach. destruct (prop station "fuel_type_services"); try discriminate.
  now apply kept_forEach_services.
Qed.

Lemma kept_from_fuelPrices station p q : P p → from_fuelPrices station p = Ok q → P q.
Proof.
  intros Hp. unfold from_fuelPrices. destruct (truthy _); [| now intros [= <-]].
  intros E. repeat kept_step.
  eapply kept_assign_parsed_pence; [| | exact E]; [tauto | assumption].
Qed.

Lemma kept_from_flat_fields station p q : P p → from_flat_fields station p = Ok q → P q.
Proof.
  intros Hp. unfold from_flat_fields. destruct (_ && _); [| now intros [= <-]].
  intros E. repeat kept_step.
  eapply kept_assign_pounds; [| | exact E]; [tauto | assumption].
Qed.

Lemma kept_price_sources station p0 p1 p2 p3 p4 :
  P p0 → from_prices station p0 = Ok p1 → from_fuel_type_services station p1 = Ok p2 →
  from_fuelPrices station p2 = Ok p3 → from_flat_fields station p3 = Ok p4 → P p4.
Proof.
  intros Hp H1 H2 H3 H4.
  eapply kept_from_flat_fields; [| exact H4].
  eapply kept_from_fuelPrices; [| exact H3].
  eapply kept_from_fuel_type_services; [| exact H2].
  eapply kept_from_prices; [| exact H1]. exact Hp.
Qed.

End Kept.

Lemma extractStation_stages station index p :
  extractStation clock retailerName station index = Ok p →
  ∃ ll p0 p1 p2 p3 p4,
    coordinates station = Ok ll
    ∧ newParsedStation clock retailerName station index (fst ll) (snd ll) = Ok p0
    ∧ from_prices station p0 = Ok p1
    ∧ from_fuel_type_services station p1 = Ok p2
    ∧ from_fuelPrices station p2 = Ok p3
    ∧ from_flat_fields station p3 = Ok p4
    ∧ p = reparse_strings p4.
Proof.
  unfold extractStation.
  destruct (get station "location"); cbn [bind]; [| discriminate].
  destruct (coordinates station) as [ll |] eqn:Ell; cbn [bind]; [| discriminate].
  destruct (newParsedStation _ _ _ _ _ _) as [p0 |] eqn:E0; cbn [bind]; [| discriminate].
  destruct (from_prices station p0) as [p1 |] eqn:E1; cbn [bind]; [| discriminate].
  destruct (from_fuel_type_services station p1) as [p2 |] eqn:E2; cbn [bind];
    [| discriminate].
  destruct (from_fuelPrices station p2) as [p3 |] eqn:E3; cbn [bind]; [| discriminate].
  destruct (from_flat_fields station p3) as [p4 |] eqn:E4; cbn [bind]; [| discriminate].
  intros [= <-]. exists ll, p0, p1, p2, p3, p4. auto 10.
Qed.

Lemma coordinates_not_nan station ll :
  coordinates station = Ok ll →
  PrimFloat.is_nan (fst ll) = false ∧ PrimFloat.is_nan (snd ll) = false.
Proof.
  unfold coordinates. cbv zeta.
  match goal with |- bind ?m _ = _ → _ => destruct m as [[la lo] |] end;
    cbn [bind]; [| discriminate].
  intros [= <-]. cbn [fst snd]. unfold nan_to_zero.
  split; [destruct (PrimFloat.is_nan la) eqn:E | destruct (PrimFloat.is_nan lo) eqn:E];
    auto.
Qed.

Lemma newParsedStation_fields station index la lo p0 :
  newParsedStation clock retailerName station index la lo = Ok p0 →
  Station.latitude p0 = la ∧ Station.longitude p0 = lo
  ∧ Station.petrol_price p0 = JNull ∧ Station.diesel_price p0 = JNull
  ∧ Station.super_price p0 = JNull.
Proof.
  unfold newParsedStation. destruct (ToString _); cbn [bind]; [| discriminate].
  intros [= <-]. cbn. auto.
Qed.

Lemma extractStation_coordinates station index p :
  extractStation clock retailerName station index = Ok p →
  PrimFloat.is_nan (Station.latitude p) = false
  ∧ PrimFloat.is_nan (Station.longitude p) = false.
Proof.
  intros Hp. apply extractStation_stages in Hp
    as (ll & p0 & p1 & p2 & p3 & p4 & Hll & H0 & H1 & H2 & H3 & H4 & ->).
  apply coordinates_not_nan in Hll as [Hla Hlo].
  apply newParsedStation_fields in H0 as (Ela & Elo & _).
  assert (Hkept : Station.latitude p4 = fst ll ∧ Station.longitude p4 = snd ll).
  { apply (kept_price_sources
             (fun q => Station.latitude q = fst ll ∧ Station.longitude q = snd ll))
      with (station := station) (p0 := p0) (p1 := p1) (p2 := p2) (p3 := p3);
      auto. }
  destruct Hkept as [E1 E2]. cbn. now rewrite E1, E2.
Qed.

Lemma reparse_number_or_null v : number_or_null v = true → reparse_string v = v.
Proof. destruct v; cbn; congruence. Qed.

Lemma price_sources_numeric station index ll p0 p1 p2 p3 p4 :
  newParsedStation clock retailerName station index (fst ll) (snd ll) = Ok p0 →
  from_prices station p0 = Ok p1 → from_fuel_type_services station p1 = Ok p2 →
  from_fuelPrices station p2 = Ok p3 → from_flat_fields station p3 = Ok p4 →
  number_or_null (Station.petrol_price p4) = true
  ∧ number_or_null (Station.diesel_price p4) = true
  ∧ number_or_null (Station.super_price p4) = true.
Proof.
  intros H0 H1 H2 H3 H4.
  apply newParsedStation_fields in H0 as (_ & _ & Ep & Ed & Es).
  apply (kept_price_sources
           (fun q => number_or_null (Station.petrol_price q) = true
                     ∧ number_or_null (Station.diesel_price q) = true
                     ∧ number_or_null (Station.super_price q) = true))
    with (station := station) (p0 := p0) (p1 := p1) (p2 := p2) (p3 := p3);
    auto; try (intros n q; destruct q; cbn; tauto).
  now rewrite Ep, Ed, Es.
Qed.

Lemma reparse_strings_numeric p :
  number_or_null (Station.petrol_price p) = true
  ∧ number_or_null (Station.diesel_price p) = true
  ∧ number_or_null (Station.super_price p) = true →
  reparse_strings p = p.
Proof.
  intros (Kp & Kd & Ks). unfold reparse_strings. destruct p; cbn in *.
  now rewrite !reparse_number_or_null.
Qed.

Lemma extractStation_prices station index p :
  extractStation clock retailerName station index = Ok p →
  number_or_null (Station.petrol_price p) = true
  ∧ number_or_null (Station.diesel_price p) = true
  ∧ number_or_null (Station.super_price p) = true.
Proof.
  intros Hp. apply extractStation_stages in Hp
    as (ll & p0 & p1 & p2 & p3 & p4 & Hll & H0 & H1 & H2 & H3 & H4 & ->).
  pose proof (price_sources_numeric _ _ _ _ _ _ _ _ H0 H1 H2 H3 H4) as Hnum.
  now rewrite (reparse_strings_numeric _ Hnum).
Qed.

Lemma contributions_In items : ∀ i p,
  In p (contributions clock retailerName items i) →
  ∃ j record, items !! j = Some record
              ∧ extractStation clock retailerName record (i + j) = Ok p.
Proof.
  induction items as [| x rest IH]; intros i p; cbn; [tauto |].
  rewrite in_app_iff. intros [Hin | Hin].
  - unfold contribution in Hin.
    destruct (extractStation clock retailerName x i) as [q | e] eqn:E; [| contradiction].
    destruct (retained q); [| contradiction]. destruct Hin as [<- | []].
    exists 0, x. rewrite Nat.add_0_r. auto.
  - apply IH in Hin as (j & record & Hj & Hp). exists (S j), record.
    split; [exact Hj |]. now replace (i + S j) with (S i + j) by lia.
Qed.

Lemma find_first {A : Type} (f : A → bool) (before : list A) (x : A) (after : list A) :
  Forall (fun y => f y = false) before → f x = true →
  find f (before ++ x :: after) = Some x.
Proof.
  induction 1 as [| y before Hy _ IH]; cbn; intros Hx.
  - now rewrite Hx.
  - rewrite Hy. now apply IH.
Qed.

(** X10: the latitude and the longitude of every station the normaliser
    returns are numbers, never [NaN]. *)
Theorem parsed_coordinates_are_numbers (data : JS) :
  ∃ stations,
    parseStationData clock retailerName data = Ok stations
    ∧ ∀ p, In p stations →
        PrimFloat.is_nan (Station.latitude p) = false
        ∧ PrimFloat.is_nan (Station.longitude p) = false.
Proof.
  rewrite parseStationData_eq. eexists. split; [reflexivity |].
  intros p Hin. destruct (recordList data) as [[] |]; try contradiction.
  apply contributions_In in Hin as (j & record & _ & Hp).
  eapply extractStation_coordinates. exact Hp.
Qed.

(** X11: every price of a station the normaliser returns is a number or
    [null]; the price sources only ever store numbers, so the re-parsing of
    string prices (862-870) leaves the station as it is. *)
Theorem parsed_prices_are_numbers_or_null (data : JS) :
  ∃ stations,
    parseStationData clock retailerName data = Ok stations
    ∧ (∀ p, In p stations →
         number_or_null (Station.petrol_price p) = true
         ∧ number_or_null (Station.diesel_price p) = true
         ∧ number_or_null (Station.super_price p) = true)
    ∧ ∀ station index ll p0 p1 p2 p3 p4,
        newParsedStation clock retailerName station index (fst ll) (snd ll) = Ok p0 →
        from_prices station p0 = Ok p1 →
        from_fuel_type_services station p1 = Ok p2 →
        from_fuelPrices station p2 = Ok p3 →
        from_flat_fields station p3 = Ok p4 →
        reparse_strings p4 = p4.
Proof.
  rewrite parseStationData_eq. eexists. split; [reflexivity |]. split.
  - intros p Hin. destruct (recordList data) as [[] |]; try contradiction.
    apply contributions_In in Hin as (j & record & _ & Hp).
    eapply extractStation_prices. exact Hp.
  - intros station index ll p0 p1 p2 p3 p4 H0 H1 H2 H3 H4.
    apply reparse_strings_numeric. eapply price_sources_numeric; eassumption.
Qed.

(** X9: the first of the probed keys ([stations], [data], [results], ...)
    that holds a truthy value decides the record list, whatever the later
    keys hold: an array is parsed, and an empty array or a value that is
    not an array gives the empty list. *)
Theorem first_truthy_probe_key_decides (data : JS) (before : list string)
    (key : string) (after : list string) :
  probe_keys = before ++ key :: after →
  Forall (fun earlier => truthy (prop data earlier) = false) before →
  truthy (prop data key) = true →
  (∀ items, prop data key = JArr items →
     parseStationData clock retailerName data
     = Ok (contributions clock retailerName items 0))
  ∧ (prop data key = JArr [] → parseStationData clock retailerName data = Ok [])
  ∧ (isArray (prop data key) = false →
     parseStationData clock retailerName data = Ok []).
Proof.
  intros Hkeys Hbefore Hkey.
  assert (Hlist : recordList data = Ok (prop data key)).
  { unfold recordList, get.
    destruct data; try discriminate Hkey. cbn [nullish bind].
    now rewrite Hkeys, (find_first _ _ _ _ Hbefore Hkey). }
  rewrite parseStationData_eq, Hlist. repeat split.
  - now intros items ->.
  - now intros ->.
  - now destruct (prop data key).
Qed.

Lemma truthy_number (n : float) :
  truthy (JNum n) = true → PrimFloat.is_nan n = false ∧ PrimFloat.eqb n 0 = false.
Proof.
  cbn. rewrite negb_true_iff, orb_false_iff. tauto.
Qed.

Lemma jsOr_number (n : float) (v : JS) :
  JNum n ||| v = if truthy (JNum n) then JNum n else v.
Proof. reflexivity. Qed.

Lemma jsOr_text (s : string) (v : JS) :
  JStr s ||| v = if String.eqb s "" then v else JStr s.
Proof. unfold jsOr. cbn. now destruct (String.eqb s ""). Qed.

Lemma assign_pence_eq set v extra p :
  assign_pence set v extra p
  = if typeof_number v && extra then set (pence_to_pounds v) p else p.
Proof. destruct v; cbn; try reflexivity. Qed.

Lemma pence_to_pounds_other v : typeof_number v = false → pence_to_pounds v = JNull.
Proof. destruct v; cbn; congruence. Qed.

Lemma assign_pounds_falsy set v p : truthy v = false → assign_pounds set v p = Ok p.
Proof. intros Hv. unfold assign_pounds. now rewrite Hv. Qed.

Lemma assign_parsed_pence_falsy set v p :
  truthy v = false → assign_parsed_pence set v p = Ok p.
Proof. intros Hv. unfold assign_parsed_pence. now rewrite Hv. Qed.

(** X12: a record with a [site_id], texts, a [location] object and a
    [prices] object without [unleaded], [diesel] and [super_unleaded] is
    read as follows: the id is the retailer name and the [site_id]; a missing
    brand is the retailer name; a coordinate that is zero or [NaN] is 0;
    E10, E5 and B7, when numbers, are pence and become the petrol, super
    and diesel price in pounds; SDV is used for diesel when B7 gives no
    truthy price. *)
Theorem feed_record_is_read_in_pence (site_id brand address postcode : string)
    (latitude longitude : float) (prices : list (string * JS)) (index : nat) :
  site_id ≠ "" →
  truthy (assoc "unleaded" prices) = false →
  truthy (assoc "diesel" prices) = false →
  truthy (assoc "super_unleaded" prices) = false →
  ∃ p,
    extractStation clock retailerName
      (feed_record site_id brand address postcode latitude longitude prices) index
    = Ok p
    ∧ Station.id p = (retailerName ++ "-" ++ site_id)%string
    ∧ Station.brand p = JStr (if String.eqb brand "" then retailerName else brand)
    ∧ Station.address p = JStr address
    ∧ Station.postcode p = JStr postcode
    ∧ Station.latitude p = (if truthy (JNum latitude) then latitude else 0%float)
    ∧ Station.longitude p = (if truthy (JNum longitude) then longitude else 0%float)
    ∧ Station.petrol_price p = pence_to_pounds (assoc "E10" prices)
    ∧ Station.super_price p = pence_to_pounds (assoc "E5" prices)
    ∧ Station.diesel_price p
      = (if truthy (pence_to_pounds (assoc "B7" prices))
         then pence_to_pounds (assoc "B7" prices)
         else match assoc "SDV" prices with
              | JNum _ => pence_to_pounds (assoc "SDV" prices)
              | _ => pence_to_pounds (assoc "B7" prices)
              end).
Proof.
  intros Hid Hu Hd Hs.
  set (record := feed_record site_id brand address postcode latitude longitude prices).
  assert (Hll : coordinates record
                = Ok (if truthy (JNum latitude) then latitude else 0%float,
                      if truthy (JNum longitude) then longitude else 0%float)).
  { unfold coordinates. subst record. unfold feed_record.
    cbn [prop assoc String.eqb Ascii.eqb Bool.eqb].
    rewrite !jsOr_number.
    destruct (truthy (JNum latitude)) eqn:Ela, (truthy (JNum longitude)) eqn:Elo;
      try (apply truthy_number in Ela as [Ela1 Ela2]);
      try (apply truthy_number in Elo as [Elo1 Elo2]);
      unfold jsOr, nan_to_zero;
      repeat (cbn [truthy typeof_object andb orb negb parseFloat bind fst snd];
              rewrite ?Ela1, ?Ela2, ?Elo1, ?Elo2);
      reflexivity. }
  assert (H0 : ∃ p0,
    newParsedStation clock retailerName record index
      (if truthy (JNum latitude) then latitude else 0%float)
      (if truthy (JNum longitude) then longitude else 0%float) = Ok p0
    ∧ Station.id p0 = (retailerName ++ "-" ++ site_id)%string
    ∧ Station.brand p0 = JStr (if String.eqb brand "" then retailerName else brand)
    ∧ Station.address p0 = JStr address
    ∧ Station.postcode p0 = JStr postcode
    ∧ Station.latitude p0 = (if truthy (JNum latitude) then latitude else 0%float)
    ∧ Station.longitude p0 = (if truthy (JNum longitude) then longitude else 0%float)
    ∧ Station.petrol_price p0 = JNull ∧ Station.diesel_price p0 = JNull
    ∧ Station.super_price p0 = JNull).
  { unfold newParsedStation. subst record. unfold feed_record.
    cbn [prop assoc String.eqb Ascii.eqb Bool.eqb].
    replace (JUndefined ||| JStr site_id ||| JUndefined ||| JUndefined ||| JUndefined
             ||| JNum (float_of_nat index)) with (JStr site_id).
    2:{ apply String.eqb_neq in Hid. unfold jsOr.
        repeat (cbn [truthy negb]; rewrite ?Hid). reflexivity. }
    cbn [ToString bind]. eexists. split; [reflexivity |].
    cbn [Station.id Station.brand Station.address Station.postcode Station.latitude
         Station.longitude Station.petrol_price Station.diesel_price Station.super_price].
    repeat split.
    - unfold jsOr. destruct (String.eqb brand "") eqn:E;
        repeat (cbn [truthy negb]; rewrite ?E); reflexivity.
    - unfold jsOr. destruct (String.eqb_spec address "") as [-> | E]; [reflexivity |].
      apply String.eqb_neq in E. repeat (cbn [truthy negb]; rewrite ?E). reflexivity.
    - unfold jsOr. destruct (String.eqb_spec postcode "") as [-> | E]; [reflexivity |].
      apply String.eqb_neq in E. repeat (cbn [truthy negb]; rewrite ?E). reflexivity. }
  destruct H0 as (p0 & H0 & Eid & Ebrand & Eaddr & Epc & Ela & Elo & Ep & Ed & Es).
  set (p1 := assign_pence Station.set_petrol_price (assoc "E10" prices) true p0).
  set (p2 := assign_pence Station.set_super_price (assoc "E5" prices) true p1).
  set (p3 := assign_pence Station.set_diesel_price (assoc "B7" prices) true p2).
  set (p4 := assign_pence Station.set_diesel_price (assoc "SDV" prices)
               (negb (truthy (Station.diesel_price p3))) p3).
  assert (H1 : from_prices record p0 = Ok p4).
  { unfold from_prices. subst record. unfold feed_record.
    cbn [prop assoc String.eqb Ascii.eqb Bool.eqb truthy].
    fold p1. fold p2. fold p3. fold p4.
    rewrite (assign_pounds_falsy _ _ _ Hu). cbn [bind].
    rewrite (assign_pounds_falsy _ _ _ Hd). cbn [bind].
    now rewrite (assign_pounds_falsy _ _ _ Hs). }
  assert (H2 : from_fuel_type_services record p4 = Ok p4) by reflexivity.
  assert (H3 : from_fuelPrices record p4 = Ok p4) by reflexivity.
  assert (H4 : from_flat_fields record p4 = Ok p4).
  { unfold from_flat_fields. destruct (_ && _); reflexivity. }
  assert (Hnum : reparse_strings p4 = p4).
  { apply reparse_strings_numeric.
    eapply price_sources_numeric with (ll := (_, _)); cbn [fst snd]; eassumption. }
  exists p4. split.
  { unfold extractStation, get. change (nullish record) with false.
    cbn [bind]. rewrite Hll. cbn [bind fst snd].
    rewrite H0. cbn [bind]. rewrite H1. cbn [bind]. rewrite H2. cbn [bind].
    rewrite H3. cbn [bind]. rewrite H4. cbn [bind]. now rewrite Hnum. }
  clear H0 H1 H2 H3 H4 Hnum Hll. clearbody record.
  subst p4 p3 p2 p1. rewrite !assign_pence_eq, !andb_true_r.
  destruct p0. cbn in Eid, Ebrand, Eaddr, Epc, Ela, Elo, Ep, Ed, Es. subst.
  destruct (typeof_number (assoc "E10" prices)) eqn:E10,
    (typeof_number (assoc "E5" prices)) eqn:E5,
    (typeof_number (assoc "B7" prices)) eqn:B7;
    rewrite ?(pence_to_pounds_other _ E10), ?(pence_to_pounds_other _ E5),
      ?(pence_to_pounds_other _ B7);
    destruct (truthy (pence_to_pounds (assoc "B7" prices))) eqn:TB7;
    try discriminate TB7;
    destruct (assoc "SDV" prices);
    cbn [typeof_number truthy negb andb
         Station.set_petrol_price Station.set_diesel_price Station.set_super_price
         Station.id Station.brand Station.address Station.postcode Station.latitude
         Station.longitude Station.petrol_price Station.diesel_price Station.super_price];
    rewrite ?TB7; repeat split; reflexivity.
Qed.


End ParseFacts.

(** ** The directory loader *)

Lemma mapM_Ok {A B : Type} (f : A → Res B) (l : list A) : ∀ ys,
  mapM f l = Ok ys ↔ Forall2 (fun x y => f x = Ok y) l ys.
Proof.
  induction l as [| x l IH]; intros ys; cbn.
  - split; [intros [= <-]; constructor | now inversion 1].
  - split.
    + destruct (f x) as [y |] eqn:E; cbn; [| discriminate].
      destruct (mapM f l) as [ys' |]; cbn; [| discriminate].
      intros [= <-]. constructor; [exact E | now apply IH].
    + inversion 1 as [| ? y ? ys' Hx Hrest]; subst. rewrite Hx. cbn.
      apply IH in Hrest. now rewrite Hrest.
Qed.

Lemma mapM_throws {A B : Type} (f : A → Res B) (l : list A) (x : A) (e : Exn) :
  In x l → f x = Throw e → ∃ e', mapM f l = Throw e'.
Proof.
  induction l as [| y l IH]; cbn; [tauto |].
  intros [-> | Hin] Hx.
  - rewrite Hx. now exists e.
  - destruct (f y); cbn; [| now eexists].
    destruct (IH Hin Hx) as [e' ->]. now exists e'.
Qed.

Section LoaderFacts.
Context `{Host}.

Lemma upper_trimmed_Ok v s : upper_trimmed v = Ok s → upper_and_trimmed s.
Proof.
  destruct v; cbn; try discriminate. intros [= <-]. apply upper_trimmed_text.
Qed.

Lemma number_or_zero (n : float) :
  ∃ c, JNum n ||| JNum 0 = JNum c ∧ PrimFloat.is_nan c = false.
Proof.
  unfold jsOr. destruct (truthy (JNum n)) eqn:E.
  - exists n. split; [reflexivity |]. now apply truthy_number in E.
  - now exists 0%float.
Qed.

Lemma jsOr_flag (a b : JS) : flag (a ||| b ||| JBool false).
Proof.
  unfold flag, jsOr.
  destruct (truthy a) eqn:Ea; [rewrite Ea; now left |].
  destruct (truthy b) eqn:Eb; [now left | now right].
Qed.

Lemma jsOr_flag1 (a : JS) : flag (a ||| JBool false).
Proof. unfold flag, jsOr. destruct (truthy a) eqn:Ea; [now left | now right]. Qed.

(** X14: the site object that [loadUKFuelsSites] builds of a payload
    entry whose texts are ASCII has coordinates that are numbers and not
    [NaN], upper-case trimmed strings as name, street, town, postcode and
    brand, flags that are truthy or [false], and the site number of the
    payload; when that number is a primitive, the object is a record the
    matching engine can read. *)
Theorem loaded_sites_are_well_formed (site object : JS) :
  siteObject site = Ok object →
  ascii_site site = true →
  (∃ latitude longitude,
     prop object "latitude" = JNum latitude ∧ PrimFloat.is_nan latitude = false
     ∧ prop object "longitude" = JNum longitude ∧ PrimFloat.is_nan longitude = false)
  ∧ (∀ key, In key ["siteName"; "street1"; "town"; "postCode"; "brand"] →
       ∃ text, prop object key = JStr text ∧ upper_and_trimmed text)
  ∧ (∀ key, In key ["hours24"; "hgvAccess"; "petrol"; "diesel"] →
       flag (prop object key))
  ∧ prop object "siteNo" = prop site "siteNo"
  ∧ (∀ siteNo, Prim_of_JS (prop site "siteNo") = Some siteNo →
       ∃ record, Site_of_object object = Some record ∧ Site.siteNo record = siteNo).
Proof.
  unfold siteObject, get.
  destruct (nullish site); cbn [bind]; [discriminate |].
  destruct (parseFloat (prop site "lat" ||| _)) as [la |]; cbn [bind]; [| discriminate].
  destruct (parseFloat (prop site "lng" ||| _)) as [lo |]; cbn [bind]; [| discriminate].
  destruct (upper_trimmed (prop site "name" ||| _ ||| _)) as [nm |] eqn:Enm; cbn [bind];
    [| discriminate].
  destruct (upper_trimmed (prop site "addr" ||| _ ||| _)) as [st |] eqn:Est; cbn [bind];
    [| discriminate].
  destruct (upper_trimmed (prop site "town" ||| _)) as [tn |] eqn:Etn; cbn [bind];
    [| discriminate].
  destruct (upper_trimmed (prop site "postcode" ||| _ ||| _)) as [pc |] eqn:Epc;
    cbn [bind]; [| discriminate].
  destruct (upper_trimmed (prop site "brand" ||| _)) as [br |] eqn:Ebr; cbn [bind];
    [| discriminate].
  apply upper_trimmed_Ok in Enm, Est, Etn, Epc, Ebr.
  intros [= <-] _.
  destruct (number_or_zero la) as (la' & Ela & Hla).
  destruct (number_or_zero lo) as (lo' & Elo & Hlo).
  rewrite Ela, Elo.
  cbn [prop assoc String.eqb Ascii.eqb Bool.eqb].
  split; [now exists la', lo' |].
  split; [| split; [| split; [reflexivity |]]].
  - intros key [<- | [<- | [<- | [<- | [<- | []]]]]];
      cbn [assoc String.eqb Ascii.eqb Bool.eqb]; eauto.
  - intros key [<- | [<- | [<- | [<- | []]]]];
      cbn [assoc String.eqb Ascii.eqb Bool.eqb];
      auto using jsOr_flag, jsOr_flag1.
  - intros siteNo Hno. unfold Site_of_object.
    cbn [prop assoc String.eqb Ascii.eqb Bool.eqb]. rewrite Hno.
    eexists. split; reflexivity.
Qed.

(** X13: [loadUKFuelsSites] never throws.  On an [ok] response whose
    body has a truthy [success] and an array [data], it returns the site
    objects of all entries when every entry can be converted, and the empty
    list as soon as one entry cannot; a non-empty result always comes from
    such a response, one object per entry. *)
Theorem loadUKFuelsSites_is_all_or_nothing (response : Fetched) :
  ∃ sites,
    loadUKFuelsSites response = Ok sites
    ∧ (∀ data items,
         response = Response true (Some data) →
         truthy (prop data "success") = true →
         prop data "data" = JArr items →
         (∀ objects,
            Forall2 (fun item object => siteObject item = Ok object) items objects →
            sites = objects)
         ∧ (∀ bad e, In bad items → siteObject bad = Throw e → sites = []))
    ∧ (sites ≠ [] →
       ∃ data items,
         response = Response true (Some data)
         ∧ truthy (prop data "success") = true
         ∧ prop data "data" = JArr items
         ∧ Forall2 (fun item object => siteObject item = Ok object) items sites).
Proof.
  destruct response as [| [] [data |]]; cbn [loadUKFuelsSites];
    try (exists []; split; [reflexivity |]; split; [intros ? ? [=] | congruence]).
  unfold get. destruct (nullish data) eqn:Enull; cbn [bind try_catch].
  { exists []. split; [reflexivity |]. split; [| congruence].
    intros d items [= <-] Hs. destruct data; discriminate. }
  destruct (truthy (prop data "success")) eqn:Es; cbn [andb].
  2:{ exists []. split; [reflexivity |]. split; [| congruence].
      intros d items [= <-] Hs. congruence. }
  destruct (truthy (prop data "data")) eqn:Ed.
  2:{ exists []. split; [reflexivity |]. split; [| congruence].
      intros d items [= <-] _ Hitems. rewrite Hitems in Ed. discriminate. }
  destruct (prop data "data") as [| | | | | items |] eqn:Edata;
    try (exists []; split; [reflexivity |]; split;
         [intros d items [= <-] _ Hitems; rewrite Edata in Hitems; discriminate Hitems
         | congruence]).
  destruct (mapM siteObject items) as [objects |] eqn:Emap.
  - exists objects. split; [reflexivity |]. split.
    + intros d items' [= <-] _ Hitems. rewrite Edata in Hitems. injection Hitems as <-.
      split.
      * intros objects' Hall. apply mapM_Ok in Hall. congruence.
      * intros bad e Hin Hbad.
        destruct (mapM_throws _ _ _ _ Hin Hbad) as [e' He']. congruence.
    + intros _. exists data, items. repeat split; try assumption. now apply mapM_Ok.
  - exists []. split; [reflexivity |]. split; [| congruence].
    intros d items' [= <-] _ Hitems. rewrite Edata in Hitems. injection Hitems as <-.
    split; [| reflexivity].
    intros objects' Hall. apply mapM_Ok in Hall. congruence.
Qed.

End LoaderFacts.

(** ** Gathering the feeds *)

Section GatherFacts.
Context `{Host}.
Variable clock : nat → nat → string.
Variable demoStations : list Station.t.

Lemma gatherFeed_safe acc entry index :
  feed_is_safe entry = true →
  gatherFeed clock acc entry index
  = Ok (fst acc ++ feed_stations clock [entry] index,
        if feed_is_read entry then S (snd acc) else snd acc).
Proof.
  unfold feed_is_safe, gatherFeed, feed_is_read. destruct entry as [name result].
  cbn [fst snd feed_stations]. unfold feed_is_read. cbn [fst snd].
  destruct acc as [stations count]. cbn [fst snd].
  destruct (String.eqb name "_summary"); cbn [orb negb andb].
  - intros _. now rewrite !app_nil_r.
  - intros Hsafe. apply negb_true_iff in Hsafe. unfold get. rewrite Hsafe. cbn [bind].
    destruct (truthy (prop result "success") && truthy (prop result "data")).
    + rewrite parseStationData_eq. cbn [bind]. now rewrite app_nil_r.
    + now rewrite !app_nil_r.
Qed.

Lemma gatherFeed_unsafe acc entry index :
  feed_is_safe entry = false → gatherFeed clock acc entry index = Throw TypeError.
Proof.
  unfold feed_is_safe, gatherFeed. destruct entry as [name result]. cbn [fst snd].
  destruct (String.eqb name "_summary"); cbn [orb]; [discriminate |].
  intros Hn. apply negb_false_iff in Hn. unfold get. now rewrite Hn.
Qed.

Lemma gatherLoop_safe (entries : list (string * JS)) : ∀ index acc,
  Forall (fun entry => feed_is_safe entry = true) entries →
  gatherLoop clock entries index acc
  = ((fst acc ++ feed_stations clock entries index,
      snd acc + length (List.filter feed_is_read entries)), false).
Proof.
  induction entries as [| entry rest IH]; intros index acc Hall; cbn [gatherLoop].
  - cbn. rewrite app_nil_r, Nat.add_0_r. now destruct acc.
  - inversion Hall as [| ? ? Hentry Hrest]; subst.
    rewrite (gatherFeed_safe _ _ _ Hentry), (IH _ _ Hrest). cbn [fst snd].
    cbn [feed_stations List.filter]. rewrite app_nil_r, <- app_assoc.
    destruct (feed_is_read entry); cbn [length]; do 2 f_equal; lia.
Qed.

Lemma gatherLoop_broken (before : list (string * JS)) bad after : ∀ index acc,
  Forall (fun entry => feed_is_safe entry = true) before →
  feed_is_safe bad = false →
  gatherLoop clock (before ++ bad :: after) index acc
  = ((fst acc ++ feed_stations clock before index,
      snd acc + length (List.filter feed_is_read before)), true).
Proof.
  induction before as [| entry rest IH]; intros index acc Hall Hbad; cbn [gatherLoop app].
  - rewrite (gatherFeed_unsafe _ _ _ Hbad). cbn. rewrite app_nil_r, Nat.add_0_r.
    now destruct acc.
  - inversion Hall as [| ? ? Hentry Hrest]; subst.
    rewrite (gatherFeed_safe _ _ _ Hentry), (IH _ _ Hrest Hbad). cbn [fst snd].
    cbn [feed_stations List.filter]. rewrite app_nil_r, <- app_assoc.
    destruct (feed_is_read entry); cbn [length]; do 2 f_equal; lia.
Qed.

(** X15: when no feed entry but [_summary] is [null] or [undefined], the
    stations gathered are those of the entries with a truthy [success] and
    [data], feed by feed in the order of the body, without demo stations,
    and [successfulFeeds] counts those entries. *)
Theorem sound_feeds_are_gathered_in_order (feeds : list (string * JS)) :
  Forall (fun entry => feed_is_safe entry = true) feeds →
  gatherStations clock demoStations (Response true (Some (JObj feeds)))
  = (feed_stations clock feeds 0, length (List.filter feed_is_read feeds)).
Proof.
  intros Hall. unfold gatherStations. cbn [Object_entries].
  now rewrite (gatherLoop_safe _ _ _ Hall).
Qed.

(** X16: when an entry other than [_summary] is [null] or [undefined],
    the stations of the entries before it are kept, the demo stations are
    appended, the entries after it are not read, and the data source is
    labelled as live data as soon as one entry before it was read. *)
Theorem a_broken_feed_mixes_live_and_demo_stations (before : list (string * JS))
    (bad : string * JS) (after : list (string * JS)) :
  Forall (fun entry => feed_is_safe entry = true) before →
  feed_is_safe bad = false →
  let gathered :=
    gatherStations clock demoStations
      (Response true (Some (JObj (before ++ bad :: after)))) in
  gathered
  = (feed_stations clock before 0 ++ demoStations,
     length (List.filter feed_is_read before))
  ∧ (dataSource (snd gathered) = "Live retailer data"
     ↔ ∃ entry, In entry before ∧ feed_is_read entry = true).
Proof.
  intros Hall Hbad gathered. subst gathered. unfold gatherStations. cbn [Object_entries].
  rewrite (gatherLoop_broken _ _ _ _ _ Hall Hbad). cbn [fst snd app plus]. 
  split; [reflexivity |].
  unfold dataSource.
  destruct (List.filter feed_is_read before) as [| entry rest] eqn:E; cbn.
  - split; [discriminate |]. intros (entry & Hin & Hread).
    assert (Hf : In entry (List.filter feed_is_read before))
      by (apply List.filter_In; now split).
    rewrite E in Hf. destruct Hf.
  - split; [| reflexivity]. intros _. exists entry.
    apply List.filter_In. rewrite E. now left.
Qed.

Lemma failed_request_gives_demo_stations (response : Fetched) :
  (response = NetworkError ∨ (∃ body, response = Response false body)
   ∨ response = Response true None ∨ response = Response true (Some JNull)) →
  gatherStations clock demoStations response = (demoStations, 0)
  ∧ dataSource (snd (gatherStations clock demoStations response)) = "Demo data".
Proof.
  intros [-> | [[body ->] | [-> | ->]]]; split; reflexivity.
Qed.

End GatherFacts.

(** ** Search, sort and selection *)

Lemma distance_le_before (a b : Station.t) :
  distance_le a b → PrimFloat.ltb 0 (by_distance a b) = false.
Proof.
  intros (da & db & Ea & Eb & Hle). unfold by_distance. rewrite Ea, Eb. cbn.
  destruct (float_leb_not_nan _ _ Hle) as [Ha Hb].
  rewrite ltb_zero_sub by assumption. now apply float_leb_not_ltb.
Qed.

Lemma sort_insert_least (x : Station.t) (l : list Station.t) :
  Forall (distance_le x) l → sort_insert by_distance x l = x :: l.
Proof.
  destruct 1 as [| y l Hxy _]; cbn [sort_insert]; [reflexivity |].
  now rewrite (distance_le_before _ _ Hxy).
Qed.

Lemma sort_of_sorted (l : list Station.t) :
  StronglySorted distance_le l → sort by_distance l = l.
Proof.
  induction 1 as [| x l Hl IH Hx]; [reflexivity |].
  rewrite sort_cons, IH. now apply sort_insert_least.
Qed.

Section DisplayMore.
Context `{Host}.
Variable userLocation : Location.t.

Lemma with_distance_idem (s : Station.t) :
  with_distance userLocation (with_distance userLocation s)
  = with_distance userLocation s.
Proof. reflexivity. Qed.

Lemma distance_of_with_distance (s : Station.t) :
  Station.distance (with_distance userLocation s) = JNum (distance_from userLocation s).
Proof. reflexivity. Qed.

Lemma with_distance_has_distance (l : list Station.t) :
  Forall (fun s => PrimFloat.is_nan (distance_from userLocation s) = false) l →
  Forall has_distance (map (with_distance userLocation) l).
Proof.
  intros Hl. apply List.Forall_map. eapply List.Forall_impl; [| exact Hl].
  intros s Hs. exists (distance_from userLocation s). now split.
Qed.

Lemma sortStationsByDistance_sorted (l : list Station.t) :
  Forall (fun s => PrimFloat.is_nan (distance_from userLocation s) = false) l →
  StronglySorted distance_le (sortStationsByDistance userLocation l).
Proof. intros Hl. apply sort_sorted. now apply with_distance_has_distance. Qed.

Lemma sortStationsByDistance_perm (l : list Station.t) :
  Permutation (sortStationsByDistance userLocation l)
    (map (with_distance userLocation) l).
Proof. apply sort_perm. Qed.

Lemma map_with_distance_fixed (l : list Station.t) :
  Forall (fun s => ∃ s0, s = with_distance userLocation s0) l →
  map (with_distance userLocation) l = l.
Proof.
  induction 1 as [| s l [s0 ->] _ IH]; cbn; [reflexivity |].
  now rewrite IH.
Qed.

(** X20: on stations whose distances are numbers, sorting the sorted list
    again (as the auto-select effect does with the displayed list) returns
    it unchanged. *)
Theorem sorting_again_changes_nothing (stations : list Station.t) :
  Forall (fun s => PrimFloat.is_nan (distance_from userLocation s) = false) stations →
  sortStationsByDistance userLocation (sortStationsByDistance userLocation stations)
  = sortStationsByDistance userLocation stations.
Proof.
  intros Hnan.
  pose proof (sortStationsByDistance_sorted stations Hnan) as Hsorted.
  pose proof (sortStationsByDistance_perm stations) as Hperm.
  unfold sortStationsByDistance at 1. rewrite map_with_distance_fixed.
  - now apply sort_of_sorted.
  - apply List.Forall_forall. intros s Hin.
    eapply Permutation_in in Hin; [| exact Hperm].
    apply in_map_iff in Hin as (s0 & <- & _). now exists s0.
Qed.

(** X21: in map view with nothing selected, when no station with truthy
    latitude and longitude has a distance of [NaN], the auto-select effect
    selects such a station that is at least as close as every other one,
    and nothing when there is none; a selection that exists is kept, and
    so is the empty selection outside the map view. *)
Theorem auto_select_picks_a_nearest_station (displayedStations : list Station.t) :
  Forall (fun s => PrimFloat.is_nan (distance_from userLocation s) = false)
    (List.filter located displayedStations) →
  match autoSelect userLocation "map" displayedStations None with
  | Some chosen =>
      ∃ nearest,
        In nearest displayedStations ∧ located nearest = true
        ∧ chosen = with_distance userLocation nearest
        ∧ ∀ s, In s displayedStations → located s = true →
            PrimFloat.leb (distance_from userLocation nearest)
              (distance_from userLocation s) = true
  | None => ∀ s, In s displayedStations → located s = false
  end
  ∧ (∀ viewMode current,
       autoSelect userLocation viewMode displayedStations (Some current) = Some current)
  ∧ (∀ viewMode, viewMode ≠ "map" →
       autoSelect userLocation viewMode displayedStations None = None).
Proof.
  intros Hnan. split; [| split].
  - unfold autoSelect. cbn [String.eqb Ascii.eqb Bool.eqb andb negb].
    pose proof (sortStationsByDistance_sorted _ Hnan) as Hsorted.
    pose proof (sortStationsByDistance_perm (List.filter located displayedStations))
      as Hperm.
    destruct (sortStationsByDistance userLocation (List.filter located displayedStations))
      as [| chosen rest] eqn:Es.
    + apply Permutation_nil in Hperm. apply map_eq_nil in Hperm.
      assert (Hnone : ∀ s, In s displayedStations → located s = false).
      { intros s Hin. destruct (located s) eqn:E; [| reflexivity].
        assert (Hs : In s (List.filter located displayedStations))
          by (apply List.filter_In; now split).
        rewrite Hperm in Hs. destruct Hs. }
      now destruct (Nat.ltb 0 (length displayedStations)).
    + assert (Hne : Nat.ltb 0 (length displayedStations) = true).
      { destruct displayedStations; [| reflexivity].
        cbn in Hperm. apply Permutation_sym, Permutation_nil in Hperm. discriminate. }
      rewrite Hne. cbn [length Nat.ltb Nat.leb head andb].
      assert (Hin : In chosen (map (with_distance userLocation)
                                 (List.filter located displayedStations)))
        by (eapply Permutation_in; [exact Hperm | now left]).
      apply in_map_iff in Hin as (nearest & <- & Hin).
      apply List.filter_In in Hin as [Hin Hloc].
      exists nearest. repeat split; try assumption.
      intros s Hs Hsloc.
      assert (Hs' : In (with_distance userLocation s)
                      (with_distance userLocation nearest :: rest)).
      { eapply Permutation_in; [symmetry; exact Hperm |].
        apply in_map. apply List.filter_In. now split. }
      inversion Hsorted as [| ? ? _ Hleast]; subst.
      destruct Hs' as [Heq | Hrest].
      * assert (Hd : Station.distance (with_distance userLocation nearest)
                     = Station.distance (with_distance userLocation s))
          by now rewrite Heq.
        rewrite !distance_of_with_distance in Hd. injection Hd as Hd. rewrite Hd.
        apply float_leb_refl. rewrite List.Forall_forall in Hnan. apply Hnan.
        apply List.filter_In. now split.
      * rewrite List.Forall_forall in Hleast. specialize (Hleast _ Hrest).
        destruct Hleast as (da & db & Ea & Eb & Hle).
        rewrite distance_of_with_distance in Ea, Eb.
        injection Ea as <-. injection Eb as <-. exact Hle.
  - intros viewMode current. unfold autoSelect. now rewrite andb_false_r.
  - intros viewMode Hne. unfold autoSelect. apply String.eqb_neq in Hne.
    now rewrite Hne.
Qed.

Lemma filterM_total {A : Type} (p : A → Res bool) (f : A → bool) (l : list A) :
  Forall (fun x => p x = Ok (f x)) l → filterM p l = Ok (List.filter f l).
Proof.
  induction 1 as [| x l Hx _ IH]; cbn; [reflexivity |].
  rewrite Hx, IH. cbn. now destruct (f x).
Qed.

Lemma filterM_throws {A : Type} (p : A → Res bool) (l : list A) (x : A) (e : Exn) :
  In x l → p x = Throw e → ∃ e', filterM p l = Throw e'.
Proof.
  induction l as [| y l IH]; cbn; [tauto |].
  intros [-> | Hin] Hx.
  - rewrite Hx. now exists e.
  - destruct (p y) as [keep |]; cbn; [| now eexists].
    destruct (IH Hin Hx) as [e' ->]. now exists e'.
Qed.

Lemma matches_query_searchable (query : string) (s : Station.t) :
  searchable s = true → matches_query query s = Ok (mentions query s).
Proof.
  unfold searchable, text_fields, matches_query, mentions.
  destruct s as [id brand name address postcode town la lo pp dp sp lu io fa sn an hl
                 h24 hgv uk ba di]; cbn.
  destruct name, brand, address, postcode, town; cbn; try discriminate.
  intros Hsn. unfold orElse, toString_method. cbn.
  repeat match goal with
         | |- context [includes ?a ?b] =>
             let E := fresh "E" in destruct (includes a b) eqn:E; cbn; try reflexivity
         end;
    destruct sn as [| | [] | n | t | |]; cbn in *; try discriminate; try reflexivity;
    repeat match goal with
           | |- context [if ?c then _ else _] => destruct c; cbn; try reflexivity
           end;
    rewrite ?orb_false_r; try reflexivity.
Qed.

(** X17: for a non-empty ASCII query and stations whose searched fields
    are ASCII strings, the effect shows exactly the stations that have the
    lower-cased query in their name, brand, address, postcode or town (case
    ignored) or in the text of their site number, each with its distance,
    in ascending order of distance when the distances are numbers. *)
Theorem search_shows_the_stations_that_mention_the_query (showOnlyMatched : bool)
    (matchedStations allStations : list Station.t) (searchQuery : string) :
  let stations := if showOnlyMatched then matchedStations else allStations in
  let query := toLowerCase searchQuery in
  searchQuery ≠ "" →
  all_chars is_7bit searchQuery = true →
  Forall (fun s => searchable s = true) stations →
  Forall (fun s => ascii_fields s = true) stations →
  ∃ shown,
    displayedStations userLocation showOnlyMatched matchedStations allStations searchQuery
    = Ok shown
    ∧ Permutation shown
        (map (with_distance userLocation) (List.filter (mentions query) stations))
    ∧ (∀ s, In s stations → mentions query s = true →
            In (with_distance userLocation s) shown)
    ∧ (∀ shownStation, In shownStation shown →
         ∃ s, In s stations ∧ mentions query s = true
              ∧ shownStation = with_distance userLocation s)
    ∧ (Forall (fun s => PrimFloat.is_nan (distance_from userLocation s) = false)
         stations →
       StronglySorted distance_le shown).
Proof.
  intros stations query Hq _ Hall _. unfold displayedStations. fold stations.
  apply String.eqb_neq in Hq. rewrite Hq. cbn [negb]. fold query.
  assert (Hfilter : filterM (matches_query query) stations
                    = Ok (List.filter (mentions query) stations)).
  { apply filterM_total. eapply List.Forall_impl; [| exact Hall].
    intros s Hs. now apply matches_query_searchable. }
  destruct (Nat.ltb 0 (length stations)) eqn:Hlen.
  - rewrite Hfilter. cbn [bind]. eexists. split; [reflexivity |].
    pose proof (sortStationsByDistance_perm (List.filter (mentions query) stations))
      as Hperm.
    split; [exact Hperm | split; [| split]].
    + intros s Hin Hm. eapply Permutation_in; [symmetry; exact Hperm |].
      apply in_map. apply List.filter_In. now split.
    + intros shownStation Hin. eapply Permutation_in in Hin; [| exact Hperm].
      apply in_map_iff in Hin as (s & <- & Hin). apply List.filter_In in Hin as [Hin Hm].
      now exists s.
    + intros Hnan. apply sortStationsByDistance_sorted.
      apply List.Forall_forall. intros s Hin. apply List.filter_In in Hin as [Hin _].
      rewrite List.Forall_forall in Hnan. now apply Hnan.
  - destruct stations; [| discriminate Hlen]. exists []. cbn.
    repeat split; try constructor; try tauto.
Qed.

(** X18: a station whose name is neither a string nor missing (a number
    in the feed, say) makes the effect throw a TypeError for every
    non-empty query. *)
Theorem search_throws_on_a_name_that_is_not_text (showOnlyMatched : bool)
    (matchedStations allStations : list Station.t) (searchQuery : string)
    (station : Station.t) :
  let stations := if showOnlyMatched then matchedStations else allStations in
  searchQuery ≠ "" →
  In station stations →
  typeof_string (Station.name station) = false →
  nullish (Station.name station) = false →
  displayedStations userLocation showOnlyMatched matchedStations allStations searchQuery
  = Throw TypeError.
Proof.
  intros stations Hq Hin Hname Hnull. unfold displayedStations. fold stations.
  apply String.eqb_neq in Hq. rewrite Hq. cbn [negb].
  assert (Hlen : Nat.ltb 0 (length stations) = true) by now destruct stations.
  rewrite Hlen.
  assert (Hthrow : matches_query (toLowerCase searchQuery) station = Throw TypeError).
  { unfold matches_query. destruct (Station.name station); try discriminate; reflexivity. }
  destruct (filterM_throws _ _ _ _ Hin Hthrow) as [[] ->]. reflexivity.
Qed.

(** X19: for an ASCII query the effect gives the same result for the
    query, its upper-cased and its lower-cased form. *)
Theorem search_ignores_the_case_of_the_query (showOnlyMatched : bool)
    (matchedStations allStations : list Station.t) (searchQuery : string) :
  all_chars is_7bit searchQuery = true →
  displayedStations userLocation showOnlyMatched matchedStations allStations
    (toUpperCase searchQuery)
  = displayedStations userLocation showOnlyMatched matchedStations allStations searchQuery
  ∧ displayedStations userLocation showOnlyMatched matchedStations allStations
      (toLowerCase searchQuery)
    = displayedStations userLocation showOnlyMatched matchedStations allStations
        searchQuery.
Proof.
  intros _. unfold displayedStations.
  rewrite toLowerCase_upper, toLowerCase_idem.
  unfold toUpperCase, toLowerCase. now rewrite !map_string_empty.
Qed.

End DisplayMore.

(** ** Sessions *)

Lemma session_ok_step (s : Session.t) (e : Event) :
  session_ok s → enabled s e = true → session_ok (step s e).
Proof.
  intros (Htype & Hmember & Hguest & Hscreen) He.
  destruct s as [logged type screen email password err modal restricted].
  cbn in Htype, Hmember, Hguest, Hscreen.
  destruct e as [text | text | | | | id | | | |]; cbn [step].
  - repeat split; cbn; auto.
  - repeat split; cbn; auto.
  - unfold handleLogin. cbn [Session.email Session.password].
    destruct (_ && _); repeat split; cbn; auto; try discriminate; tauto.
  - repeat split; cbn; auto; try discriminate; tauto.
  - repeat split; cbn; auto; try discriminate; tauto.
  - unfold pressNavItem. cbn [Session.userType].
    unfold enabled, render in He. cbn [Session.isLoggedIn] in He.
    destruct logged; cbn [negb] in He; [| discriminate].
    assert (Hid : In id navItems).
    { destruct (renderScreen _); try discriminate He;
        apply includes_str_In in He; exact He. }
    destruct Htype as [-> | ->].
    + specialize (Hguest eq_refl eq_refl). subst screen.
      cbn [String.eqb Ascii.eqb Bool.eqb andb].
      destruct (String.eqb_spec id "map") as [-> | Hne]; cbn [negb];
        repeat split; cbn; auto; try discriminate.
    + cbn. repeat split; cbn; auto; discriminate.
  - unfold enabled, render in He. cbn [Session.isLoggedIn] in He.
    destruct logged; cbn [negb mounted] in He; [| discriminate].
    destruct Htype as [-> | ->].
    + specialize (Hguest eq_refl eq_refl). subst screen. discriminate He.
    + repeat split; cbn; auto; try discriminate. tauto.
  - unfold enabled, render in He. cbn [Session.isLoggedIn] in He.
    destruct logged; cbn [negb mounted] in He; [| discriminate].
    repeat split; cbn; auto; tauto.
  - repeat split; cbn; auto.
  - repeat split; cbn; auto.
Qed.

Lemma session_ok_run (events : list Event) : ∀ s s',
  session_ok s → run events s = Some s' → session_ok s'.
Proof.
  induction events as [| e rest IH]; intros s s' Hs; cbn.
  - now intros [= <-].
  - destruct (enabled s e) eqn:He; [| discriminate].
    apply IH. now apply session_ok_step.
Qed.

Lemma session_ok_initial : session_ok initialSession.
Proof. repeat split; cbn; auto; try discriminate. Qed.

(** X22: in every session reached from the initial one by events that
    are enabled when they happen, the restricted view is never rendered; a
    logged-in guest sees the map in full, and every enabled event leaves
    them a logged-in guest on the map. *)
Theorem a_guest_never_leaves_the_map (events : list Event) (s : Session.t) :
  run events initialSession = Some s →
  (∀ screen, render s ≠ Restricted screen)
  ∧ (Session.isLoggedIn s = true → Session.userType s = "guest" →
     render s = Full "map"
     ∧ ∀ e, enabled s e = true →
         Session.isLoggedIn (step s e) = true
         ∧ Session.userType (step s e) = "guest"
         ∧ Session.activeScreen (step s e) = "map").
Proof.
  intros Hrun.
  pose proof (session_ok_run _ _ _ session_ok_initial Hrun) as Hok.
  assert (Hmap : Session.isLoggedIn s = true → Session.userType s = "guest" →
                 render s = Full "map").
  { destruct Hok as (_ & _ & Hguest & _). intros Hl Hg. specialize (Hguest Hl Hg).
    unfold render, renderScreen. now rewrite Hl, Hg, Hguest. }
  split.
  - intros screen. unfold render. destruct (Session.isLoggedIn s) eqn:Hl; [| discriminate].
    cbn [negb]. destruct Hok as ([Hg | Hm] & _).
    + specialize (Hmap eq_refl Hg). unfold render in Hmap. rewrite Hl in Hmap.
      cbn [negb] in Hmap. congruence.
    + unfold renderScreen. rewrite Hm. discriminate.
  - intros Hl Hg. split; [now apply Hmap |]. intros e He.
    pose proof (session_ok_step _ _ Hok He) as (_ & _ & Hguest' & _).
    assert (Hkeep : Session.isLoggedIn (step s e) = true
                    ∧ Session.userType (step s e) = "guest").
    { specialize (Hmap Hl Hg). unfold enabled in He. rewrite Hmap in He.
      destruct s as [logged type screen email password err modal restricted].
      cbn in Hl, Hg. subst.
      destruct e; cbn [mounted] in He; try discriminate; cbn [step];
        try (split; reflexivity).
      unfold pressNavItem. cbn. destruct (negb _); split; reflexivity. }
    destruct Hkeep as [Hl' Hg']. repeat split; auto.
Qed.

Lemma member_step (s : Session.t) (e : Event) :
  Session.userType (step s e) = "member" →
  (Session.userType s = "member" → Session.isLoggedIn s = true) →
  Session.isLoggedIn (step s e) = true
  ∧ (Session.userType s = "member" ∨ (e = PressLogin ∧ credentials_ok s)).
Proof.
  destruct s as [logged type screen email password err modal restricted].
  destruct e as [text | text | | | | id | | | |]; cbn [step].
  - cbn. auto.
  - cbn. auto.
  - unfold handleLogin, credentials_ok. cbn [Session.email Session.password].
    destruct (String.eqb_spec (toLowerCase email) "killian@fuelq.co.uk") as [He | He];
      destruct (String.eqb_spec password "Password") as [Hp | Hp]; cbn; auto.
  - cbn. discriminate.
  - cbn. discriminate.
  - unfold pressNavItem. cbn [Session.userType]. destruct (_ && _); cbn; auto.
  - cbn. auto.
  - cbn. auto.
  - cbn. auto.
  - cbn. auto.
Qed.

Lemma member_trace (events : list Event) : ∀ s,
  Session.userType (fold_left step events s) = "member" →
  (Session.userType s = "member" → Session.isLoggedIn s = true) →
  Session.isLoggedIn (fold_left step events s) = true
  ∧ (Session.userType s = "member"
     ∨ ∃ before after,
         events = before ++ PressLogin :: after
         ∧ credentials_ok (fold_left step before s)).
Proof.
  induction events as [| e rest IH] using rev_ind; intros s; cbn.
  - intros Hm Hl. split; [now apply Hl | now left].
  - rewrite fold_left_app. cbn [fold_left]. intros Hm Hl.
    assert (Hprev : Session.userType (fold_left step rest s) = "member" →
                    Session.isLoggedIn (fold_left step rest s) = true)
      by (intros Hp; now apply IH).
    destruct (member_step _ _ Hm Hprev) as [Hlogged [Hp | [-> Hcred]]].
    + split; [exact Hlogged |].
      destruct (IH s Hp Hl) as [_ [Hs | (before & after & -> & Hcred)]]; [now left |].
      right. exists before, (after ++ [e]). split; [| exact Hcred].
      now rewrite <- app_assoc.
    + split; [exact Hlogged |]. right. exists rest, []. now split.
Qed.

(** X23: whatever the handlers called, in whatever order, with ASCII
    text typed into the email field, a session of type member is logged in
    and was entered by [handleLogin] at a moment when the lower-cased email
    field was [killian@fuelq.co.uk] and the password field [Password]; and
    with these typed in, the login button does open the member session on
    the dashboard. *)
Theorem membership_needs_the_credentials (events : list Event) :
  forallb ascii_event events = true →
  Session.userType (fold_left step events initialSession) = "member" →
  Session.isLoggedIn (fold_left step events initialSession) = true
  ∧ (∃ before after,
       events = before ++ PressLogin :: after
       ∧ toLowerCase (Session.email (fold_left step before initialSession))
         = "killian@fuelq.co.uk"
       ∧ Session.password (fold_left step before initialSession) = "Password")
  ∧ ∀ email,
      toLowerCase email = "killian@fuelq.co.uk" →
      run [TypeEmail email; TypePassword "Password"; PressLogin] initialSession
      = Some (Session.mk true "member" "dashboard" email "Password" "" false "").
Proof.
  intros _ Hm. destruct (member_trace events initialSession Hm) as [Hl Hwhy];
    [discriminate |].
  split; [exact Hl | split].
  - destruct Hwhy as [Hinit | (before & after & He & Hc1 & Hc2)]; [discriminate Hinit |].
    now exists before, after.
  - intros email Hemail. cbn. unfold handleLogin. cbn. now rewrite Hemail.
Qed.

(** ** Fixed notation and [kmToMiles] *)

Section FixedTexts.
Local Open Scope string_scope.

Lemma all_chars_app (p : ascii → bool) (a b : string) :
  all_chars p (a ++ b) = all_chars p a && all_chars p b.
Proof.
  induction a as [| c a IH]; [reflexivity |].
  rewrite append_cons. cbn [all_chars]. now rewrite IH, andb_assoc.
Qed.

Lemma length_append (a b : string) :
  String.length (a ++ b) = String.length a + String.length b.
Proof.
  induction a as [| c a IH]; [reflexivity |].
  rewrite append_cons. cbn [String.length]. now rewrite IH.
Qed.

Lemma append_empty (s : string) : s ++ "" = s.
Proof. induction s as [| c s IH]; [reflexivity |]. rewrite append_cons. now rewrite IH. Qed.

Lemma take_drop_chars (n : nat) (s : string) :
  take_chars n s ++ drop_chars n s = s.
Proof.
  revert s. induction n as [| n IH]; intros [| c s]; try reflexivity.
  cbn [take_chars drop_chars]. rewrite append_cons. now rewrite IH.
Qed.

Lemma length_take_chars (n : nat) (s : string) :
  n <= String.length s → String.length (take_chars n s) = n.
Proof.
  revert s. induction n as [| n IH]; intros [| c s] Hn; cbn in *; try lia.
  rewrite IH; lia.
Qed.

Lemma digit_of_nat (d : nat) : d < 10 → is_digit (ascii_of_nat (48 + d)) = true.
Proof.
  intros Hd. do 10 (destruct d as [| d]; [reflexivity |]). lia.
Qed.

Lemma decimal_from_digits (fuel : nat) (n : Z) (acc : string) :
  ∃ digits, RefHost.decimal_from fuel n acc = digits ++ acc
            ∧ all_chars is_digit digits = true
            ∧ (fuel ≠ 0 → digits ≠ "").
Proof.
  revert n acc. induction fuel as [| fuel IH]; intros n acc.
  - exists "". now repeat split.
  - cbn [RefHost.decimal_from].
    assert (Hd : is_digit (ascii_of_nat (48 + Z.to_nat (n mod 10))) = true).
    { apply digit_of_nat. pose proof (Z.mod_pos_bound n 10). lia. }
    destruct (n <? 10)%Z.
    + exists (String (ascii_of_nat (48 + Z.to_nat (n mod 10))) "").
      repeat split; [cbn [all_chars]; now rewrite Hd | discriminate].
    + destruct (IH (n / 10)%Z (String (ascii_of_nat (48 + Z.to_nat (n mod 10))) acc))
        as (digits & -> & Hdigits & _).
      exists (digits ++ String (ascii_of_nat (48 + Z.to_nat (n mod 10))) "").
      repeat split.
      * clear. induction digits as [| c digits IHd]; [reflexivity |].
        rewrite !append_cons. now rewrite IHd.
      * rewrite all_chars_app, Hdigits. cbn [all_chars]. now rewrite Hd.
      * intros _. destruct digits; discriminate.
Qed.

Lemma decimal_digits (n : Z) :
  all_chars is_digit (RefHost.decimal n) = true ∧ RefHost.decimal n ≠ "".
Proof.
  unfold RefHost.decimal.
  destruct (decimal_from_digits (S (Z.to_nat (Z.log2 n))) n "") as (digits & -> & Hd & Hne).
  assert (E : digits ++ "" = digits).
  { clear. induction digits as [| c d IH]; [reflexivity |]. rewrite append_cons. now rewrite IH. }
  rewrite E. split; [exact Hd | now apply Hne].
Qed.

Lemma zeros_digits (n : nat) :
  all_chars is_digit (RefHost.zeros n) = true ∧ String.length (RefHost.zeros n) = n.
Proof.
  induction n as [| n [IH1 IH2]]; [now split |].
  cbn [RefHost.zeros all_chars String.length]. rewrite IH1, IH2. now split.
Qed.

Lemma digits_value_from_app (a b : string) : ∀ value,
  digits_value_from value (a ++ b) = digits_value_from (digits_value_from value a) b.
Proof.
  induction a as [| c a IH]; intros value; [reflexivity |].
  rewrite append_cons. cbn [digits_value_from]. apply IH.
Qed.

Lemma digit_value_of_nat (d : nat) :
  d < 10 → Z.of_nat (nat_of_ascii (ascii_of_nat (48 + d)) - 48) = Z.of_nat d.
Proof.
  intros Hd. rewrite nat_ascii_embedding by lia. f_equal. lia.
Qed.

Lemma decimal_from_value (fuel : nat) : ∀ (n : Z) (acc : string),
  (0 <= n < 10 ^ Z.of_nat fuel)%Z →
  ∃ digits, RefHost.decimal_from fuel n acc = digits ++ acc
            ∧ digits_value digits = n.
Proof.
  induction fuel as [| fuel IH]; intros n acc Hn.
  - exists "". split; [reflexivity |]. cbn in *. lia.
  - cbn [RefHost.decimal_from].
    set (d := ascii_of_nat (48 + Z.to_nat (n mod 10))).
    assert (Hd : Z.of_nat (nat_of_ascii d - 48) = (n mod 10)%Z).
    { subst d. pose proof (Z.mod_pos_bound n 10 ltac:(lia)).
      rewrite digit_value_of_nat by lia. lia. }
    destruct (Z.ltb_spec n 10) as [Hlt | Hge].
    + exists (String d ""). split; [reflexivity |].
      unfold digits_value. cbn [digits_value_from]. rewrite Hd.
      rewrite Z.mod_small by lia. lia.
    + destruct (IH (n / 10)%Z (String d acc)) as (digits & -> & Hv).
      { split; [apply Z.div_pos; lia |].
        apply Z.div_lt_upper_bound; [lia |].
        replace (Z.of_nat (S fuel)) with (1 + Z.of_nat fuel)%Z in Hn by lia.
        rewrite Z.pow_add_r in Hn by lia. lia. }
      exists (digits ++ String d ""). split.
      * clear. induction digits as [| c digits IHd]; [reflexivity |].
        rewrite !append_cons. now rewrite IHd.
      * unfold digits_value in *. rewrite digits_value_from_app, Hv.
        cbn [digits_value_from]. rewrite Hd.
        pose proof (Z.div_mod n 10 ltac:(lia)). lia.
Qed.

Lemma decimal_value (n : Z) : (0 <= n)%Z → digits_value (RefHost.decimal n) = n.
Proof.
  intros Hn. unfold RefHost.decimal.
  destruct (decimal_from_value (S (Z.to_nat (Z.log2 n))) n "") as (digits & -> & Hv).
  - split; [exact Hn |].
    destruct (Z.eq_dec n 0%Z) as [-> | Hne]; [cbn; lia |].
    pose proof (Z.log2_spec n ltac:(lia)) as [_ Hlog].
    pose proof (Z.log2_nonneg n).
    replace (Z.of_nat (S (Z.to_nat (Z.log2 n)))) with (Z.succ (Z.log2 n)) by lia.
    eapply Z.lt_le_trans; [exact Hlog |].
    apply Z.pow_le_mono_l. lia.
  - now rewrite append_empty.
Qed.

Lemma zeros_value (k : nat) (s : string) :
  digits_value (RefHost.zeros k ++ s) = digits_value s.
Proof.
  induction k as [| k IH]; [reflexivity |].
  cbn [RefHost.zeros]. rewrite append_cons. exact IH.
Qed.

Lemma nearest_scaled_nearest (m : positive) (e : Z) (f : nat) :
  (0 <= nearest_scaled (Zpos m) e f)%Z
  ∧ nearest_multiple m e f (nearest_scaled (Zpos m) e f).
Proof.
  unfold nearest_multiple, nearest_scaled.
  set (numerator := (Zpos m * 2 ^ Z.max e 0 * 10 ^ Z.of_nat f)%Z).
  set (denominator := (2 ^ Z.max (- e) 0)%Z).
  assert (Hd : (0 < denominator)%Z) by (subst denominator; apply Z.pow_pos_nonneg; lia).
  assert (Hn : (0 <= numerator)%Z).
  { subst numerator. apply Z.mul_nonneg_nonneg; [apply Z.mul_nonneg_nonneg |];
      try lia; apply Z.pow_nonneg; lia. }
  pose proof (Z.div_mod (2 * numerator + denominator) (2 * denominator) ltac:(lia)) as Hdiv.
  pose proof (Z.mod_pos_bound (2 * numerator + denominator) (2 * denominator) ltac:(lia)).
  split; [apply Z.div_pos; lia | nia].
Qed.

Lemma fixed_digits_value (n : Z) (f : nat) :
  f ≠ 0 → (0 <= n)%Z →
  ∃ whole fraction,
    fixed_digits n f = whole ++ "." ++ fraction
    ∧ whole ≠ "" ∧ all_chars is_digit whole = true
    ∧ String.length fraction = f ∧ all_chars is_digit fraction = true
    ∧ digits_value (whole ++ fraction) = n.
Proof.
  intros Hf Hn. unfold fixed_digits.
  destruct (Nat.eqb_spec f 0) as [| _]; [contradiction |].
  destruct (decimal_digits n) as [Hd Hne].
  pose proof (decimal_value n Hn) as Hvalue.
  set (digits := RefHost.decimal n) in *.
  set (k := String.length digits).
  assert (Hk : 0 < k).
  { subst k. destruct digits; [contradiction | cbn; lia]. }
  set (m := if Nat.leb k f then RefHost.zeros (f + 1 - k) ++ digits else digits).
  set (k' := if Nat.leb k f then f + 1 else k).
  assert (Hm : all_chars is_digit m = true ∧ String.length m = k' ∧ digits_value m = n).
  { subst m k'. destruct (Nat.leb_spec k f).
    - destruct (zeros_digits (f + 1 - k)) as [Hz Hl].
      rewrite all_chars_app, length_append, Hz, Hd, Hl, zeros_value. fold k.
      split; [reflexivity | split; [lia | exact Hvalue]].
    - now split. }
  destruct Hm as (Hm & Hl & Hv).
  assert (Hk' : f < k') by (subst k'; destruct (Nat.leb_spec k f); lia).
  exists (take_chars (k' - f) m), (drop_chars (k' - f) m).
  pose proof (take_drop_chars (k' - f) m) as Hsplit.
  pose proof (length_take_chars (k' - f) m ltac:(lia)) as Htake.
  assert (Hlen := f_equal String.length Hsplit). rewrite length_append, Htake, Hl in Hlen.
  assert (Hall := f_equal (all_chars is_digit) Hsplit).
  rewrite all_chars_app, Hm in Hall. apply andb_true_iff in Hall as [Ha Hb].
  rewrite Hsplit.
  repeat split; try assumption; [| lia].
  intros E. rewrite E in Htake. cbn in Htake. lia.
Qed.

End FixedTexts.

Section FixedFacts.
Context `{Host}.
Local Open Scope string_scope.

Lemma toFixed_notation (x : float) (f : nat) :
  f ≠ 0 → fixed_range x = true → fixed_notation x f (toFixed x f).
Proof.
  intros Hf. unfold fixed_range, toFixed, fixed_notation, below_1e21.
  destruct (Prim2SF x) as [s | s | | s m e]; try discriminate; intros Hr.
  - destruct (fixed_digits_value 0 f Hf ltac:(lia)) as (whole & fraction & -> & Hrest).
    exists whole, fraction. tauto.
  - rewrite Hr. destruct (nearest_scaled_nearest m e f) as [Hpos Hnear].
    destruct (fixed_digits_value _ f Hf Hpos)
      as (whole & fraction & -> & Hw & Hwd & Hl & Hfd & Hv).
    exists whole, fraction. rewrite Hv. tauto.
Qed.

(** X24: when the product [km * 0.621371] is finite and below [10^21] in
    magnitude, [kmToMiles] writes it in fixed notation with one digit
    after the point: a minus sign when it is negative, at least one digit,
    the point and one digit, which denote the tenth nearest to the
    product, the larger one of two. *)
Theorem kmToMiles_writes_the_nearest_tenth (km : float) :
  fixed_range (km * 0.621371) = true →
  fixed_notation (km * 0.621371) 1 (kmToMiles km).
Proof.
  intros Hrange. unfold kmToMiles.
  apply toFixed_notation; [discriminate | exact Hrange].
Qed.

End FixedFacts.

(** ** The lists of the screens *)

Lemma filterM_In {A : Type} (p : A → Res bool) (l kept : list A) :
  filterM p l = Ok kept → ∀ x, In x kept → In x l.
Proof.
  revert kept. induction l as [| y l IH]; cbn; intros kept E x Hx.
  - injection E as <-. exact Hx.
  - destruct (p y) as [keep |]; cbn in E; [| discriminate].
    destruct (filterM p l) as [kept' |]; cbn in E; [| discriminate].
    injection E as <-. destruct keep.
    + destruct Hx as [-> | Hx]; [now left | right; eauto].
    + right; eauto.
Qed.

Lemma sorted_firstn_skipn {A : Type} (R : A → A → Prop) (n : nat) (l : list A) :
  StronglySorted R l →
  ∀ x y, In x (firstn n l) → In y (skipn n l) → R x y.
Proof.
  intros Hs. revert n. induction Hs as [| a l Hl IH Ha]; intros n x y Hx Hy.
  - rewrite firstn_nil in Hx. destruct Hx.
  - destruct n as [| n]; [destruct Hx |].
    cbn [firstn skipn] in Hx, Hy. destruct Hx as [<- | Hx].
    + rewrite List.Forall_forall in Ha. apply Ha.
      rewrite <- (firstn_skipn n l). apply in_or_app. now right.
    + eapply IH; eassumption.
Qed.

Lemma sorted_filter {A : Type} (R : A → A → Prop) (p : A → bool) (l : list A) :
  StronglySorted R l → StronglySorted R (List.filter p l).
Proof.
  induction 1 as [| a l Hl IH Ha]; cbn; [constructor |].
  destruct (p a); [| exact IH]. constructor; [exact IH |].
  rewrite List.Forall_forall in *. intros x Hx. apply Ha.
  now apply List.filter_In in Hx as [Hx _].
Qed.

Lemma sorted_firstn {A : Type} (R : A → A → Prop) (n : nat) (l : list A) :
  StronglySorted R l → StronglySorted R (firstn n l).
Proof.
  intros Hs. revert n. induction Hs as [| a l Hl IH Ha]; intros [| n]; cbn; try constructor.
  - apply IH.
  - rewrite List.Forall_forall in *. intros x Hx. apply Ha.
    rewrite <- (firstn_skipn n l). apply in_or_app. now left.
Qed.

Lemma In_firstn {A : Type} (n : nat) (l : list A) (x : A) :
  In x (firstn n l) → In x l.
Proof.
  intros Hx. rewrite <- (firstn_skipn n l). apply in_or_app. now left.
Qed.

Section ListFacts.
Context `{Host}.
Local Open Scope string_scope.
Variable userLocation : Location.t.

(** What the filter/sort effect shows, whatever the query: a sorted
    selection of the stations it is given. *)
Lemma displayedStations_selects (showOnlyMatched : bool)
    (matchedStations allStations : list Station.t) (searchQuery : string)
    (shown : list Station.t) :
  let stations := if showOnlyMatched then matchedStations else allStations in
  displayedStations userLocation showOnlyMatched matchedStations allStations searchQuery
  = Ok shown →
  ∃ selected, (∀ s, In s selected → In s stations)
              ∧ shown = sortStationsByDistance userLocation selected.
Proof.
  intros stations. unfold displayedStations. fold stations.
  destruct (Nat.ltb 0 (length stations)).
  - destruct (negb (String.eqb searchQuery "")).
    + destruct (filterM _ stations) as [kept |] eqn:E; cbn; [| discriminate].
      intros [= <-]. exists kept. split; [| reflexivity].
      intros s. eapply filterM_In, E.
    + cbn. intros [= <-]. exists stations. now split.
  - intros [= <-]. exists []. split; [intros s [] | reflexivity].
Qed.

Lemma displayedStations_sorted (showOnlyMatched : bool)
    (matchedStations allStations : list Station.t) (searchQuery : string)
    (shown : list Station.t) :
  let stations := if showOnlyMatched then matchedStations else allStations in
  Forall (fun s => PrimFloat.is_nan (distance_from userLocation s) = false) stations →
  displayedStations userLocation showOnlyMatched matchedStations allStations searchQuery
  = Ok shown →
  StronglySorted distance_le shown
  ∧ ∀ station, In station shown →
      ∃ s, In s stations ∧ station = with_distance userLocation s.
Proof.
  intros stations Hnan E.
  destruct (displayedStations_selects _ _ _ _ _ E) as (selected & Hsub & ->).
  fold stations in Hsub. split.
  - apply sortStationsByDistance_sorted. rewrite List.Forall_forall in *. auto.
  - intros station Hin.
    eapply Permutation_in in Hin; [| apply sortStationsByDistance_perm].
    apply in_map_iff in Hin as (s & <- & Hs). exists s. split; auto.
Qed.

(** X25: the dashboard's cards are made of the first three stations the
    filter effect shows (of all when there are fewer), in that order: when
    the distances are numbers, no station left out is closer than a station
    with a card.  Each card is its station with the distance as a text, the
    miles with one digit after the point followed by [" miles"], or
    without a distance when that is zero. *)
Theorem dashboard_shows_the_three_nearest (showOnlyMatched : bool)
    (matchedStations allStations : list Station.t) (searchQuery : string)
    (shown : list Station.t) :
  let stations := if showOnlyMatched then matchedStations else allStations in
  Forall (fun s => PrimFloat.is_nan (distance_from userLocation s) = false) stations →
  displayedStations userLocation showOnlyMatched matchedStations allStations searchQuery
  = Ok shown →
  ∃ nearest others,
    shown = (nearest ++ others)%list
    ∧ length nearest = Nat.min 3 (length shown)
    ∧ (∀ near far, In near nearest → In far others → distance_le near far)
    ∧ Forall2 card_of nearest (dashboardStations shown).
Proof.
  intros stations Hnan E.
  destruct (displayedStations_sorted _ _ _ _ _ Hnan E) as [Hsorted Hfrom].
  exists (firstn 3 shown), (skipn 3 shown).
  split; [symmetry; apply firstn_skipn |].
  split; [apply length_firstn |].
  split; [now apply sorted_firstn_skipn |].
  unfold dashboardStations.
  assert (Hcards : ∀ station, In station (firstn 3 shown) →
                     card_of station (card_station station)).
  { intros station Hin. apply In_firstn in Hin.
    destruct (Hfrom _ Hin) as (s & _ & ->).
    split; [reflexivity |]. exists (distance_from userLocation s).
    split; [reflexivity |]. unfold card_station. rewrite distance_of_with_distance.
    split; [now intros -> |]. intros -> Hrange.
    exists (kmToMiles (distance_from userLocation s)). split; [| reflexivity].
    apply toFixed_notation; [discriminate | exact Hrange]. }
  induction (firstn 3 shown) as [| station rest IH]; cbn [map]; constructor.
  - apply Hcards. now left.
  - apply IH. intros s Hs. apply Hcards. now right.
Qed.

(** X26: the map marks at most fifty stations, all of them shown by the
    filter effect with truthy latitude and longitude, in ascending order of
    distance when the distances are numbers; a shown station with truthy
    coordinates that is not marked is at least as far as every marked one,
    and none is left out when there are fifty or fewer. *)
Theorem map_marks_the_fifty_nearest_located (showOnlyMatched : bool)
    (matchedStations allStations : list Station.t) (searchQuery : string)
    (shown : list Station.t) :
  let stations := if showOnlyMatched then matchedStations else allStations in
  Forall (fun s => PrimFloat.is_nan (distance_from userLocation s) = false) stations →
  displayedStations userLocation showOnlyMatched matchedStations allStations searchQuery
  = Ok shown →
  length (nearbyStations shown) <= 50
  ∧ StronglySorted distance_le (nearbyStations shown)
  ∧ (∀ marked, In marked (nearbyStations shown) →
       In marked shown ∧ located marked = true)
  ∧ (∀ station, In station shown → located station = true →
       In station (nearbyStations shown)
       ∨ ∀ marked, In marked (nearbyStations shown) → distance_le marked station)
  ∧ (length (List.filter located shown) <= 50 →
     nearbyStations shown = List.filter located shown).
Proof.
  intros stations Hnan E.
  destruct (displayedStations_sorted _ _ _ _ _ Hnan E) as [Hsorted _].
  pose proof (sorted_filter _ located _ Hsorted) as Hlocated.
  unfold nearbyStations. split; [| split; [| split; [| split]]].
  - rewrite length_firstn. lia.
  - now apply sorted_firstn.
  - intros marked Hin. apply In_firstn in Hin. now apply List.filter_In in Hin.
  - intros station Hin Hloc.
    assert (Hs : In station (List.filter located shown)) by (apply List.filter_In; now split).
    rewrite <- (firstn_skipn 50 (List.filter located shown)) in Hs.
    apply in_app_or in Hs as [Hs | Hs]; [now left | right].
    intros marked Hm. eapply sorted_firstn_skipn; eassumption.
  - intros Hlen. now apply firstn_all2.
Qed.

End ListFacts.

(** ** The refresh *)

Lemma directory_In (ukSites : list JS) : ∀ sites,
  directory ukSites = Some sites →
  ∀ site, In site sites → ∃ object, In object ukSites ∧ Site_of_object object = Some site.
Proof.
  induction ukSites as [| o rest IH]; cbn [directory]; intros sites E site Hin.
  - injection E as <-. destruct Hin.
  - destruct (Site_of_object o) as [s |] eqn:Eo; [| discriminate].
    destruct (directory rest) as [l |]; [| discriminate].
    injection E as <-. destruct Hin as [<- | Hin].
    + exists o. split; [now left | exact Eo].
    + destruct (IH l eq_refl site Hin) as (object & Ho & Hs).
      exists object. split; [now right | exact Hs].
Qed.

Section RefreshFacts.
Context `{Host}.

Lemma no_directory_no_match (clock : nat → string) (live : list Station.t)
    (averagePrices : JS) (result : MatchResult.t) :
  matchStationsWithUKFuels clock live [] averagePrices = Ok result →
  MatchResult.matched result = [] ∧ MatchResult.liveCount result = 0.
Proof.
  intros E. apply matchStationsWithUKFuels_eq in E as (claimed & _ & Hm & _ & Hc).
  assert (Hnone : live_matches (build_indices []) [] live = []).
  { destruct (live_matches _ [] live) as [| [station site] rest] eqn:El; [reflexivity |].
    assert (Hin : In (station, site) (live_matches (build_indices []) [] live))
      by (rewrite El; now left).
    apply live_matches_In in Hin as [_ Hfind]. now apply findSite_In in Hfind. }
  rewrite Hm, Hc, Hnone. now split.
Qed.

Lemma truthy_prices_Ok (price : Station.t → JS) (stations : list Station.t) :
  (∃ prices, truthy_prices price stations = Ok prices)
  ↔ ∀ s, In s stations → truthy (price s) = true → ∃ n, parseFloat (price s) = Ok n.
Proof.
  unfold truthy_prices. induction stations as [| s rest IH]; cbn [List.filter].
  - split; [intros _ s [] | intros _; now exists []].
  - destruct (truthy (price s)) eqn:Et.
    + cbn [mapM]. split.
      * intros [prices E]. destruct (parseFloat (price s)) as [n |] eqn:En; [| discriminate].
        cbn [bind] in E. destruct (mapM _ (List.filter _ rest)) as [ps |] eqn:Ep;
          [| discriminate].
        intros s' [<- | Hin] Ht; [now exists n |].
        apply (proj1 IH); eauto.
      * intros Hall. destruct (Hall s (or_introl eq_refl) Et) as [n ->]. cbn [bind].
        destruct (proj2 IH) as [ps ->]; [intros s' Hin; apply Hall; now right |].
        now eexists.
    + rewrite IH. split.
      * intros Hall s' [<- | Hin] Ht; [congruence | now apply Hall].
      * intros Hall s' Hin. apply Hall. now right.
Qed.

Lemma averages_Ok (stations : list Station.t) :
  (∃ a, averages stations = Ok a)
  ↔ ∀ s, In s stations →
      (truthy (Station.petrol_price s) = true → ∃ n, parseFloat (Station.petrol_price s) = Ok n)
      ∧ (truthy (Station.diesel_price s) = true
         → ∃ n, parseFloat (Station.diesel_price s) = Ok n).
Proof.
  unfold averages. split.
  - intros [a E].
    destruct (truthy_prices Station.petrol_price stations) as [pp |] eqn:Ep; [| discriminate].
    destruct (truthy_prices Station.diesel_price stations) as [dp |] eqn:Ed; [| discriminate].
    intros s Hin. split; intros Ht.
    + eapply (proj1 (truthy_prices_Ok _ _)); eauto.
    + eapply (proj1 (truthy_prices_Ok _ _)); eauto.
  - intros Hall.
    destruct (proj2 (truthy_prices_Ok Station.petrol_price stations)) as [pp ->];
      [intros s Hin; now apply Hall |].
    destruct (proj2 (truthy_prices_Ok Station.diesel_price stations)) as [dp ->];
      [intros s Hin; now apply Hall |].
    cbn [bind]. now eexists.
Qed.

(** The prices of a matched record are those of a live station or the
    averages the engine was given. *)
Lemma matched_prices_parse (clock : nat → string) (live : list Station.t)
    (sites : list Site.t) (petrol diesel : string) (result : MatchResult.t) :
  (∃ a, averages live = Ok a) →
  matchStationsWithUKFuels clock live sites
    (JObj [("petrol", JStr petrol); ("diesel", JStr diesel)]) = Ok result →
  ∃ a, averages (MatchResult.matched result) = Ok a.
Proof.
  intros Hlive E. apply averages_Ok. rewrite averages_Ok in Hlive.
  apply matchStationsWithUKFuels_eq in E as (claimed & _ & Hm & _ & _).
  intros record Hin. rewrite Hm in Hin. apply in_app_iff in Hin as [Hin | Hin].
  - apply in_map_iff in Hin as ([station site] & <- & Hin).
    apply live_matches_In in Hin as [Hin _]. exact (Hlive station Hin).
  - apply synthesized_In in Hin as (j & site & _ & -> & _ & _).
    cbn [unmatchedUKSite Station.petrol_price Station.diesel_price getOpt nullish prop
         assoc String.eqb Ascii.eqb Bool.eqb].
    unfold jsOr. split.
    + destruct (truthy (JStr petrol)); [intros _; now eexists | discriminate].
    + destruct (truthy (JStr diesel)); [intros _; now eexists | discriminate].
Qed.

Variable siteClock : nat → string.
Variable feedClock : nat → nat → string.
Variable demoStations fallbackStations : list Station.t.

(** The two ways a refresh ends. *)
Lemma fetchFuelPrices_ends (app app' : App.t) (sitesResponse feedsResponse : Fetched) :
  fetchFuelPrices siteClock feedClock demoStations fallbackStations
    app sitesResponse feedsResponse = Some app' →
  ∃ ukSites sites,
    (if Nat.eqb (length (App.ukFuelsSites app)) 0
     then loadUKFuelsSites sitesResponse else Ok (App.ukFuelsSites app)) = Ok ukSites
    ∧ directory ukSites = Some sites
    ∧ App.ukFuelsSites app' = ukSites
    ∧ ((∃ err, App.error app' = Some err
               ∧ App.matchedStations app' = App.matchedStations app
               ∧ App.liveStationsCount app' = App.liveStationsCount app
               ∧ App.petrolAverage app' = App.petrolAverage app
               ∧ App.dieselAverage app' = App.dieselAverage app
               ∧ App.allStations app' = fallbackStations
               ∧ App.displayedStations app' = fallbackStations)
       ∨ (∃ averagePrices result,
            App.error app' = None
            ∧ matchStationsWithUKFuels siteClock
                (fst (gatherStations feedClock demoStations feedsResponse)) sites
                averagePrices = Ok result
            ∧ App.matchedStations app' = MatchResult.matched result
            ∧ App.liveStationsCount app' = MatchResult.liveCount result
            ∧ App.allStations app' = fst (gatherStations feedClock demoStations feedsResponse)
            ∧ App.displayedStations app' = MatchResult.matched result)).
Proof.
  unfold fetchFuelPrices.
  change (App.ukFuelsSites (App.setError None app)) with (App.ukFuelsSites app).
  assert (Hload : ∃ ukSites,
    (if Nat.eqb (length (App.ukFuelsSites app)) 0
     then loadUKFuelsSites sitesResponse
     else Ok (App.ukFuelsSites app)) = Ok ukSites).
  { destruct (Nat.eqb _ 0); [| now eexists].
    destruct sitesResponse as [| [|] [data |]]; cbn [loadUKFuelsSites]; try now eexists.
    destruct (_ <- get data "success";; _) as [l |]; cbn [try_catch]; now eexists. }
  destruct Hload as [ukSites Hload]. intros E. rewrite Hload in E.
  destruct (directory ukSites) as [sites |] eqn:Ed; [| discriminate].
  set (all := fst (gatherStations feedClock demoStations feedsResponse)) in *.
  exists ukSites, sites. split; [exact Hload |]. split; [exact Ed |].
  destruct (averages all) as [[petrol diesel] |] eqn:Ea; cbn [bind fst snd] in E.
  - destruct (matchStationsWithUKFuels siteClock all sites _) as [result |] eqn:Em.
    + destruct (matched_prices_parse _ _ _ _ _ _ (ex_intro _ _ Ea) Em) as [a Ea'].
      cbn [showOnlyMatched] in E. unfold showOnlyMatched in E. rewrite Ea' in E.
      injection E as <-. split; [reflexivity |]. right.
      eexists _, result. repeat split. exact Em.
    + injection E as <-. split; [reflexivity |]. left. exists e. now repeat split.
  - injection E as <-. split; [reflexivity |]. left. exists e. now repeat split.
Qed.

End RefreshFacts.

Lemma Site_of_object_siteNo (object : JS) (site : Site.t) :
  Site_of_object object = Some site →
  JS_of_Prim (Site.siteNo site) = prop object "siteNo".
Proof.
  unfold Site_of_object.
  destruct (Prim_of_JS (prop object "siteNo")) as [siteNo |] eqn:Eno; [| discriminate].
  destruct (prop object "latitude"); try discriminate.
  destruct (prop object "longitude"); try discriminate.
  destruct (prop object "siteName"); try discriminate.
  destruct (prop object "street1"); try discriminate.
  destruct (prop object "town"); try discriminate.
  destruct (prop object "postCode"); try discriminate.
  destruct (prop object "brand"); try discriminate.
  intros [= <-]. cbn [Site.siteNo].
  destruct (prop object "siteNo"); cbn in Eno; try discriminate;
    now injection Eno as <-.
Qed.

Section RefreshMore.
Context `{Host}.

Lemma matched_record_site (clock : nat → string) (live : list Station.t)
    (sites : list Site.t) (averagePrices : JS) (result : MatchResult.t) :
  matchStationsWithUKFuels clock live sites averagePrices = Ok result →
  ∀ record, In record (MatchResult.matched result) →
    Station.isUKFuelsSite record = JBool true
    ∧ ∃ site, In site sites
              ∧ Station.ukFuelsSiteNo record = JS_of_Prim (Site.siteNo site).
Proof.
  intros E record Hin.
  apply matchStationsWithUKFuels_eq in E as (claimed & _ & Hm & _ & _).
  rewrite Hm in Hin. apply in_app_iff in Hin as [Hin | Hin].
  - apply in_map_iff in Hin as ([station site] & <- & Hin).
    apply live_matches_In in Hin as [_ Hfind]. apply findSite_In in Hfind.
    split; [reflexivity | now exists site].
  - apply synthesized_In in Hin as (j & site & Hj & -> & _ & _).
    split; [reflexivity |]. exists site. split; [| reflexivity].
    eapply lookup_In. exact Hj.
Qed.

Lemma liveCount_counts (clock : nat → string) (live : list Station.t)
    (sites : list Site.t) (averagePrices : JS) (result : MatchResult.t) :
  matchStationsWithUKFuels clock live sites averagePrices = Ok result →
  MatchResult.liveCount result
  = length (List.filter (fun s => is_true (Station.hasLivePricing s))
              (MatchResult.matched result)).
Proof.
  unfold matchStationsWithUKFuels.
  destruct (forEach_from _ live 0 _) as [st |]; cbn [bind]; [| discriminate].
  now intros [= <-].
Qed.

Lemma app_ok_fetch (r : Refresh.t) (app app' : App.t) :
  app_ok app →
  fetchFuelPrices (Refresh.siteClock r) (Refresh.feedClock r) (Refresh.demoStations r)
    (Refresh.fallbackStations r) app (Refresh.sitesResponse r) (Refresh.feedsResponse r)
  = Some app' →
  app_ok app'.
Proof.
  intros [Hsites Hcount] E.
  apply fetchFuelPrices_ends in E
    as (ukSites & sites & Hload & Hdir & Huk & [Hfail | Hdone]).
  - destruct Hfail as (err & _ & Hm & Hc & _). split; [| now rewrite Hm, Hc].
    rewrite Hm, Huk. destruct (App.ukFuelsSites app) as [| o l] eqn:Eo.
    + apply List.Forall_forall. intros record Hin.
      rewrite List.Forall_forall in Hsites.
      destruct (Hsites record Hin) as (_ & object & [] & _).
    + cbn in Hload. now injection Hload as <-.
  - destruct Hdone as (avg & result & _ & Em & Hm & Hc & _). split.
    + rewrite Hm, Huk. apply List.Forall_forall. intros record Hin.
      destruct (matched_record_site _ _ _ _ _ Em record Hin) as (Huk' & site & Hs & Hno).
      split; [exact Huk' |].
      destruct (directory_In _ _ Hdir site Hs) as (object & Ho & Hobj).
      exists object. split; [exact Ho |].
      now rewrite Hno, (Site_of_object_siteNo _ _ Hobj).
    + rewrite Hm, Hc. eapply liveCount_counts, Em.
Qed.

Lemma app_ok_refreshes (inputs : list Refresh.t) : ∀ app app',
  app_ok app → refreshes inputs app = Some app' → app_ok app'.
Proof.
  induction inputs as [| r rest IH]; cbn [refreshes]; intros app app' Hok E.
  - now injection E as <-.
  - destruct (fetchFuelPrices _ _ _ _ app _ _) as [next |] eqn:En; [| discriminate].
    eapply IH; [eapply app_ok_fetch; eassumption | exact E].
Qed.

Lemma shown_from_matched (userLocation : Location.t)
    (matchedStations allStations : list Station.t) (searchQuery : string)
    (shown : list Station.t) :
  displayedStations userLocation showOnlyMatched matchedStations allStations searchQuery
  = Ok shown →
  ∀ station, In station shown →
    ∃ record, In record matchedStations ∧ station = with_distance userLocation record.
Proof.
  intros E station Hin.
  destruct (displayedStations_selects _ _ _ _ _ _ E) as (selected & Hsub & ->).
  eapply Permutation_in in Hin; [| apply sortStationsByDistance_perm].
  apply in_map_iff in Hin as (record & <- & Hrecord).
  exists record. split; [now apply Hsub | reflexivity].
Qed.

Variable siteClock : nat → string.
Variable feedClock : nat → nat → string.
Variable demoStations fallbackStations : list Station.t.

(** X27: while the state holds no directory and the sites request
    delivers none, a refresh ends with an empty directory; when it ends
    without an error the stations it gathered are in [allStations], but the
    matched list, the displayed list and the live count are empty; and if
    no station was matched before, the filter effect shows nothing after
    the refresh, whatever the feeds delivered. *)
Theorem without_the_directory_no_station_is_listed (app : App.t)
    (sitesResponse feedsResponse : Fetched) :
  App.ukFuelsSites app = [] →
  loadUKFuelsSites sitesResponse = Ok [] →
  ∃ app',
    fetchFuelPrices siteClock feedClock demoStations fallbackStations
      app sitesResponse feedsResponse = Some app'
    ∧ App.ukFuelsSites app' = []
    ∧ (App.error app' = None →
       App.allStations app' = fst (gatherStations feedClock demoStations feedsResponse)
       ∧ App.matchedStations app' = []
       ∧ App.liveStationsCount app' = 0
       ∧ App.displayedStations app' = [])
    ∧ (App.matchedStations app = [] →
       ∀ userLocation searchQuery,
         displayedStations userLocation showOnlyMatched
           (App.matchedStations app') (App.allStations app') searchQuery = Ok []).
Proof.
  intros Hnone Hload.
  destruct (fetchFuelPrices siteClock feedClock demoStations fallbackStations
              app sitesResponse feedsResponse) as [app' |] eqn:E.
  - exists app'. split; [reflexivity |].
    apply fetchFuelPrices_ends in E
      as (ukSites & sites & Hload' & Hdir & Huk & Hend).
    rewrite Hnone in Hload'. cbn [length Nat.eqb] in Hload'.
    rewrite Hload in Hload'. injection Hload' as <-.
    cbn [directory] in Hdir. injection Hdir as <-.
    split; [exact Huk |].
    destruct Hend as [(err & Herr & Hm & _) | (avg & result & Herr & Em & Hm & Hc & Ha & Hd)].
    + split; [rewrite Herr; discriminate |].
      intros Hold userLocation searchQuery. now rewrite Hm, Hold.
    + destruct (no_directory_no_match _ _ _ _ Em) as [Hnil Hzero].
      rewrite Hnil in Hm, Hd. rewrite Hzero in Hc.
      split; [intros _; auto |].
      intros _ userLocation searchQuery. now rewrite Hm.
  - exfalso. unfold fetchFuelPrices in E.
    change (App.ukFuelsSites (App.setError None app)) with (App.ukFuelsSites app) in E.
    rewrite Hnone in E. cbn [length Nat.eqb] in E. rewrite Hload in E.
    cbn [directory] in E.
    destruct (_ <- averages _;; _) as [result |]; [| discriminate].
    destruct (averages _); discriminate.
Qed.

(** X28: a refresh that ends with an error puts the demo stations of the
    outer [catch] in [allStations] and [displayedStations], and leaves the
    matched list, the live count and the averages as they were; the filter
    effect, which reads the matched list, then shows what it showed before
    the refresh, not the demo stations. *)
Theorem a_failed_refresh_keeps_the_matched_stations (app app' : App.t)
    (sitesResponse feedsResponse : Fetched) :
  fetchFuelPrices siteClock feedClock demoStations fallbackStations
    app sitesResponse feedsResponse = Some app' →
  App.error app' ≠ None →
  App.allStations app' = fallbackStations
  ∧ App.displayedStations app' = fallbackStations
  ∧ App.matchedStations app' = App.matchedStations app
  ∧ App.liveStationsCount app' = App.liveStationsCount app
  ∧ App.petrolAverage app' = App.petrolAverage app
  ∧ App.dieselAverage app' = App.dieselAverage app
  ∧ ∀ userLocation searchQuery,
      displayedStations userLocation showOnlyMatched
        (App.matchedStations app') (App.allStations app') searchQuery
      = displayedStations userLocation showOnlyMatched
          (App.matchedStations app) (App.allStations app) searchQuery.
Proof.
  intros E Herr.
  apply fetchFuelPrices_ends in E as (ukSites & sites & _ & _ & _ & [Hfail | Hdone]).
  - destruct Hfail as (err & _ & Hm & Hc & Hp & Hd & Ha & Hs).
    repeat (split; [assumption |]).
    intros userLocation searchQuery. now rewrite Hm.
  - destruct Hdone as (avg & result & Hnone & _). contradiction.
Qed.

End RefreshMore.

Section RefreshInvariant.
Context `{Host}.

(** X29: after any series of refreshes from the initial state, whatever
    the requests deliver, every matched record is marked as a UK Fuels site
    and carries the number of a site object of the directory state;
    [liveStationsCount] is the number of matched records with live pricing,
    at most the number of matched records; and every station the filter
    effect shows is such a record. *)
Theorem only_directory_sites_are_listed (inputs : list Refresh.t) (app : App.t) :
  refreshes inputs initialApp = Some app →
  Forall (names_site_of (App.ukFuelsSites app)) (App.matchedStations app)
  ∧ App.liveStationsCount app
    = length (List.filter (fun s => is_true (Station.hasLivePricing s))
                (App.matchedStations app))
  ∧ (App.liveStationsCount app <= length (App.matchedStations app))%nat
  ∧ ∀ userLocation searchQuery shown,
      displayedStations userLocation showOnlyMatched
        (App.matchedStations app) (App.allStations app) searchQuery = Ok shown →
      Forall (names_site_of (App.ukFuelsSites app)) shown.
Proof.
  intros Hrun.
  assert (Hok : app_ok app).
  { eapply app_ok_refreshes; [| exact Hrun]. split; [constructor | reflexivity]. }
  destruct Hok as [Hsites Hcount].
  split; [exact Hsites |]. split; [exact Hcount |]. split.
  - rewrite Hcount. apply List.filter_length_le.
  - intros userLocation searchQuery shown E.
    apply List.Forall_forall. intros station Hin.
    destruct (shown_from_matched _ _ _ _ _ E station Hin) as (record & Hrecord & ->).
    rewrite List.Forall_forall in Hsites. exact (Hsites record Hrecord).
Qed.

End RefreshInvariant.


(** ** Instances on the reference host *)


(** X1 on the reference host: a postcode as typed and its key. *)
Lemma normalizeString_keeps_letters_and_digits_witness :
  normalizeString (H := refHost) (JStr " sl1 3ua ") = Ok "SL13UA".
Proof.
  exact (proj1 (normalizeString_keeps_letters_and_digits (H := refHost) " sl1 3ua "
                  eq_refl)).
Defined.

(** X2 on the reference host: a postcode as typed and its key. *)
Lemma normalizeString_is_idempotent_witness :
  normalizeString (H := refHost) (JStr "SW1A1AA") = Ok "SW1A1AA".
Proof.
  apply (normalizeString_is_idempotent (H := refHost) (JStr " sw1a 1aa ") "SW1A1AA").
  reflexivity.
Defined.

(** X3 on the reference host: the two halves of a postcode, however they
    are spaced and cased. *)
Lemma normalizeString_ignores_case_and_separators_witness :
  normalizeString (H := refHost) (JStr "Sw1a - 1aa") = Ok "SW1A1AA"
  ∧ normalizeString (H := refHost) (JStr "sw1a - 1aa") = Ok "SW1A1AA".
Proof.
  destruct (normalizeString_ignores_case_and_separators (H := refHost)
              "Sw1a" " - " "1aa" eq_refl eq_refl)
    as (ka & kb & Ha & Hb & Hjoin & Hlower & _).
  injection Ha as <-. injection Hb as <-. split; [exact Hjoin | exact Hlower].
Defined.

(** X4 on the reference host: the key of a BP site in Slough. *)
Lemma brand_town_keys_do_not_collide_witness :
  "BP" = "BP" ∧ "SLOUGH" = "SLOUGH".
Proof.
  apply (brand_town_keys_do_not_collide (H := refHost)
           (JStr "bp") (JStr "Slough") (JStr "BP") (JStr " SLOUGH ")
           "BP" "SLOUGH" "BP" "SLOUGH"); reflexivity.
Defined.

(** X5 on the reference host: the Slough station is matched to site 7
    by its postcode. *)
Lemma findSite_scans_the_directory_witness :
  findSite (H := refHost) (build_indices [Sample.site42; Sample.site7])
    [Sample.site42; Sample.site7] Sample.slough
  = Ok (Some Sample.site7).
Proof.
  rewrite (findSite_scans_the_directory (H := refHost) [Sample.site42; Sample.site7]
             Sample.slough "SL13UA" "BPSLOUGH" "BP" "SLOUGH"
             eq_refl eq_refl eq_refl eq_refl).
  reflexivity.
Defined.

(** X7 on the reference host: of the TESCO and the Manchester station,
    one is merged and one is left unmatched. *)
Lemma live_stations_are_conserved_witness :
  ∃ result,
    matchStationsWithUKFuels (H := refHost) Sample.clock
      [Sample.tesco; Sample.manchester] [Sample.site42; Sample.site7] Sample.averages
    = Ok result
    ∧ MatchResult.liveCount result + length (MatchResult.unmatched result) = 2.
Proof.
  destruct (matchStationsWithUKFuels (H := refHost) Sample.clock
              [Sample.tesco; Sample.manchester] [Sample.site42; Sample.site7]
              Sample.averages) as [result | e] eqn:E;
    [| vm_compute in E; discriminate E].
  exists result. split; [reflexivity |].
  exact (proj1 (live_stations_are_conserved (H := refHost) _ _ _ _ _ E)).
Defined.

(** X8 on the reference host: both records of that run carry the number
    of a site of the directory. *)
Lemma matched_records_name_directory_sites_witness :
  ∃ result,
    matchStationsWithUKFuels (H := refHost) Sample.clock
      [Sample.tesco; Sample.manchester] [Sample.site42; Sample.site7] Sample.averages
    = Ok result
    ∧ ∀ record, In record (MatchResult.matched result) →
        ∃ site, In site [Sample.site42; Sample.site7]
                ∧ Station.ukFuelsSiteNo record = JS_of_Prim (Site.siteNo site).
Proof.
  destruct (matchStationsWithUKFuels (H := refHost) Sample.clock
              [Sample.tesco; Sample.manchester] [Sample.site42; Sample.site7]
              Sample.averages) as [result | e] eqn:E;
    [| vm_compute in E; discriminate E].
  exists result. split; [reflexivity |]. intros record Hin.
  destruct (matched_records_name_directory_sites (H := refHost) _ _ _ _ _ E record Hin)
    as (site & Hsite & Hno & _).
  exists site. exact (conj Hsite Hno).
Defined.

(** X9 on the reference host: an empty [stations] hides the record under
    [data]. *)
Lemma first_truthy_probe_key_decides_witness :
  parseStationData (H := refHost) Sample.clock "ASDA" Cases.empty_stations = Ok [].
Proof.
  destruct (first_truthy_probe_key_decides (H := refHost) Sample.clock "ASDA"
              Cases.empty_stations [] "stations"
              ["data"; "results"; "fuel_prices"; "items"; "sites"; "locations";
               "stores"; "forecourts"]
              eq_refl (List.Forall_nil _) eq_refl) as (_ & Hempty & _).
  exact (Hempty eq_refl).
Defined.

(** X12 on the reference host: a record with E10 at 145.9 and B7 at 152.9
    pence. *)
Lemma feed_record_is_read_in_pence_witness :
  ∃ p,
    extractStation (H := refHost) Sample.clock "ASDA"
      (feed_record "gcpw" "" "1 High Street" "SL1 2AB" 51.51 (-0.59)
         [("E10", JNum 145.9%float); ("B7", JNum 152.9%float)]) 0
    = Ok p
    ∧ Station.id p = "ASDA-gcpw" ∧ Station.brand p = JStr "ASDA"
    ∧ Station.petrol_price p = JNum (145.9 / 100)%float
    ∧ Station.super_price p = JNull
    ∧ Station.diesel_price p = JNum (152.9 / 100)%float.
Proof.
  destruct (feed_record_is_read_in_pence (H := refHost) Sample.clock "ASDA"
              "gcpw" "" "1 High Street" "SL1 2AB" 51.51 (-0.59)
              [("E10", JNum 145.9%float); ("B7", JNum 152.9%float)] 0
              ltac:(discriminate) eq_refl eq_refl eq_refl)
    as (p & Hp & Hid & Hbrand & _ & _ & _ & _ & Hpetrol & Hsuper & Hdiesel).
  exists p. repeat split; assumption.
Defined.

(** X14 on the reference host: the Slough site as the endpoint sends it
    and as it is stored. *)
Lemma loaded_sites_are_well_formed_witness :
  ∃ object record,
    siteObject (H := refHost) Cases.site_payload = Ok object
    ∧ Site_of_object object = Some record
    ∧ Site.siteNo record = PNum 7%float.
Proof.
  destruct (siteObject (H := refHost) Cases.site_payload) as [object | e] eqn:E;
    [| vm_compute in E; discriminate E].
  destruct (loaded_sites_are_well_formed (H := refHost) _ _ E eq_refl)
    as (_ & _ & _ & _ & Hrecord).
  destruct (Hrecord (PNum 7%float) eq_refl) as (record & Hsite & Hno).
  now exists object, record.
Defined.

(** X15 on the reference host: the summary is skipped, the ASDA feed is
    read, the failed feed is not. *)
Lemma sound_feeds_are_gathered_in_order_witness :
  ∃ station,
    gatherStations (H := refHost) Cases.clock [Cases.numbered]
      (Response true (Some (JObj Cases.sound_feeds)))
    = ([station], 1)
    ∧ Station.id station = "ASDA-gcpw".
Proof.
  rewrite (sound_feeds_are_gathered_in_order (H := refHost) Cases.clock
             [Cases.numbered] Cases.sound_feeds ltac:(repeat constructor)).
  eexists. split; vm_compute; reflexivity.
Defined.

(** X16 on the reference host: a [null] feed after the ASDA feed leaves
    the ASDA station followed by the demo stations, labelled as live data. *)
Lemma a_broken_feed_mixes_live_and_demo_stations_witness :
  ∃ station,
    gatherStations (H := refHost) Cases.clock [Cases.numbered]
      (Response true (Some (JObj (Cases.sound_feeds ++ ("BP", JNull)
                                     :: [("Tesco", Cases.feed Sample.priced_record)]))))
    = ([station; Cases.numbered], 1)
    ∧ Station.id station = "ASDA-gcpw".
Proof.
  destruct (a_broken_feed_mixes_live_and_demo_stations (H := refHost) Cases.clock
              [Cases.numbered] Cases.sound_feeds ("BP", JNull)
              [("Tesco", Cases.feed Sample.priced_record)]
              ltac:(repeat constructor) eq_refl) as [Hgathered _].
  rewrite Hgathered. eexists. split; vm_compute; reflexivity.
Defined.

(** X17 on the reference host: of the Manchester and the Slough station
    the query [SLOUGH] shows the second. *)
Lemma search_shows_the_stations_that_mention_the_query_witness :
  ∃ shown,
    displayedStations (H := refHost) userLocation_initial false []
      [Sample.manchester; Sample.slough] "SLOUGH" = Ok shown
    ∧ map Station.id shown = ["BP-3"].
Proof.
  destruct (search_shows_the_stations_that_mention_the_query (H := refHost)
              userLocation_initial false [] [Sample.manchester; Sample.slough] "SLOUGH"
              ltac:(discriminate) eq_refl ltac:(repeat constructor)
              ltac:(repeat constructor))
    as (shown & Hshown & _).
  exists shown. split; [exact Hshown |].
  vm_compute in Hshown. injection Hshown as <-. reflexivity.
Defined.

(** X18 on the reference host: a station whose name is the number 24
    breaks the search for [jet]. *)
Lemma search_throws_on_a_name_that_is_not_text_witness :
  displayedStations (H := refHost) userLocation_initial false []
    [Sample.slough; Cases.numbered] "jet" = Throw TypeError.
Proof.
  apply (search_throws_on_a_name_that_is_not_text (H := refHost) userLocation_initial
           false [] [Sample.slough; Cases.numbered] "jet" Cases.numbered).
  - discriminate.
  - right. now left.
  - reflexivity.
  - reflexivity.
Defined.

(** X19 on the reference host: [BP] and [Bp] find the same stations. *)
Lemma search_ignores_the_case_of_the_query_witness :
  displayedStations (H := refHost) userLocation_initial false []
    [Sample.manchester; Sample.slough] "BP"
  = displayedStations (H := refHost) userLocation_initial false []
      [Sample.manchester; Sample.slough] "Bp".
Proof.
  exact (proj1 (search_ignores_the_case_of_the_query (H := refHost) userLocation_initial
                  false [] [Sample.manchester; Sample.slough] "Bp" eq_refl)).
Defined.

(** X20 on the reference host: the two stations, sorted once and twice. *)
Lemma sorting_again_changes_nothing_witness :
  sortStationsByDistance (H := refHost) userLocation_initial
    (sortStationsByDistance (H := refHost) userLocation_initial
       [Sample.manchester; Sample.slough])
  = sortStationsByDistance (H := refHost) userLocation_initial
      [Sample.manchester; Sample.slough].
Proof.
  apply (sorting_again_changes_nothing (H := refHost) userLocation_initial
           [Sample.manchester; Sample.slough]).
  repeat constructor.
Defined.

(** X21 on the reference host: seen from Slough, the Slough station is
    selected, though the Manchester one comes first in the list. *)
Lemma auto_select_picks_a_nearest_station_witness :
  ∃ chosen,
    autoSelect (H := refHost) userLocation_initial "map"
      [Sample.manchester; Sample.slough] None = Some chosen
    ∧ Station.id chosen = "BP-3".
Proof.
  destruct (autoSelect (H := refHost) userLocation_initial "map"
              [Sample.manchester; Sample.slough] None) as [chosen |] eqn:E;
    [| vm_compute in E; discriminate E].
  destruct (auto_select_picks_a_nearest_station (H := refHost)
              userLocation_initial [Sample.manchester; Sample.slough]
              ltac:(repeat constructor)) as [Hchosen _].
  rewrite E in Hchosen. destruct Hchosen as (nearest & _ & _ & Hnearest & _).
  exists chosen. split; [reflexivity |].
  vm_compute in E. injection E as <-. reflexivity.
Defined.

(** X22: a guest who presses the account item stays on the map, with the
    modal open. *)
Lemma a_guest_never_leaves_the_map_witness :
  render (Session.mk true "guest" "map" "" "" "" true "account") = Full "map".
Proof.
  destruct (a_guest_never_leaves_the_map [PressGuest; PressNavItem "account"]
              (Session.mk true "guest" "map" "" "" "" true "account") eq_refl)
    as [_ Hguest].
  exact (proj1 (Hguest eq_refl eq_refl)).
Defined.

(** X23: the member session is entered with the credentials. *)
Lemma membership_needs_the_credentials_witness :
  ∃ before after,
    [TypeEmail "Killian@FuelQ.co.uk"; TypePassword "Password"; PressLogin]
    = before ++ PressLogin :: after
    ∧ toLowerCase (Session.email (fold_left step before initialSession))
      = "killian@fuelq.co.uk".
Proof.
  destruct (membership_needs_the_credentials
              [TypeEmail "Killian@FuelQ.co.uk"; TypePassword "Password"; PressLogin]
              eq_refl eq_refl) as (_ & (before & after & Hsplit & Hemail & _) & _).
  now exists before, after.
Defined.

(** X24 on the reference host: ten kilometres. *)
Lemma kmToMiles_writes_the_nearest_tenth_witness :
  fixed_notation (10 * 0.621371) 1 (kmToMiles (H := refHost) 10)
  ∧ kmToMiles (H := refHost) 10 = "6.2".
Proof.
  split; [| reflexivity].
  exact (kmToMiles_writes_the_nearest_tenth (H := refHost) 10 eq_refl).
Defined.

(** X25 on the reference host: of four stations seen from Slough, the
    farthest gets no card. *)
Lemma dashboard_shows_the_three_nearest_witness :
  ∃ shown,
    displayedStations (H := refHost) userLocation_initial showOnlyMatched
      [Sample.tesco; Sample.manchester; Sample.slough; Sample.tesco_express] [] ""
    = Ok shown
    ∧ map Station.id (dashboardStations (H := refHost) shown)
      = ["BP-3"; "Shell-9"; "Tesco-1"]
    ∧ ∃ nearest, Forall2 card_of nearest (dashboardStations (H := refHost) shown).
Proof.
  destruct (displayedStations (H := refHost) userLocation_initial showOnlyMatched
              [Sample.tesco; Sample.manchester; Sample.slough; Sample.tesco_express] [] "")
    as [shown | e] eqn:E; [| vm_compute in E; discriminate E].
  exists shown. split; [reflexivity |].
  destruct (dashboard_shows_the_three_nearest (H := refHost) userLocation_initial
              showOnlyMatched
              [Sample.tesco; Sample.manchester; Sample.slough; Sample.tesco_express] [] ""
              shown ltac:(repeat constructor) E) as (nearest & _ & _ & _ & _ & Hcards).
  split; [| now exists nearest].
  vm_compute in E. injection E as <-. reflexivity.
Defined.

(** X26 on the reference host: of the same four stations the two with
    truthy coordinates are marked, nearest first. *)
Lemma map_marks_the_fifty_nearest_located_witness :
  ∃ shown,
    displayedStations (H := refHost) userLocation_initial showOnlyMatched
      [Sample.tesco; Sample.manchester; Sample.slough; Sample.tesco_express] [] ""
    = Ok shown
    ∧ map Station.id (nearbyStations shown) = ["BP-3"; "Shell-9"]
    ∧ StronglySorted distance_le (nearbyStations shown).
Proof.
  destruct (displayedStations (H := refHost) userLocation_initial showOnlyMatched
              [Sample.tesco; Sample.manchester; Sample.slough; Sample.tesco_express] [] "")
    as [shown | e] eqn:E; [| vm_compute in E; discriminate E].
  exists shown. split; [reflexivity |].
  destruct (map_marks_the_fifty_nearest_located (H := refHost) userLocation_initial
              showOnlyMatched
              [Sample.tesco; Sample.manchester; Sample.slough; Sample.tesco_express] [] ""
              shown ltac:(repeat constructor) E) as (_ & Hsorted & _ & _ & Hall).
  split; [| exact Hsorted].
  vm_compute in E. injection E as <-. reflexivity.
Defined.

(** X27 on the reference host: the sites request fails, the feeds deliver
    a station, and nothing is matched. *)
Lemma without_the_directory_no_station_is_listed_witness :
  ∃ app',
    fetchFuelPrices (H := refHost) (fun _ => "2024-01-22T09:00:01.000Z") Cases.clock [] []
      initialApp NetworkError (Response true (Some (JObj Cases.sound_feeds))) = Some app'
    ∧ length (App.allStations app') = 1
    ∧ App.matchedStations app' = [].
Proof.
  destruct (without_the_directory_no_station_is_listed (H := refHost)
              (fun _ => "2024-01-22T09:00:01.000Z") Cases.clock [] []
              initialApp NetworkError (Response true (Some (JObj Cases.sound_feeds)))
              eq_refl eq_refl) as (app' & E & _ & Hdone & _).
  exists app'. split; [exact E |].
  vm_compute in E. injection E as <-.
  destruct (Hdone eq_refl) as (_ & Hm & _). split; [reflexivity | exact Hm].
Defined.

(** X28 on the reference host: after a refresh that matched a station, a
    refresh whose feed holds a postcode with a [toString] property ends
    with an error and keeps that station. *)
Lemma a_failed_refresh_keeps_the_matched_stations_witness :
  ∃ app app',
    refreshes (H := refHost)
      [Cases.refresh (Response true (Some Cases.directory_body)) Cases.bp_record]
      initialApp = Some app
    ∧ fetchFuelPrices (H := refHost) (fun _ => "2024-01-22T09:05:00.000Z") Cases.clock [] []
        app NetworkError
        (Response true (Some (JObj [("BP", Cases.feed Cases.odd_record)]))) = Some app'
    ∧ App.error app' = Some TypeError
    ∧ map Station.id (App.matchedStations app') = ["matched-7-BP-gcpx"].
Proof.
  destruct (refreshes (H := refHost)
              [Cases.refresh (Response true (Some Cases.directory_body)) Cases.bp_record]
              initialApp) as [app |] eqn:Eapp; [| vm_compute in Eapp; discriminate Eapp].
  destruct (fetchFuelPrices (H := refHost) (fun _ => "2024-01-22T09:05:00.000Z")
              Cases.clock [] [] app NetworkError
              (Response true (Some (JObj [("BP", Cases.feed Cases.odd_record)]))))
    as [app' |] eqn:E;
    [| vm_compute in Eapp; injection Eapp as <-; vm_compute in E; discriminate E].
  exists app, app'. split; [reflexivity |]. split; [exact E |].
  assert (Herr : App.error app' = Some TypeError).
  { vm_compute in Eapp. injection Eapp as <-. vm_compute in E. injection E as <-.
    reflexivity. }
  split; [exact Herr |].
  destruct (a_failed_refresh_keeps_the_matched_stations (H := refHost) _ _ _ _ _ _ _ _ E
              ltac:(rewrite Herr; discriminate)) as (_ & _ & -> & _).
  vm_compute in Eapp. injection Eapp as <-. reflexivity.
Defined.

(** X29 on the reference host: a refresh that loads the directory and
    matches a station, then one that fails. *)
Lemma only_directory_sites_are_listed_witness :
  ∃ app,
    refreshes (H := refHost)
      [Cases.refresh (Response true (Some Cases.directory_body)) Cases.bp_record;
       Cases.refresh NetworkError Cases.odd_record]
      initialApp = Some app
    ∧ App.liveStationsCount app = 1
    ∧ Forall (names_site_of (App.ukFuelsSites app)) (App.matchedStations app).
Proof.
  destruct (refreshes (H := refHost)
              [Cases.refresh (Response true (Some Cases.directory_body)) Cases.bp_record;
               Cases.refresh NetworkError Cases.odd_record]
              initialApp) as [app |] eqn:E; [| vm_compute in E; discriminate E].
  exists app. split; [reflexivity |].
  destruct (only_directory_sites_are_listed (H := refHost) _ _ E) as (Hsites & _).
  split; [| exact Hsites].
  vm_compute in E. injection E as <-. reflexivity.
Defined.
